(** * visualization.matrix: audio analysis and render orchestration

    A shallow embedding of [src/main.cpp] (class [CVisualizationMatrix]).

    - C [float] and [double] arithmetic is reached through the interface
      [CArith]; [IEEE754] instantiates it with the binary32 and binary64
      operations of the Standard Library's [SpecFloat].
    - libm ([cos], [log10f]) and kiss_fft are not part of the repository:
      they are parameters of the analysis.
    - Undefined behaviour of the C++ source (an access outside an
      allocation, a division by zero, an integer cast or shift that
      overflows) is explicit: such a step yields [Undefined].
    - Buffers are lists read with [load] and written with [store]. Buffer
      indices are [nat]; the [unsigned int] counter of [Mix] is a 32-bit
      value that wraps, and the [int] length of [AudioData] is converted to
      [size_t] as the source converts it.
    - The OpenGL server, the file system, the shader compiler and the clock
      are modelled by a small GL state and a record of host functions. *)

From Stdlib Require Import ZArith Lia.
From Stdlib Require Import Floats.SpecFloat.
From stdpp Require Import base option list strings functions.

Local Open Scope Z_scope.

(** ** Constants of the translation unit *)

Definition AUDIO_BUFFER : nat := 1024.
Definition NUM_BANDS : nat := Nat.div AUDIO_BUFFER 2.
Definition UCHAR_MAX : Z := 255.

(** ** C arithmetic *)

(** The operations of C [float] and [double] used by the source.
    [f_to_int] and [d_to_int] are the casts [(int)x]: they truncate toward
    zero and are undefined ([None]) when the truncated value is not an
    [int]. [d_lit n d] is the [double] literal whose decimal value is
    [n / d]. *)
Class CArith := {
  float : Type;
  double : Type;
  f_add : float -> float -> float;
  f_mul : float -> float -> float;
  f_div : float -> float -> float;
  f_sqrt : float -> float;
  f_of_Z : Z -> float;
  f_is_zero : float -> bool;
  f_to_int : float -> option Z;
  f_to_d : float -> double;
  d_to_f : double -> float;
  d_add : double -> double -> double;
  d_sub : double -> double -> double;
  d_mul : double -> double -> double;
  d_div : double -> double -> double;
  d_of_Z : Z -> double;
  d_lit : Z -> Z -> double;
  d_eqb : double -> double -> bool;
  d_to_int : double -> option Z;
}.

(** *** IEEE-754 binary32 and binary64 *)

Module IEEE.

Definition of_Z (prec emax : Z) (z : Z) : spec_float :=
  binary_normalize prec emax z 0 false.

(** Conversion between formats: the value [±m·2^e], rounded to nearest
    even in the target format (exact when widening). *)
Definition convert (prec emax : Z) (x : spec_float) : spec_float :=
  match x with
  | S754_finite s m e => binary_normalize prec emax (cond_Zopp s (Zpos m)) e false
  | _ => x
  end.

Definition unsigned_trunc (m : positive) (e : Z) : Z :=
  match e with
  | Z0 => Zpos m
  | Zpos p => Zpos m * 2 ^ Zpos p
  | Zneg p => Zpos m / 2 ^ Zpos p
  end.

Definition INT_MIN : Z := - 2 ^ 31.
Definition INT_MAX : Z := 2 ^ 31 - 1.

(** [(int)x]: truncation toward zero; undefined for NaN, infinities and
    values whose integral part is outside [int]. *)
Definition to_int (x : spec_float) : option Z :=
  match x with
  | S754_zero _ => Some 0
  | S754_finite s m e =>
      let z := cond_Zopp s (unsigned_trunc m e) in
      if (INT_MIN <=? z) && (z <=? INT_MAX) then Some z else None
  | _ => None
  end.

Definition is_zero (x : spec_float) : bool :=
  match x with S754_zero _ => true | _ => false end.

Definition integer (z : Z) : spec_float :=
  match z with
  | Z0 => S754_zero false
  | Zpos p => S754_finite false p 0
  | Zneg p => S754_finite true p 0
  end.

(** The correctly rounded quotient of two integers. *)
Definition lit (prec emax : Z) (n d : Z) : spec_float :=
  SFdiv prec emax (integer n) (integer d).

End IEEE.

Definition IEEE754 : CArith := {|
  float := spec_float;
  double := spec_float;
  f_add := SFadd 24 128;
  f_mul := SFmul 24 128;
  f_div := SFdiv 24 128;
  f_sqrt := SFsqrt 24 128;
  f_of_Z := IEEE.of_Z 24 128;
  f_is_zero := IEEE.is_zero;
  f_to_int := IEEE.to_int;
  f_to_d := IEEE.convert 53 1024;
  d_to_f := IEEE.convert 24 128;
  d_add := SFadd 53 1024;
  d_sub := SFsub 53 1024;
  d_mul := SFmul 53 1024;
  d_div := SFdiv 53 1024;
  d_of_Z := IEEE.of_Z 53 1024;
  d_lit := IEEE.lit 53 1024;
  d_eqb := SFeqb;
  d_to_int := IEEE.to_int;
|}.

(** ** Undefined behaviour *)

(** [Diverges] is the model's own: a loop that used up its fuel. *)
Inductive UB := OutOfRange | DivByZero | BadCast | ShiftOverflow | Diverges.

Inductive result (A : Type) :=
  | Ok (a : A)
  | Undefined (u : UB).
Arguments Ok {A} a.
Arguments Undefined {A} u.

#[global] Instance result_ret : MRet result := @Ok.
#[global] Instance result_bind : MBind result := fun A B f m =>
  match m with
  | Ok a => f a
  | Undefined u => Undefined u
  end.

Definition is_Ok {A} (r : result A) : bool :=
  match r with
  | Ok _ => true
  | Undefined _ => false
  end.

Definition cast (o : option Z) : result Z :=
  match o with
  | Some z => Ok z
  | None => Undefined BadCast
  end.

(** ** Buffers *)

Definition load {A} (buf : list A) (i : nat) : result A :=
  match buf !! i with
  | Some x => Ok x
  | None => Undefined OutOfRange
  end.

Definition store {A} (buf : list A) (i : nat) (v : A) : result (list A) :=
  if decide (i < length buf)%nat then Ok (<[i:=v]> buf)
  else Undefined OutOfRange.

(** [for (i = start; i < start + n; i++) body], threading the state; the
    loop stops at the first undefined step. *)
Fixpoint for_range {St} (start n : nat) (body : nat -> St -> result St)
    (s : St) : result St :=
  match n with
  | O => Ok s
  | S n' => s' ← body start s; for_range (S start) n' body s'
  end.

(** [std::max(std::min(v, UCHAR_MAX), 0)], stored in a [GLubyte]. *)
Definition clamp_byte (v : Z) : Z := Z.max (Z.min v UCHAR_MAX) 0.

(** ** The catalog *)

Record Preset := {
  name : string;
  file : string;
  channel : list Z;
}.

Definition g_presets : list Preset := [
  {| name := "Kodi";  file := "kodi.frag.glsl";  channel := [99; 0; 1; -1] |};
  {| name := "Album"; file := "album.frag.glsl"; channel := [99; 0; 1; 2] |}
].

Definition g_fileTextures : list string := ["logo.png"; "noise.png"; "album.png"].

(** ** Machine integers *)

Definition wrap (bits : Z) (z : Z) : Z := z mod 2 ^ bits.

(** A 32-bit [int] after an arithmetic step, two's complement. *)
Definition to_int32 (z : Z) : Z := wrap 32 (z + 2 ^ 31) - 2 ^ 31.

Definition is_int32 (z : Z) : Prop := - 2 ^ 31 <= z < 2 ^ 31.

(** [(size_t)z] on a platform whose [size_t] has [SIZE_BITS] bits. *)
Definition to_size_t (SIZE_BITS : Z) (z : Z) : Z := wrap SIZE_BITS z.

(** [1 << b] on [int]: defined while the result is representable. *)
Definition shl_one (b : Z) : result Z :=
  if (0 <=? b) && (b <? 31) then Ok (2 ^ b) else Undefined ShiftOverflow.

(** ** The OpenGL server *)

Definition GLuint := Z.

(** What [glTexImage2D] last stored in a texture object. *)
Inductive TexImage :=
  | ImgNone
  | ImgAudio (data : list Z)
  | ImgFile (path : string)
  | ImgTarget (w h : Z).

Record GLState := {
  gl_textures : list GLuint;       (* texture names in use *)
  gl_image : GLuint -> TexImage;
  gl_active : nat;                 (* glActiveTexture *)
  gl_bound : nat -> GLuint;        (* GL_TEXTURE_2D binding of each unit *)
  gl_framebuffers : list GLuint;   (* framebuffer names in use *)
}.

(** ** The host: settings, file system, shader compiler, clock, GPU *)

Record Host := {
  SIZE_BITS : Z;
  GetSettingBoolean : string -> bool;
  GetSettingInt : string -> Z;
  GetSettingString : string -> string;
  GetAddonPath : string -> string;
  GetCacheThumbName : string -> string;
  TranslateSpecialProtocol : string -> string;
  FileExists : string -> bool;
  (** [stbi_load] returns an image ([true]) or [nullptr] *)
  stbi_load : string -> bool;
  (** [LoadShaderFiles(..) && CompileAndLink(..)] of [m_matrixShader] for a
      fragment file, from the previous program handle: success and the
      handle [ProgramHandle()] returns afterwards *)
  build_matrix : string -> GLuint -> bool * GLuint;
  build_display : GLuint -> bool * GLuint;
  Width : Z;
  Height : Z;
  (** the k-th reading of the clock, in milliseconds since its epoch *)
  clock : nat -> Z;
  (** the k-th [glReadPixels]: the byte at each index of the buffer *)
  glReadPixels : nat -> nat -> Z;
  (** the name [glGenTextures] and [glGenFramebuffers] return, given the
      names in use *)
  glGen : list GLuint -> GLuint;
  (** the k-th [std::rand()] *)
  rand : nat -> Z;
  RAND_MAX : Z;
}.


(** Setters of the OpenGL state. *)
Definition set_gl_textures (v : list GLuint) (g : GLState) : GLState :=
  {| gl_textures := v; gl_image := gl_image g; gl_active := gl_active g;
     gl_bound := gl_bound g; gl_framebuffers := gl_framebuffers g |}.
Definition set_gl_image (v : GLuint -> TexImage) (g : GLState) : GLState :=
  {| gl_textures := gl_textures g; gl_image := v; gl_active := gl_active
     g; gl_bound := gl_bound g; gl_framebuffers := gl_framebuffers g |}.
Definition set_gl_active (v : nat) (g : GLState) : GLState :=
  {| gl_textures := gl_textures g; gl_image := gl_image g; gl_active := v;
     gl_bound := gl_bound g; gl_framebuffers := gl_framebuffers g |}.
Definition set_gl_bound (v : nat -> GLuint) (g : GLState) : GLState :=
  {| gl_textures := gl_textures g; gl_image := gl_image g; gl_active :=
     gl_active g; gl_bound := v; gl_framebuffers := gl_framebuffers g |}.
Definition set_gl_framebuffers (v : list GLuint) (g : GLState) : GLState :=
  {| gl_textures := gl_textures g; gl_image := gl_image g; gl_active :=
     gl_active g; gl_bound := gl_bound g; gl_framebuffers := v |}.

(** ** The visualization object *)

Section Visualization.
Context {A : CArith}.

Record ShaderTexture := { audio : bool; texture : string }.

(** The modelled part of [m_state]. *)
Record State := {
  fbwidth : Z;
  fbheight : Z;
  framebuffer_texture : GLuint;
  effect_fb : GLuint;
}.

(** The members of the class the operations below read or write. The
    four-element arrays are functions of the index. *)
Record CVisualizationMatrix := {
  m_initialized : bool;
  m_settingsUseOwnshader : bool;
  m_currentPreset : Z;
  m_bitsPrecision : Z;
  m_needsUpload : bool;
  m_samplesPerSec : Z;
  m_usedShaderFile : string;
  m_shaderTextures : nat -> ShaderTexture;
  m_channelTextures : nat -> GLuint;
  m_state : State;
  m_initialTime : Z;
  m_matrixShader : GLuint;
  m_displayShader : GLuint;
  m_audioData : list Z;
  m_magnitudeBuffer : list float;
  m_pcm : list float;
}.

(** What an execution leaves in the trace, most recent first: [Probe] for
    a run of [DetermineBitsPrecision], [Frame] for a frame drawn by
    [Render], [GlobalTime t] for [glUniform1f(m_attrGlobalTimeLoc, t)]. *)
Inductive Event := Probe | Frame | GlobalTime (t : float).

(** The object together with what it acts on: the OpenGL server, the
    settings store ([lastpresetidx]), the number of readings taken from the
    clock, the GPU and [std::rand], and the event trace. *)
Record World := {
  self : CVisualizationMatrix;
  gl : GLState;
  ticks : nat;
  readbacks : nat;
  rands : nat;
  lastpresetidx : Z;
  trace : list Event;
}.

Definition set_fbwidth (v : Z) (s : State) : State :=
  {| fbwidth := v; fbheight := fbheight s; framebuffer_texture :=
     framebuffer_texture s; effect_fb := effect_fb s |}.
Definition set_fbheight (v : Z) (s : State) : State :=
  {| fbwidth := fbwidth s; fbheight := v; framebuffer_texture :=
     framebuffer_texture s; effect_fb := effect_fb s |}.
Definition set_framebuffer_texture (v : GLuint) (s : State) : State :=
  {| fbwidth := fbwidth s; fbheight := fbheight s; framebuffer_texture :=
     v; effect_fb := effect_fb s |}.
Definition set_effect_fb (v : GLuint) (s : State) : State :=
  {| fbwidth := fbwidth s; fbheight := fbheight s; framebuffer_texture :=
     framebuffer_texture s; effect_fb := v |}.

Definition set_m_initialized (v : bool) (o : CVisualizationMatrix) :
     CVisualizationMatrix :=
  {| m_initialized := v; m_settingsUseOwnshader := m_settingsUseOwnshader
     o; m_currentPreset := m_currentPreset o; m_bitsPrecision :=
     m_bitsPrecision o; m_needsUpload := m_needsUpload o; m_samplesPerSec :=
     m_samplesPerSec o; m_usedShaderFile := m_usedShaderFile o;
     m_shaderTextures := m_shaderTextures o; m_channelTextures :=
     m_channelTextures o; m_state := m_state o; m_initialTime :=
     m_initialTime o; m_matrixShader := m_matrixShader o; m_displayShader :=
     m_displayShader o; m_audioData := m_audioData o; m_magnitudeBuffer :=
     m_magnitudeBuffer o; m_pcm := m_pcm o |}.
Definition set_m_currentPreset (v : Z) (o : CVisualizationMatrix) :
     CVisualizationMatrix :=
  {| m_initialized := m_initialized o; m_settingsUseOwnshader :=
     m_settingsUseOwnshader o; m_currentPreset := v; m_bitsPrecision :=
     m_bitsPrecision o; m_needsUpload := m_needsUpload o; m_samplesPerSec :=
     m_samplesPerSec o; m_usedShaderFile := m_usedShaderFile o;
     m_shaderTextures := m_shaderTextures o; m_channelTextures :=
     m_channelTextures o; m_state := m_state o; m_initialTime :=
     m_initialTime o; m_matrixShader := m_matrixShader o; m_displayShader :=
     m_displayShader o; m_audioData := m_audioData o; m_magnitudeBuffer :=
     m_magnitudeBuffer o; m_pcm := m_pcm o |}.
Definition set_m_bitsPrecision (v : Z) (o : CVisualizationMatrix) :
     CVisualizationMatrix :=
  {| m_initialized := m_initialized o; m_settingsUseOwnshader :=
     m_settingsUseOwnshader o; m_currentPreset := m_currentPreset o;
     m_bitsPrecision := v; m_needsUpload := m_needsUpload o; m_samplesPerSec
     := m_samplesPerSec o; m_usedShaderFile := m_usedShaderFile o;
     m_shaderTextures := m_shaderTextures o; m_channelTextures :=
     m_channelTextures o; m_state := m_state o; m_initialTime :=
     m_initialTime o; m_matrixShader := m_matrixShader o; m_displayShader :=
     m_displayShader o; m_audioData := m_audioData o; m_magnitudeBuffer :=
     m_magnitudeBuffer o; m_pcm := m_pcm o |}.
Definition set_m_needsUpload (v : bool) (o : CVisualizationMatrix) :
     CVisualizationMatrix :=
  {| m_initialized := m_initialized o; m_settingsUseOwnshader :=
     m_settingsUseOwnshader o; m_currentPreset := m_currentPreset o;
     m_bitsPrecision := m_bitsPrecision o; m_needsUpload := v;
     m_samplesPerSec := m_samplesPerSec o; m_usedShaderFile :=
     m_usedShaderFile o; m_shaderTextures := m_shaderTextures o;
     m_channelTextures := m_channelTextures o; m_state := m_state o;
     m_initialTime := m_initialTime o; m_matrixShader := m_matrixShader o;
     m_displayShader := m_displayShader o; m_audioData := m_audioData o;
     m_magnitudeBuffer := m_magnitudeBuffer o; m_pcm := m_pcm o |}.
Definition set_m_samplesPerSec (v : Z) (o : CVisualizationMatrix) :
     CVisualizationMatrix :=
  {| m_initialized := m_initialized o; m_settingsUseOwnshader :=
     m_settingsUseOwnshader o; m_currentPreset := m_currentPreset o;
     m_bitsPrecision := m_bitsPrecision o; m_needsUpload := m_needsUpload o;
     m_samplesPerSec := v; m_usedShaderFile := m_usedShaderFile o;
     m_shaderTextures := m_shaderTextures o; m_channelTextures :=
     m_channelTextures o; m_state := m_state o; m_initialTime :=
     m_initialTime o; m_matrixShader := m_matrixShader o; m_displayShader :=
     m_displayShader o; m_audioData := m_audioData o; m_magnitudeBuffer :=
     m_magnitudeBuffer o; m_pcm := m_pcm o |}.
Definition set_m_usedShaderFile (v : string) (o : CVisualizationMatrix)
     : CVisualizationMatrix :=
  {| m_initialized := m_initialized o; m_settingsUseOwnshader :=
     m_settingsUseOwnshader o; m_currentPreset := m_currentPreset o;
     m_bitsPrecision := m_bitsPrecision o; m_needsUpload := m_needsUpload o;
     m_samplesPerSec := m_samplesPerSec o; m_usedShaderFile := v;
     m_shaderTextures := m_shaderTextures o; m_channelTextures :=
     m_channelTextures o; m_state := m_state o; m_initialTime :=
     m_initialTime o; m_matrixShader := m_matrixShader o; m_displayShader :=
     m_displayShader o; m_audioData := m_audioData o; m_magnitudeBuffer :=
     m_magnitudeBuffer o; m_pcm := m_pcm o |}.
Definition set_m_shaderTextures (v : nat -> ShaderTexture) (o :
     CVisualizationMatrix) : CVisualizationMatrix :=
  {| m_initialized := m_initialized o; m_settingsUseOwnshader :=
     m_settingsUseOwnshader o; m_currentPreset := m_currentPreset o;
     m_bitsPrecision := m_bitsPrecision o; m_needsUpload := m_needsUpload o;
     m_samplesPerSec := m_samplesPerSec o; m_usedShaderFile :=
     m_usedShaderFile o; m_shaderTextures := v; m_channelTextures :=
     m_channelTextures o; m_state := m_state o; m_initialTime :=
     m_initialTime o; m_matrixShader := m_matrixShader o; m_displayShader :=
     m_displayShader o; m_audioData := m_audioData o; m_magnitudeBuffer :=
     m_magnitudeBuffer o; m_pcm := m_pcm o |}.
Definition set_m_channelTextures (v : nat -> GLuint) (o :
     CVisualizationMatrix) : CVisualizationMatrix :=
  {| m_initialized := m_initialized o; m_settingsUseOwnshader :=
     m_settingsUseOwnshader o; m_currentPreset := m_currentPreset o;
     m_bitsPrecision := m_bitsPrecision o; m_needsUpload := m_needsUpload o;
     m_samplesPerSec := m_samplesPerSec o; m_usedShaderFile :=
     m_usedShaderFile o; m_shaderTextures := m_shaderTextures o;
     m_channelTextures := v; m_state := m_state o; m_initialTime :=
     m_initialTime o; m_matrixShader := m_matrixShader o; m_displayShader :=
     m_displayShader o; m_audioData := m_audioData o; m_magnitudeBuffer :=
     m_magnitudeBuffer o; m_pcm := m_pcm o |}.
Definition set_m_state (v : State) (o : CVisualizationMatrix) :
     CVisualizationMatrix :=
  {| m_initialized := m_initialized o; m_settingsUseOwnshader :=
     m_settingsUseOwnshader o; m_currentPreset := m_currentPreset o;
     m_bitsPrecision := m_bitsPrecision o; m_needsUpload := m_needsUpload o;
     m_samplesPerSec := m_samplesPerSec o; m_usedShaderFile :=
     m_usedShaderFile o; m_shaderTextures := m_shaderTextures o;
     m_channelTextures := m_channelTextures o; m_state := v; m_initialTime :=
     m_initialTime o; m_matrixShader := m_matrixShader o; m_displayShader :=
     m_displayShader o; m_audioData := m_audioData o; m_magnitudeBuffer :=
     m_magnitudeBuffer o; m_pcm := m_pcm o |}.
Definition set_m_initialTime (v : Z) (o : CVisualizationMatrix) :
     CVisualizationMatrix :=
  {| m_initialized := m_initialized o; m_settingsUseOwnshader :=
     m_settingsUseOwnshader o; m_currentPreset := m_currentPreset o;
     m_bitsPrecision := m_bitsPrecision o; m_needsUpload := m_needsUpload o;
     m_samplesPerSec := m_samplesPerSec o; m_usedShaderFile :=
     m_usedShaderFile o; m_shaderTextures := m_shaderTextures o;
     m_channelTextures := m_channelTextures o; m_state := m_state o;
     m_initialTime := v; m_matrixShader := m_matrixShader o; m_displayShader
     := m_displayShader o; m_audioData := m_audioData o; m_magnitudeBuffer :=
     m_magnitudeBuffer o; m_pcm := m_pcm o |}.
Definition set_m_matrixShader (v : GLuint) (o : CVisualizationMatrix) :
     CVisualizationMatrix :=
  {| m_initialized := m_initialized o; m_settingsUseOwnshader :=
     m_settingsUseOwnshader o; m_currentPreset := m_currentPreset o;
     m_bitsPrecision := m_bitsPrecision o; m_needsUpload := m_needsUpload o;
     m_samplesPerSec := m_samplesPerSec o; m_usedShaderFile :=
     m_usedShaderFile o; m_shaderTextures := m_shaderTextures o;
     m_channelTextures := m_channelTextures o; m_state := m_state o;
     m_initialTime := m_initialTime o; m_matrixShader := v; m_displayShader
     := m_displayShader o; m_audioData := m_audioData o; m_magnitudeBuffer :=
     m_magnitudeBuffer o; m_pcm := m_pcm o |}.
Definition set_m_displayShader (v : GLuint) (o : CVisualizationMatrix) :
     CVisualizationMatrix :=
  {| m_initialized := m_initialized o; m_settingsUseOwnshader :=
     m_settingsUseOwnshader o; m_currentPreset := m_currentPreset o;
     m_bitsPrecision := m_bitsPrecision o; m_needsUpload := m_needsUpload o;
     m_samplesPerSec := m_samplesPerSec o; m_usedShaderFile :=
     m_usedShaderFile o; m_shaderTextures := m_shaderTextures o;
     m_channelTextures := m_channelTextures o; m_state := m_state o;
     m_initialTime := m_initialTime o; m_matrixShader := m_matrixShader o;
     m_displayShader := v; m_audioData := m_audioData o; m_magnitudeBuffer :=
     m_magnitudeBuffer o; m_pcm := m_pcm o |}.
Definition set_m_audioData (v : list Z) (o : CVisualizationMatrix) :
     CVisualizationMatrix :=
  {| m_initialized := m_initialized o; m_settingsUseOwnshader :=
     m_settingsUseOwnshader o; m_currentPreset := m_currentPreset o;
     m_bitsPrecision := m_bitsPrecision o; m_needsUpload := m_needsUpload o;
     m_samplesPerSec := m_samplesPerSec o; m_usedShaderFile :=
     m_usedShaderFile o; m_shaderTextures := m_shaderTextures o;
     m_channelTextures := m_channelTextures o; m_state := m_state o;
     m_initialTime := m_initialTime o; m_matrixShader := m_matrixShader o;
     m_displayShader := m_displayShader o; m_audioData := v;
     m_magnitudeBuffer := m_magnitudeBuffer o; m_pcm := m_pcm o |}.
Definition set_m_magnitudeBuffer (v : list float) (o :
     CVisualizationMatrix) : CVisualizationMatrix :=
  {| m_initialized := m_initialized o; m_settingsUseOwnshader :=
     m_settingsUseOwnshader o; m_currentPreset := m_currentPreset o;
     m_bitsPrecision := m_bitsPrecision o; m_needsUpload := m_needsUpload o;
     m_samplesPerSec := m_samplesPerSec o; m_usedShaderFile :=
     m_usedShaderFile o; m_shaderTextures := m_shaderTextures o;
     m_channelTextures := m_channelTextures o; m_state := m_state o;
     m_initialTime := m_initialTime o; m_matrixShader := m_matrixShader o;
     m_displayShader := m_displayShader o; m_audioData := m_audioData o;
     m_magnitudeBuffer := v; m_pcm := m_pcm o |}.
Definition set_m_pcm (v : list float) (o : CVisualizationMatrix) :
     CVisualizationMatrix :=
  {| m_initialized := m_initialized o; m_settingsUseOwnshader :=
     m_settingsUseOwnshader o; m_currentPreset := m_currentPreset o;
     m_bitsPrecision := m_bitsPrecision o; m_needsUpload := m_needsUpload o;
     m_samplesPerSec := m_samplesPerSec o; m_usedShaderFile :=
     m_usedShaderFile o; m_shaderTextures := m_shaderTextures o;
     m_channelTextures := m_channelTextures o; m_state := m_state o;
     m_initialTime := m_initialTime o; m_matrixShader := m_matrixShader o;
     m_displayShader := m_displayShader o; m_audioData := m_audioData o;
     m_magnitudeBuffer := m_magnitudeBuffer o; m_pcm := v |}.

Definition set_self (v : CVisualizationMatrix) (w : World) : World :=
  {| self := v; gl := gl w; ticks := ticks w; readbacks := readbacks w;
     rands := rands w; lastpresetidx := lastpresetidx w; trace := trace w |}.
Definition set_gl (v : GLState) (w : World) : World :=
  {| self := self w; gl := v; ticks := ticks w; readbacks := readbacks w;
     rands := rands w; lastpresetidx := lastpresetidx w; trace := trace w |}.
Definition set_ticks (v : nat) (w : World) : World :=
  {| self := self w; gl := gl w; ticks := v; readbacks := readbacks w;
     rands := rands w; lastpresetidx := lastpresetidx w; trace := trace w |}.
Definition set_readbacks (v : nat) (w : World) : World :=
  {| self := self w; gl := gl w; ticks := ticks w; readbacks := v; rands
     := rands w; lastpresetidx := lastpresetidx w; trace := trace w |}.
Definition set_rands (v : nat) (w : World) : World :=
  {| self := self w; gl := gl w; ticks := ticks w; readbacks := readbacks
     w; rands := v; lastpresetidx := lastpresetidx w; trace := trace w |}.
Definition set_lastpresetidx (v : Z) (w : World) : World :=
  {| self := self w; gl := gl w; ticks := ticks w; readbacks := readbacks
     w; rands := rands w; lastpresetidx := v; trace := trace w |}.
Definition set_trace (v : list Event) (w : World) : World :=
  {| self := self w; gl := gl w; ticks := ticks w; readbacks := readbacks
     w; rands := rands w; lastpresetidx := lastpresetidx w; trace := v |}.

(** *** Audio analysis *)

Record kiss_fft_cpx := Cpx { cpx_r : float; cpx_i : float }.

(** libm and kiss_fft are outside the repository. [kiss_fft input k] is
    output bin [k] of the forward transform of [AUDIO_BUFFER] points. *)
Variable cos : double -> double.
Variable log10f : float -> float.
Variable kiss_fft : list kiss_fft_cpx -> nat -> kiss_fft_cpx.

Definition SMOOTHING_TIME_CONSTANT : double := d_lit 5 10.
Definition MIN_DECIBELS : double := d_of_Z (-100).
Definition MAX_DECIBELS : double := d_of_Z (-30).
Definition M_PI : double :=
  d_lit 314159265358979323846 100000000000000000000.

(** [Mix], inner loop: [for (j = 0; j < channels; j++) v += source[i + j]];
    [base] is the index of [source[i]] in the buffer. *)
Fixpoint Mix_sum (src : list float) (base j n : nat) (v : float)
  : result float :=
  match n with
  | O => Ok v
  | S n' =>
      s ← load src (base + j);
      Mix_sum src base (S j) n' (f_add v s)
  end.

(** [Mix], outer loop:
    [for (unsigned int i = 0; i < length; i += channels)], with
    [destination[(i / 2)] = v / (float)channels]. The counter [i] is an
    [unsigned int] compared with the [size_t] [length], so [i += channels]
    wraps modulo [2^32]. [destination] and [source] point into the buffers
    [dst] and [src] at [doff] and [soff]. *)
Fixpoint Mix_loop (fuel : nat) (dst : list float) (doff : nat)
    (src : list float) (soff : nat) (length channels : nat) (i : Z)
  : result (list float) :=
  if i <? Z.of_nat length then
    match fuel with
    | O => Undefined Diverges
    | S fuel' =>
        v ← Mix_sum src (soff + Z.to_nat i) 0 channels (f_of_Z 0);
        dst' ← store dst (doff + Z.to_nat (i / 2))
                 (f_div v (f_of_Z (Z.of_nat channels)));
        Mix_loop fuel' dst' doff src soff length channels
          (wrap 32 (i + Z.of_nat channels))
    end
  else Ok dst.

(** While [length < 2^32] the counter does not wrap: every pass advances
    [i] by [channels >= 1], so [length] passes suffice.  From [2^32] on the
    counter stays below [length] and the loop of the source does not end:
    the fuel runs out. *)
Definition Mix (dst : list float) (doff : nat) (src : list float)
    (soff : nat) (frames channels : nat) : result (list float) :=
  let length := (frames * channels)%nat in
  Mix_loop length dst doff src soff length channels 0.

(** [memmove(m_pcm, m_pcm + frames, keep * sizeof(float))]. *)
Definition memmove_front (pcm : list float) (frames keep : nat)
  : result (list float) :=
  if decide (frames + keep <= length pcm)%nat
  then Ok (take keep (drop frames pcm) ++ drop keep pcm)
  else Undefined OutOfRange.

Definition WriteToBuffer (pcm : list float) (input : list float)
    (length channels : nat) : result (list float) :=
  if decide (channels = 0%nat) then Undefined DivByZero else
  let frames := Nat.div length channels in
  if (AUDIO_BUFFER <=? frames)%nat then
    let offset := (frames - AUDIO_BUFFER)%nat in
    Mix pcm 0 input offset AUDIO_BUFFER channels
  else
    let keep := (AUDIO_BUFFER - frames)%nat in
    pcm' ← memmove_front pcm frames keep;
    Mix pcm' keep input 0 frames channels.

Definition BlackmanWindow (x_in : float) (i length : nat) : float :=
  let alpha := d_lit 16 100 in
  let a0 := d_mul (d_lit 5 10) (d_sub (d_of_Z 1) alpha) in
  let a1 := d_lit 5 10 in
  let a2 := d_mul (d_lit 5 10) alpha in
  let x := f_to_d (f_div (f_of_Z (Z.of_nat i)) (f_of_Z (Z.of_nat length))) in
  d_to_f
    (d_mul (f_to_d x_in)
       (d_add
          (d_sub a0 (d_mul a1 (cos (d_mul (d_mul (d_of_Z 2) M_PI) x))))
          (d_mul a2 (cos (d_mul (d_mul (d_of_Z 4) M_PI) x))))).

(** [sqrt(c.r * c.r + c.i * c.i) / (float)fftSize], in [float]. *)
Definition magnitude (c : kiss_fft_cpx) (fftSize : nat) : float :=
  f_div (f_sqrt (f_add (f_mul (cpx_r c) (cpx_r c)) (f_mul (cpx_i c) (cpx_i c))))
        (f_of_Z (Z.of_nat fftSize)).

(** [smoothingTimeConstant * last + (1.0 - smoothingTimeConstant) * m]:
    the first product is a [float] product, the rest is computed in
    [double] and stored as a [float]. *)
Definition smooth (smoothingTimeConstant last m : float) : float :=
  d_to_f
    (d_add (f_to_d (f_mul smoothingTimeConstant last))
       (d_mul (d_sub (d_of_Z 1) (f_to_d smoothingTimeConstant)) (f_to_d m))).

(** [SmoothingOverTime]; its only call passes the same array as
    [outputBuffer] and [lastOutputBuffer], which [buffer] stands for. *)
Definition SmoothingOverTime (buffer : list float)
    (inputBuffer : list kiss_fft_cpx) (length : nat)
    (smoothingTimeConstant : float) (fftSize : nat) : result (list float) :=
  for_range 0 length (fun i buf =>
    c ← load inputBuffer i;
    last ← load buf i;
    store buf i (smooth smoothingTimeConstant last (magnitude c fftSize)))
  buffer.

Definition LinearToDecibels (linear : float) : float :=
  if f_is_zero linear then f_of_Z (-1000)
  else f_mul (f_of_Z 20) (log10f linear).


Definition rangeScaleFactor : double :=
  if d_eqb MAX_DECIBELS MIN_DECIBELS then d_of_Z 1
  else d_div (d_of_Z 1) (d_sub MAX_DECIBELS MIN_DECIBELS).

(** [UCHAR_MAX * (dbMag - MIN_DECIBELS) * rangeScaleFactor]. *)
Definition scaledValue (dbMag : double) : double :=
  d_mul (d_mul (d_of_Z UCHAR_MAX) (d_sub dbMag MIN_DECIBELS)) rangeScaleFactor.

(** The body of the first output loop of [AudioData], for one bin. *)
Definition spectrum_byte (linearValue : float) : result Z :=
  let dbMag :=
    if f_is_zero linearValue then MIN_DECIBELS
    else f_to_d (LinearToDecibels linearValue) in
  v ← cast (d_to_int (scaledValue dbMag));
  Ok (clamp_byte v).

(** The body of the second output loop: [(m_pcm[i] + 1.0f) * 128.0f]. *)
Definition waveform_byte (sample : float) : result Z :=
  v ← cast (f_to_int (f_mul (f_add sample (f_of_Z 1)) (f_of_Z 128)));
  Ok (clamp_byte v).

(** The windowed input of the transform: [in[i].r], [in[i].i = 0]. *)
Definition fft_input (pcm : list float) : result (list kiss_fft_cpx) :=
  for_range 0 AUDIO_BUFFER (fun i acc =>
    x ← load pcm i;
    Ok (acc ++ [Cpx (BlackmanWindow x i AUDIO_BUFFER) (f_of_Z 0)]))
  [].

(** [kiss_fft(m_kissCfg, in, out); out[0].i = 0;] *)
Definition fft_output (input : list kiss_fft_cpx) : result (list kiss_fft_cpx) :=
  let out := map (kiss_fft input) (seq 0 AUDIO_BUFFER) in
  c ← load out 0;
  store out 0 (Cpx (cpx_r c) (f_of_Z 0)).

(** The bins [SmoothingOverTime] reads: the output of the transform with
    the imaginary part of bin 0 set to zero. *)
Definition bin (input : list kiss_fft_cpx) (k : nat) : kiss_fft_cpx :=
  match k with
  | O => Cpx (cpx_r (kiss_fft input 0)) (f_of_Z 0)
  | S _ => kiss_fft input k
  end.

(** The host: here for the width of [size_t]. *)
Variable host : Host.

(** [AudioData]; [WriteToBuffer(pAudioData, iAudioDataLength, 2)] converts
    the [int] length to [size_t]. *)
Definition AudioData (pAudioData : list float) (iAudioDataLength : Z)
    (o : CVisualizationMatrix) : result CVisualizationMatrix :=
  pcm ← WriteToBuffer (m_pcm o) pAudioData
          (Z.to_nat (to_size_t (SIZE_BITS host) iAudioDataLength)) 2;
  input ← fft_input pcm;
  out ← fft_output input;
  mag ← SmoothingOverTime (m_magnitudeBuffer o) out NUM_BANDS
          (d_to_f SMOOTHING_TIME_CONSTANT) AUDIO_BUFFER;
  data ← for_range 0 NUM_BANDS (fun i data =>
            linearValue ← load mag i;
            b ← spectrum_byte linearValue;
            store data i b)
          (m_audioData o);
  data ← for_range 0 NUM_BANDS (fun i data =>
            x ← load pcm i;
            b ← waveform_byte x;
            store data (i + NUM_BANDS) b)
          data;
  Ok (set_m_needsUpload true
        (set_m_audioData data (set_m_magnitudeBuffer mag (set_m_pcm pcm o)))).


(** *** OpenGL calls *)

Definition on_gl (f : GLState -> GLState) (w : World) : World :=
  set_gl (f (gl w)) w.

Definition on_self (f : CVisualizationMatrix -> CVisualizationMatrix)
    (w : World) : World :=
  set_self (f (self w)) w.

Definition on_state (f : State -> State) (w : World) : World :=
  on_self (fun o => set_m_state (f (m_state o)) o) w.

Definition glActiveTexture (unit : nat) : World -> World :=
  on_gl (set_gl_active unit).

Definition glBindTexture (h : GLuint) : World -> World :=
  on_gl (fun g => set_gl_bound (<[gl_active g := h]> (gl_bound g)) g).

(** [glTexImage2D] stores into the texture bound to the active unit. *)
Definition glTexImage2D (img : TexImage) : World -> World :=
  on_gl (fun g =>
    set_gl_image (<[gl_bound g (gl_active g) := img]> (gl_image g)) g).

Definition glGenTextures (w : World) : GLuint * World :=
  let h := glGen host (gl_textures (gl w)) in
  (h, on_gl (fun g => set_gl_textures (h :: gl_textures g) g) w).

(** A deleted texture leaves the units it was bound to. *)
Definition glDeleteTextures (h : GLuint) : World -> World :=
  on_gl (fun g =>
    set_gl_textures (filter (fun x => x ≠ h) (gl_textures g))
      (set_gl_bound
         (fun unit => if decide (gl_bound g unit = h) then 0 else gl_bound g unit)
         g)).

Definition glGenFramebuffers (w : World) : GLuint * World :=
  let h := glGen host (gl_framebuffers (gl w)) in
  (h, on_gl (fun g => set_gl_framebuffers (h :: gl_framebuffers g) g) w).

Definition glDeleteFramebuffers (h : GLuint) : World -> World :=
  on_gl (fun g =>
    set_gl_framebuffers (filter (fun x => x ≠ h) (gl_framebuffers g)) g).

Definition emit (e : Event) (w : World) : World :=
  set_trace (e :: trace w) w.

(** [std::chrono::high_resolution_clock::now()], in milliseconds. *)
Definition now (w : World) : Z * World :=
  (clock host (ticks w), set_ticks (S (ticks w)) w).

(** *** Textures *)

(** [CreateTexture(GLint format, unsigned w, unsigned h, const GLvoid* data)],
    called with [m_audioData]. *)
Definition CreateTexture_data (data : list Z) (w : World) : GLuint * World :=
  let w := glActiveTexture 0 w in
  let '(texture, w) := glGenTextures w in
  let w := glBindTexture texture w in
  (texture, glTexImage2D (ImgAudio data) w).

(** [CreateTexture(const GLvoid* data, GLint format, w, h, internalFormat,
    scaling, repeat)], called with the decoded image of [path]. *)
Definition CreateTexture_image (path : string) (w : World) : GLuint * World :=
  let '(texture, w) := glGenTextures w in
  let w := glBindTexture texture w in
  let w := glTexImage2D (ImgFile path) w in
  (texture, glBindTexture 0 w).

(** [CreateTexture(const std::string& file, internalFormat, scaling, repeat)]. *)
Definition CreateTexture_file (path : string) (w : World) : GLuint * World :=
  if stbi_load host path then CreateTexture_image path w
  else (0, w).

Definition set_channel (i : nat) (h : GLuint) : World -> World :=
  on_self (fun o => set_m_channelTextures (<[i := h]> (m_channelTextures o)) o).

Definition UnloadTextures (w : World) : World :=
  foldl (fun w i =>
           let h := m_channelTextures (self w) i in
           if decide (h ≠ 0) then set_channel i 0 (glDeleteTextures h w) else w)
        w (seq 0 4).

Definition UnloadPreset (w : World) : World :=
  let t := framebuffer_texture (m_state (self w)) in
  let w :=
    if decide (t ≠ 0)
    then on_state (set_framebuffer_texture 0) (glDeleteTextures t w) else w in
  let f := effect_fb (m_state (self w)) in
  if decide (f ≠ 0)
  then on_state (set_effect_fb 0) (glDeleteFramebuffers f w) else w.


(** *** Shader pipeline *)

(** [LoadPreset(const std::string& shaderPath)]. Uniform and attribute
    locations are not modelled. *)
Definition LoadPreset_shader (shaderPath : string) (w : World) : World :=
  let w := UnloadPreset w in
  let '(ok, program) := build_matrix host shaderPath (m_matrixShader (self w)) in
  let w := on_self (set_m_matrixShader program) w in
  if negb ok then w else
  let '(ok, program) := build_display host (m_displayShader (self w)) in
  let w := on_self (set_m_displayShader program) w in
  if negb ok then w else
  let w := glActiveTexture 0 w in
  let '(t, w) := glGenTextures w in
  let w := on_state (set_framebuffer_texture t) w in
  let w := glBindTexture t w in
  let st := m_state (self w) in
  let w := glTexImage2D (ImgTarget (fbwidth st) (fbheight st)) w in
  let '(f, w) := glGenFramebuffers w in
  let w := on_state (set_effect_fb f) w in
  let '(t0, w) := now w in
  on_self (set_m_initialTime t0) w.

(** [intt &= (1<<m_bitsPrecision)-1] on the [int64_t] elapsed time. *)
Definition wrap_time (bitsPrecision intt : Z) : result Z :=
  if decide (bitsPrecision ≠ 0) then
    p ← shl_one bitsPrecision;
    Ok (Z.land intt (p - 1))
  else Ok intt.

(** The upload loop of [RenderTo]. *)
Definition upload_audio (w : World) : World :=
  foldl (fun w i =>
           if audio (m_shaderTextures (self w) i) then
             let w := glActiveTexture i w in
             let w := glBindTexture (m_channelTextures (self w) i) w in
             glTexImage2D (ImgAudio (m_audioData (self w))) w
           else w)
        w (seq 0 4).

Definition bind_channels (w : World) : World :=
  foldl (fun w i =>
           glBindTexture (m_channelTextures (self w) i) (glActiveTexture i w))
        w (seq 0 4).

Definition unbind_units (w : World) : World :=
  foldl (fun w i => glBindTexture 0 (glActiveTexture i w)) w (seq 0 4).

(** [RenderTo], effect program, after the elapsed time [intt] has been
    computed: the upload of the analysis buffer, the time uniform, the
    channel bindings. *)
Definition RenderTo_effect (intt : Z) (w : World) : World :=
  let w :=
    if m_needsUpload (self w)
    then on_self (set_m_needsUpload false) (upload_audio w) else w in
  let t := f_div (f_of_Z intt) (f_of_Z 1000) in
  bind_channels (emit (GlobalTime t) w).

(** [RenderTo(GLuint shader, GLuint effect_fb)]. The draw itself, into the
    framebuffer [effect_fb], leaves no state that is modelled. *)
Definition RenderTo (shader effect_fb : GLuint) (w : World) : result World :=
  w ← (if decide (shader = m_matrixShader (self w)) then
         let '(t1, w) := now w in
         intt ← wrap_time (m_bitsPrecision (self w))
                  (t1 - m_initialTime (self w));
         Ok (RenderTo_effect intt w)
       else
         Ok (glBindTexture (framebuffer_texture (m_state (self w)))
               (glActiveTexture 0 w)));
  Ok (unbind_units w).

Definition Render (w : World) : result World :=
  if m_initialized (self w) then
    let w := emit Frame w in
    let st := m_state (self w) in
    if decide (fbwidth st ≠ 0 ∧ fbheight st ≠ 0) then
      w ← RenderTo (m_matrixShader (self w)) (effect_fb st) w;
      RenderTo (m_displayShader (self w)) 0 w
    else RenderTo (m_matrixShader (self w)) 0 w
  else Ok w.

(** The counting loop of [DetermineBitsPrecision] over the bytes read
    back: [(bits, b)] after row [j]. *)
Definition count_row (buffer : nat -> Z) (fbwidth : Z) (j : nat)
    (acc : Z * Z) : Z * Z :=
  let '(bits, b) := acc in
  let c := buffer (Z.to_nat (4 * (Z.of_nat j * fbwidth + Z.shiftr fbwidth 1))) in
  (if decide (c ≠ 0 ∧ b = 0) then bits + 1 else bits, c).

(** [DetermineBitsPrecision]: draws the test shader into a frame buffer of
    32 by 260 pixels, reads it back and counts the rising edges of the
    middle column.  The source releases the array it allocated with
    [new[]] by [delete buffer]; the C++ standard leaves this mismatch
    undefined.  The model has no step for it: it follows the allocators,
    which free the array of [unsigned char]. *)
Definition DetermineBitsPrecision (w : World) : result (Z * World) :=
  let w := emit Probe w in
  let w := on_state (fun s => set_fbheight (26 * 10) (set_fbwidth 32 s)) w in
  let w := LoadPreset_shader
             (GetAddonPath host "resources/shaders/main_test.frag.glsl") w in
  w ← RenderTo (m_matrixShader (self w)) (effect_fb (m_state (self w))) w;
  let buffer := glReadPixels host (readbacks w) in
  let w := set_readbacks (S (readbacks w)) w in
  let st := m_state (self w) in
  let '(bits, _) :=
    foldl (fun acc j => count_row buffer (fbwidth st) j acc) (0, 0)
          (seq 0 (Z.to_nat (fbheight st))) in
  Ok (bits, UnloadPreset w).


(** *** Preset controller *)

Definition set_shaderTexture (i : nat) (t : ShaderTexture) : World -> World :=
  on_self (fun o => set_m_shaderTextures (<[i := t]> (m_shaderTextures o)) o).

(** The user's shader set, read from the settings ([preset < 0]). *)
Definition user_channel (i : nat) (n : string) (w : World) : World :=
  set_shaderTexture i
    {| audio := GetSettingBoolean host ("texture" +:+ n +:+ "-sound");
       texture := GetSettingString host ("texture" +:+ n) |} w.

(** One pass of the loop of [Launch] over the channels of a catalog
    entry. *)
Definition catalog_channel (p : Preset) (i : nat) (w : World) : result World :=
  c ← load (channel p) i;
  let old := m_shaderTextures (self w) i in
  if (0 <=? c) && (c <? Z.of_nat (length g_fileTextures)) then
    f ← load g_fileTextures (Z.to_nat c);
    Ok (set_shaderTexture i
          {| audio := audio old;
             texture := GetAddonPath host ("resources/" +:+ f) |} w)
  else if decide (c = 99) then
    Ok (set_shaderTexture i {| audio := true; texture := texture old |} w)
  else
    Ok (set_shaderTexture i {| audio := false; texture := "" |} w).

(** [if (!m_shaderTextures[i].texture.empty()) m_channelTextures[i] =
    CreateTexture(m_shaderTextures[i].texture, ...)]. *)
Definition load_channel (i : nat) (w : World) : World :=
  let path := texture (m_shaderTextures (self w) i) in
  if decide (path = "") then w
  else let '(h, w) := CreateTexture_file path w in set_channel i h w.

(** [Launch], the branch on [preset] that fills [m_shaderTextures]. *)
Definition Launch_channels (preset : Z) (w : World) : result World :=
  if preset <? 0 then
    let w := on_self (set_m_usedShaderFile (GetSettingString host "shader")) w in
    Ok (user_channel 3 "3" (user_channel 2 "2"
          (user_channel 1 "1" (user_channel 0 "0" w))))
  else
    p ← load g_presets (Z.to_nat preset);
    let w := on_self (set_m_usedShaderFile
                 (GetAddonPath host ("resources/shaders/" +:+ file p))) w in
    for_range 0 4 (catalog_channel p) w.

(** [Launch], the creation of the four channel textures. *)
Definition Launch_textures (w : World) : World :=
  let '(h, w) := CreateTexture_data (m_audioData (self w)) w in
  let w := set_channel 0 h w in
  let w := load_channel 1 w in
  let w := load_channel 2 w in
  load_channel 3 w.

Definition Launch (preset : Z) (w : World) : result World :=
  '(bits, w) ← DetermineBitsPrecision w;
  let w := on_self (set_m_bitsPrecision (Z.max bits 13)) w in
  let w := UnloadTextures w in
  w ← Launch_channels preset w;
  let w := Launch_textures w in
  let w := on_state (fun s => set_fbheight (Height host)
                                (set_fbwidth (Width host) s)) w in
  Ok (LoadPreset_shader (m_usedShaderFile (self w)) w).

(** [Start]; the vertex buffer it uploads is not modelled. *)
Definition Start (iSamplesPerSec : Z) (w : World) : result World :=
  let w := on_self (set_m_samplesPerSec iSamplesPerSec) w in
  w ← Launch (m_currentPreset (self w)) w;
  Ok (on_self (set_m_initialized true) w).

Definition Stop (w : World) : World :=
  UnloadTextures (UnloadPreset (on_self (set_m_initialized false) w)).

(** [m_currentPreset = index; Launch(m_currentPreset);
    kodi::SetSettingInt("lastpresetidx", m_currentPreset);] *)
Definition switch_to (index : Z) (w : World) : result World :=
  let w := on_self (set_m_currentPreset index) w in
  w ← Launch (m_currentPreset (self w)) w;
  Ok (set_lastpresetidx (m_currentPreset (self w)) w).

(** [x % g_presets.size()] for an [int] [x], stored in an [int]: [x] is
    converted to [size_t] first. *)
Definition mod_presets (x : Z) : Z :=
  to_int32 (to_size_t (SIZE_BITS host) x mod Z.of_nat (length g_presets)).

Definition NextPreset (w : World) : result World :=
  if m_settingsUseOwnshader (self w) then Ok w
  else switch_to (mod_presets (to_int32 (m_currentPreset (self w) + 1))) w.

Definition PrevPreset (w : World) : result World :=
  if m_settingsUseOwnshader (self w) then Ok w
  else switch_to (mod_presets (to_int32 (m_currentPreset (self w) - 1))) w.

Definition LoadPreset (select : Z) (w : World) : result World :=
  if m_settingsUseOwnshader (self w) then Ok w
  else switch_to (mod_presets select) w.

(** [(int)((std::rand() / (float)RAND_MAX) * g_presets.size())]. *)
Definition RandomPreset (w : World) : result World :=
  if m_settingsUseOwnshader (self w) then Ok w
  else
    let r := rand host (rands w) in
    let w := set_rands (S (rands w)) w in
    index ← cast (f_to_int
               (f_mul (f_div (f_of_Z r) (f_of_Z (RAND_MAX host)))
                      (f_of_Z (Z.of_nat (length g_presets)))));
    switch_to index w.

Definition GetActivePreset (w : World) : Z := m_currentPreset (self w).

(** [GetPresets]: [for (auto preset : g_presets)
    presets.push_back(preset.name)], unless a custom shader set is
    configured. *)
Definition GetPresets (presets : list string) (w : World) : list string :=
  if m_settingsUseOwnshader (self w) then presets
  else foldl (fun acc preset => acc ++ [name preset]) presets g_presets.

(** [thumb.c_str()[0]] as a string: the terminating NUL when [thumb] is
    empty. *)
Definition first_char (thumb : string) : string :=
  match thumb with
  | EmptyString => String Ascii.zero EmptyString
  | String c _ => String c EmptyString
  end.

(** The path [special] that [UpdateAlbumart] builds for a thumbnail. *)
Definition thumbnail_path (albumart : string) : string :=
  let thumb := String.substring 0 8 (GetCacheThumbName host albumart) in
  "special://thumbnails/" +:+ first_char thumb +:+ "/" +:+ thumb.

Definition UpdateAlbumart (albumart : string) (w : World) : bool * World :=
  let special := thumbnail_path albumart in
  let w :=
    if FileExists host (special +:+ ".png") then
      let '(h, w) := CreateTexture_file
                       (TranslateSpecialProtocol host (special +:+ ".png")) w in
      set_channel 3 h w
    else if FileExists host (special +:+ ".jpg") then
      let '(h, w) := CreateTexture_file
                       (TranslateSpecialProtocol host (special +:+ ".jpg")) w in
      set_channel 3 h w
    else w in
  (negb (bool_decide (m_channelTextures (self w) 3 = 0)), w).


(** The constructor, from the default member initialisers of [main.h]
    (not in the repository), which [header] stands for: the three buffers
    are value-initialised, the preset comes from the settings. *)
Definition constructor (header : CVisualizationMatrix) : CVisualizationMatrix :=
  let own := GetSettingBoolean host "ownshader" in
  {| m_initialized := m_initialized header;
     m_settingsUseOwnshader := own;
     m_currentPreset := if own then -1 else GetSettingInt host "lastpresetidx";
     m_bitsPrecision := m_bitsPrecision header;
     m_needsUpload := m_needsUpload header;
     m_samplesPerSec := m_samplesPerSec header;
     m_usedShaderFile := m_usedShaderFile header;
     m_shaderTextures := m_shaderTextures header;
     m_channelTextures := m_channelTextures header;
     m_state := m_state header;
     m_initialTime := m_initialTime header;
     m_matrixShader := m_matrixShader header;
     m_displayShader := m_displayShader header;
     m_audioData := replicate AUDIO_BUFFER 0;
     m_magnitudeBuffer := replicate NUM_BANDS (f_of_Z 0);
     m_pcm := replicate AUDIO_BUFFER (f_of_Z 0) |}.

(** *** The calls of the host *)

Inductive Op :=
  | OpStart (iSamplesPerSec : Z)
  | OpStop
  | OpRender
  | OpAudioData (pAudioData : list float) (iAudioDataLength : Z)
  | OpNextPreset
  | OpPrevPreset
  | OpLoadPreset (select : Z)
  | OpRandomPreset
  | OpUpdateAlbumart (albumart : string).

Definition step (op : Op) (w : World) : result World :=
  match op with
  | OpStart rate => Start rate w
  | OpStop => Ok (Stop w)
  | OpRender => Render w
  | OpAudioData samples n =>
      o ← AudioData samples n (self w); Ok (set_self o w)
  | OpNextPreset => NextPreset w
  | OpPrevPreset => PrevPreset w
  | OpLoadPreset select => LoadPreset select w
  | OpRandomPreset => RandomPreset w
  | OpUpdateAlbumart albumart => Ok (snd (UpdateAlbumart albumart w))
  end.

Fixpoint run (ops : list Op) (w : World) : result World :=
  match ops with
  | [] => Ok w
  | op :: ops' => w' ← step op w; run ops' w'
  end.

(** An operation that reaches [Launch]. *)
Definition launches (own : bool) (op : Op) : bool :=
  match op with
  | OpStart _ => true
  | OpNextPreset | OpPrevPreset | OpLoadPreset _ | OpRandomPreset => negb own
  | _ => false
  end.


(** [Launch_channels] writes the shader file and the channel descriptors
    only. *)
Definition descriptors_set (w w' : World) : Prop :=
  exists f path,
    w' = on_self (fun o => set_m_shaderTextures f (set_m_usedShaderFile path o)) w.

Definition is_probe (e : Event) : bool :=
  match e with Probe => true | _ => false end.

Definition is_frame (e : Event) : bool :=
  match e with Frame => true | _ => false end.

(** Every [Frame] of a trace has a [Probe] before it (the trace lists the
    most recent event first). *)
Fixpoint probe_first (tr : list Event) : Prop :=
  match tr with
  | [] => True
  | Frame :: older => existsb is_probe older = true /\ probe_first older
  | _ :: older => probe_first older
  end.

(** An event other than [Probe] and [Frame]. *)
Definition is_uniform (e : Event) : bool :=
  match e with GlobalTime _ => true | _ => false end.

(** What the helpers of [Launch] and [Render] leave alone. *)
Definition fields_kept (w w' : World) : Prop :=
  m_initialized (self w') = m_initialized (self w) /\
  m_settingsUseOwnshader (self w') = m_settingsUseOwnshader (self w) /\
  m_currentPreset (self w') = m_currentPreset (self w) /\
  m_bitsPrecision (self w') = m_bitsPrecision (self w) /\
  m_shaderTextures (self w') = m_shaderTextures (self w) /\
  m_audioData (self w') = m_audioData (self w) /\
  lastpresetidx w' = lastpresetidx w.

(** The texture of channel 0 is a texture object in use that holds the
    analysis buffer [d], and no other channel shares it. *)
Definition audio_slot_ok (d : list Z) (w : World) : Prop :=
  let h0 := m_channelTextures (self w) 0 in
  h0 <> 0 /\
  h0 ∈ gl_textures (gl w) /\
  gl_image (gl w) h0 = ImgAudio d /\
  forall j, (1 <= j < 4)%nat ->
    m_channelTextures (self w) j = 0 \/
    (m_channelTextures (self w) j <> h0 /\
     m_channelTextures (self w) j ∈ gl_textures (gl w)).

(** Every frame drawn so far came after a probe, and so will the next. *)
Definition probed (w : World) : Prop :=
  probe_first (trace w) /\
  (m_initialized (self w) = true -> existsb is_probe (trace w) = true).

Definition probes (w : World) : nat :=
  length (List.filter is_probe (trace w)).

Definition frames (w : World) : nat :=
  length (List.filter is_frame (trace w)).

(** What the texture, shader and render helpers leave alone besides
    [fields_kept]: the shader file, the sample rate, the size of the
    offscreen framebuffer, the ring and the magnitudes, the random numbers
    drawn. *)
Definition settings_kept (w w' : World) : Prop :=
  m_usedShaderFile (self w') = m_usedShaderFile (self w) /\
  m_samplesPerSec (self w') = m_samplesPerSec (self w) /\
  fbwidth (m_state (self w')) = fbwidth (m_state (self w)) /\
  fbheight (m_state (self w')) = fbheight (m_state (self w)) /\
  m_pcm (self w') = m_pcm (self w) /\
  m_magnitudeBuffer (self w') = m_magnitudeBuffer (self w) /\
  rands w' = rands w.

(** What [Mix] stores for a frame of the two samples [a] and [b]:
    [v = 0.0f; v += a; v += b; v / (float)2]. *)
Definition mean_of_two (a b : float) : float :=
  f_div (f_add (f_add (f_of_Z 0) a) b) (f_of_Z 2).

(** The three buffers have the sizes the constructor allocates. *)
Definition buffers_sized (o : CVisualizationMatrix) : Prop :=
  length (m_pcm o) = AUDIO_BUFFER /\
  length (m_magnitudeBuffer o) = NUM_BANDS /\
  length (m_audioData o) = AUDIO_BUFFER.

(** An [AudioData] call whose length argument, an [int], is not negative
    and does not exceed the samples passed. *)
Definition chunk_in_bounds (op : Op) : Prop :=
  match op with
  | OpAudioData pAudioData iAudioDataLength =>
      0 <= iAudioDataLength <= Z.of_nat (length pAudioData)
  | _ => False
  end.

(** The calls that navigate the presets. *)
Definition navigates (op : Op) : Prop :=
  match op with
  | OpNextPreset | OpPrevPreset | OpLoadPreset _ | OpRandomPreset => True
  | _ => False
  end.

(** What a call adds to the trace: uniform updates on top of at most one
    [Probe] or [Frame]. *)
Inductive added (own : bool) (op : Op) (w w' : World) : Prop :=
  | added_probe ev :
      launches own op = true ->
      trace w' = ev ++ Probe :: trace w ->
      forallb is_uniform ev = true ->
      added own op w w'
  | added_frame ev :
      launches own op = false ->
      m_initialized (self w) = true ->
      m_initialized (self w') = true ->
      trace w' = ev ++ Frame :: trace w ->
      forallb is_uniform ev = true ->
      added own op w w'
  | added_nothing :
      launches own op = false ->
      (m_initialized (self w') = true -> m_initialized (self w) = true) ->
      trace w' = trace w ->
      added own op w w'.

End Visualization.

(** ** Reading IEEE values *)

Module IEEESpec.

(** [v] is the finite value [x] rounded toward zero. *)
Definition truncates (x : spec_float) (v : Z) : Prop :=
  match x with
  | S754_zero _ => v = 0
  | S754_finite s m e =>
      exists t, v = cond_Zopp s t /\ 0 <= t /\
        if 0 <=? e then t = Zpos m * 2 ^ e
        else t * 2 ^ (- e) <= Zpos m < (t + 1) * 2 ^ (- e)
  | _ => False
  end.

(** The finite value [x] rounded to the nearest integer (halves away from
    zero): [floor(|x| + 1/2)] with the sign of [x]. *)
Definition round_nearest (x : spec_float) : option Z :=
  match x with
  | S754_zero _ => Some 0
  | S754_finite s m e =>
      Some (cond_Zopp s ((IEEE.unsigned_trunc (m~0) e + 1) / 2))
  | _ => None
  end.

(** The recipe of the specification for one spectrum byte, in the
    arithmetic of the code: the decibel value is clamped to
    [[MIN_DECIBELS, MAX_DECIBELS]], rescaled to [[0, 255]], rounded to the
    nearest integer and clamped to [[0, 255]]. *)
Definition claimed_spectrum_byte (log10f : spec_float -> spec_float)
    (linearValue : spec_float) : result Z :=
  let lo := @MIN_DECIBELS IEEE754 in
  let hi := @MAX_DECIBELS IEEE754 in
  let dB :=
    if IEEE.is_zero linearValue then lo
    else IEEE.convert 53 1024
           (SFmul 24 128 (IEEE.of_Z 24 128 20) (log10f linearValue)) in
  let clamped := if SFltb dB lo then lo else if SFltb hi dB then hi else dB in
  let scaled :=
    SFmul 53 1024 (SFmul 53 1024 (IEEE.of_Z 53 1024 255) (SFsub 53 1024 clamped lo))
      (SFdiv 53 1024 (IEEE.of_Z 53 1024 1) (SFsub 53 1024 hi lo)) in
  v ← cast (round_nearest scaled);
  Ok (clamp_byte v).

End IEEESpec.

(** ** Concrete inputs *)

Module Sample.

Definition F (z : Z) : spec_float := IEEE.of_Z 24 128 z.

(** The samples [0, 1, 2, ..., n - 1]. *)
Definition ramp (n : nat) : list spec_float :=
  map (fun k => F (Z.of_nat k)) (seq 0 n).

Definition silence (n : nat) : list spec_float := replicate n (F 0).

(** What [Mix] computes for a frame of two samples. *)
Definition mean2 (a b : spec_float) : spec_float :=
  SFdiv 24 128 (SFadd 24 128 (SFadd 24 128 (F 0) a) b) (F 2).

(** [1e-4f], the [float] nearest to 0.0001. *)
Definition tenth_of_a_thousandth : spec_float := SFdiv 24 128 (F 1) (F 10000).

(** A [log10f] that returns -4 (the correctly rounded logarithm of
    [1e-4f]). *)
Definition log10f_minus_four (x : spec_float) : spec_float := F (-4).

(** A monotone stand-in for [log10f], in two steps: -4 on the binary32
    numbers below [2^-3], -2 from there on. *)
Definition log10f_step (x : spec_float) : spec_float :=
  match x with
  | S754_finite false m e => if e <? -26 then F (-4) else F (-2)
  | S754_infinity false => x
  | _ => F (-4)
  end.

Definition cos_one (x : spec_float) : spec_float := IEEE.of_Z 53 1024 1.

(** A transform whose every bin is [3 + 4i]. *)
Definition fft_3_4i (input : list (@kiss_fft_cpx IEEE754)) (k : nat)
  : @kiss_fft_cpx IEEE754 :=
  @Cpx IEEE754 (F 3) (F 4).

Definition host : Host := {|
  SIZE_BITS := 64;
  GetSettingBoolean := fun _ => false;
  GetSettingInt := fun _ => 0;
  GetSettingString := fun _ => "";
  GetAddonPath := fun s => s;
  GetCacheThumbName := fun s => s;
  TranslateSpecialProtocol := fun s => s;
  FileExists := fun _ => false;
  stbi_load := fun _ => true;
  build_matrix := fun _ _ => (true, 1);
  build_display := fun _ => (true, 2);
  Width := 1920;
  Height := 1080;
  clock := fun k => 1000 * Z.of_nat k;
  glReadPixels := fun _ _ => 0;
  glGen := fun names => 1 + foldr Z.max 0 names;
  rand := fun _ => 0;
  RAND_MAX := 2147483647;
|}.

(** The object as constructed, with plain default members. *)
Definition object : @CVisualizationMatrix IEEE754 :=
  constructor host {|
    m_initialized := false;
    m_settingsUseOwnshader := false;
    m_currentPreset := 0;
    m_bitsPrecision := 0;
    m_needsUpload := false;
    m_samplesPerSec := 0;
    m_usedShaderFile := "";
    m_shaderTextures := fun _ => {| audio := false; texture := "" |};
    m_channelTextures := fun _ => 0;
    m_state := {| fbwidth := 0; fbheight := 0;
                  framebuffer_texture := 0; effect_fb := 0 |};
    m_initialTime := 0;
    m_matrixShader := 0;
    m_displayShader := 0;
    m_audioData := [];
    m_magnitudeBuffer := [];
    m_pcm := [];
  |}.

Definition world : @World IEEE754 := {|
  self := object;
  gl := {| gl_textures := []; gl_image := fun _ => ImgNone; gl_active := 0;
           gl_bound := fun _ => 0; gl_framebuffers := [] |};
  ticks := 0;
  readbacks := 0;
  rands := 0;
  lastpresetidx := 0;
  trace := [];
|}.


(** The host with other settings and another random number. *)
Definition host_with (ownshader : bool) (lastpresetidx : Z) (r : Z) : Host := {|
  SIZE_BITS := SIZE_BITS host;
  GetSettingBoolean := fun _ => ownshader;
  GetSettingInt := fun _ => lastpresetidx;
  GetSettingString := GetSettingString host;
  GetAddonPath := GetAddonPath host;
  GetCacheThumbName := GetCacheThumbName host;
  TranslateSpecialProtocol := TranslateSpecialProtocol host;
  FileExists := FileExists host;
  stbi_load := stbi_load host;
  build_matrix := build_matrix host;
  build_display := build_display host;
  Width := Width host;
  Height := Height host;
  clock := clock host;
  glReadPixels := glReadPixels host;
  glGen := glGen host;
  rand := fun _ => r;
  RAND_MAX := RAND_MAX host;
|}.



(** The world with the object constructed under the host [h]. *)
Definition world_of (h : Host) : @World IEEE754 :=
  set_self (constructor h object) world.

End Sample.

(** ** The order of the IEEE numbers *)

Module Round.

(** Rounding to nearest, ties to even, of [m / 2^n] to an integer. *)
Definition rne (m n : Z) : Z :=
  let q := m / 2 ^ n in
  match 2 * (m mod 2 ^ n) ?= 2 ^ n with
  | Lt => q
  | Eq => if Z.even q then q else q + 1
  | Gt => q + 1
  end.

(** The extended reals, in units of [2^emin] of a format. *)
Inductive xval := NegInf | Fin (z : Z) | PosInf.

Definition xle (a b : xval) : Prop :=
  match a, b with
  | NegInf, _ => True
  | _, PosInf => True
  | Fin x, Fin y => x <= y
  | _, _ => False
  end.

(** A function of the finite values, extended to the infinities. *)
Definition xlift (f : Z -> xval) (a : xval) : xval :=
  match a with
  | Fin z => f z
  | NegInf => NegInf
  | PosInf => PosInf
  end.

Section Format.
Variables prec emax : Z.

(** An exponent below that of every product of two numbers of the
    format: exact results are integers in units of [2^ebase]. *)
Definition ebase : Z := 2 * emin prec emax.

(** The number of the format nearest to [N * 2^ebase], ties to even, for
    [0 <= N], in units of [2^emin]. *)
Definition Rz (N : Z) : Z :=
  let E := fexp prec emax (Z.log2 N + 1 + ebase) in
  rne N (E - ebase) * 2 ^ (E - emin prec emax).

(** The rounded value of [N * 2^ebase], with overflow to the infinities. *)
Definition Rx (N : Z) : xval :=
  if 0 <=? N then
    if Rz N <? 2 ^ (emax - emin prec emax) then Fin (Rz N) else PosInf
  else
    if Rz (- N) <? 2 ^ (emax - emin prec emax) then Fin (- Rz (- N))
    else NegInf.

(** The value of a number of the format, in units of [2^emin]; a NaN has
    none. *)
Definition xv (x : spec_float) : option xval :=
  match x with
  | S754_zero _ => Some (Fin 0)
  | S754_infinity s => Some (if s then NegInf else PosInf)
  | S754_nan => None
  | S754_finite s m e =>
      if emin prec emax <=? e
      then Some (Fin (cond_Zopp s (Zpos m * 2 ^ (e - emin prec emax))))
      else None
  end.

(** [x <= y] by the values: neither is a NaN and the value of [x] is at
    most that of [y]. *)
Definition vle (x y : spec_float) : Prop :=
  match xv x, xv y with
  | Some a, Some b => xle a b
  | _, _ => False
  end.

End Format.

End Round.

Import Round.

(** [x < y] on binary32 numbers, by the comparison of IEEE 754. *)
Definition binary32_lt (x y : spec_float) : Prop :=
  valid_binary 24 128 x = true /\ valid_binary 24 128 y = true /\
  SFltb x y = true.

(** [x <= y] on binary32 numbers, by the comparison of IEEE 754. *)
Definition binary32_le (x y : spec_float) : Prop :=
  valid_binary 24 128 x = true /\ valid_binary 24 128 y = true /\
  SFleb x y = true.

(** [log10f] is monotone on the positive binary32 numbers: for
    [0 < x < y] its results are binary32 numbers with
    [log10f x <= log10f y]. *)
Definition monotone_log10f (log10f : spec_float -> spec_float) : Prop :=
  forall x y,
    binary32_lt (S754_zero false) x -> binary32_lt x y ->
    binary32_le (log10f x) (log10f y).

(** * Proofs *)

(** ** The error monad and the loops *)

Lemma bind_Ok {A B} (m : result A) (f : A -> result B) (b : B) :
  m ≫= f = Ok b -> exists a, m = Ok a /\ f a = Ok b.
Proof. destruct m as [a|u]; simpl; [eauto | discriminate]. Qed.


Lemma is_Ok_inv {A} (r : result A) : is_Ok r = true -> exists a, r = Ok a.
Proof. destruct r; [eauto | discriminate]. Defined.

Lemma Ok_inj {A} (a b : A) : Ok a = Ok b -> a = b.
Proof. intros H. by injection H. Qed.

Ltac inv_bind H :=
  let a := fresh "a" in
  let Ha := fresh "Ha" in
  apply bind_Ok in H; destruct H as (a & Ha & H).

Lemma load_Ok {A} (buf : list A) (i : nat) (x : A) :
  load buf i = Ok x <-> buf !! i = Some x.
Proof. unfold load. destruct (buf !! i); split; congruence. Qed.

Lemma store_Ok {A} (buf buf' : list A) (i : nat) (v : A) :
  store buf i v = Ok buf' -> (i < length buf)%nat /\ buf' = <[i:=v]> buf.
Proof. unfold store. case_decide; [intros [= <-]; auto | discriminate]. Qed.

(** A loop whose pass [i] stores at index [off + i] a value computed from
    what that index held: afterwards every index of the range holds its
    value and the others are untouched. *)
Lemma for_range_writes {B} (body : nat -> list B -> result (list B))
    (off : nat) (val : nat -> option B -> result B) :
  (forall i b, body i b = x ← val i (b !! (off + i)%nat); store b (off + i) x) ->
  forall n start buf buf',
    for_range start n body buf = Ok buf' ->
    length buf' = length buf /\
    (forall k, (start <= k < start + n)%nat ->
       exists x, val k (buf !! (off + k)%nat) = Ok x /\
                 buf' !! (off + k)%nat = Some x) /\
    (forall j, ~ (off + start <= j < off + start + n)%nat ->
       buf' !! j = buf !! j).
Proof.
  intros Hbody n. induction n as [|n IH]; intros start buf buf' H; simpl in H.
  - injection H as <-. split; [done | split]; [intros k Hk; lia | done].
  - inv_bind H. rewrite Hbody in Ha. inv_bind Ha.
    apply store_Ok in Ha as [Hlt ->].
    apply IH in H as (Hlen & Hin & Hout).
    rewrite length_insert in Hlen. split; [done | split].
    + intros k Hk. destruct (decide (k = start)) as [-> | Hne].
      * exists a0. split; [done |].
        rewrite Hout by lia. by apply list_lookup_insert_eq.
      * destruct (Hin k) as (x & Hx & Hk'); [lia |].
        exists x. split; [| done].
        by rewrite list_lookup_insert_ne in Hx by lia.
    + intros j Hj. rewrite Hout by lia.
      apply list_lookup_insert_ne. lia.
Qed.

(** ** The analysis *)

Section AnalysisFacts.
Context {A : CArith}.
Variable cos : double -> double.
Variable log10f : float -> float.
Variable kiss_fft : list kiss_fft_cpx -> nat -> kiss_fft_cpx.
Variable host : Host.

Lemma fft_output_lookup input out k :
  fft_output kiss_fft input = Ok out ->
  (k < AUDIO_BUFFER)%nat ->
  out !! k = Some (bin kiss_fft input k).
Proof.
  unfold fft_output. intros H Hk. inv_bind H.
  apply load_Ok in Ha. apply store_Ok in H as [Hlt ->].
  rewrite list_lookup_fmap, lookup_seq_lt in Ha by (unfold AUDIO_BUFFER; lia).
  injection Ha as <-. destruct k as [|k].
  - by rewrite list_lookup_insert_eq.
  - rewrite list_lookup_insert_ne by lia.
    by rewrite list_lookup_fmap, lookup_seq_lt.
Qed.

Lemma SmoothingOverTime_lookup buffer input len c fftSize out k :
  SmoothingOverTime buffer input len c fftSize = Ok out ->
  (k < len)%nat ->
  exists last b,
    buffer !! k = Some last /\ input !! k = Some b /\
    out !! k = Some (smooth c last (magnitude b fftSize)).
Proof.
  unfold SmoothingOverTime. intros H Hk.
  eapply (for_range_writes _ 0
            (fun i old =>
               b ← load input i;
               last ← match old with Some x => Ok x | None => Undefined OutOfRange end;
               Ok (smooth c last (magnitude b fftSize)))) in H.
  - destruct H as (_ & Hin & _). destruct (Hin k) as (x & Hx & Hout); [lia |].
    simpl in Hx, Hout. inv_bind Hx. apply load_Ok in Ha. inv_bind Hx.
    injection Hx as <-. destruct (buffer !! k) as [last|]; [| discriminate].
    injection Ha0 as <-. eauto.
  - intros i b. simpl. unfold load.
    destruct (input !! i); simpl; [| done]. by destruct (b !! i).
Qed.

Lemma spectrum_loop_lookup mag data data' k :
  for_range 0 NUM_BANDS (fun i data =>
      linearValue ← load mag i;
      b ← spectrum_byte log10f linearValue;
      store data i b) data = Ok data' ->
  (k < NUM_BANDS)%nat ->
  exists linearValue b,
    mag !! k = Some linearValue /\
    spectrum_byte log10f linearValue = Ok b /\
    data' !! k = Some b.
Proof.
  intros H Hk.
  eapply (for_range_writes _ 0
            (fun i _ => linearValue ← load mag i;
                        spectrum_byte log10f linearValue)) in H.
  - destruct H as (_ & Hin & _). destruct (Hin k) as (x & Hx & Hout); [lia |].
    simpl in Hout. inv_bind Hx. apply load_Ok in Ha. eauto.
  - intros i b. simpl. destruct (load mag i); simpl; [| done].
    by destruct (spectrum_byte log10f a).
Qed.

Lemma waveform_loop_frame pcm data data' k :
  for_range 0 NUM_BANDS (fun i data =>
      x ← load pcm i;
      b ← waveform_byte x;
      store data (i + NUM_BANDS) b) data = Ok data' ->
  (k < NUM_BANDS)%nat ->
  data' !! k = data !! k.
Proof.
  intros H Hk.
  eapply (for_range_writes _ NUM_BANDS
            (fun i _ => x ← load pcm i; waveform_byte x)) in H.
  - destruct H as (_ & _ & Hout). apply Hout. lia.
  - intros i b. rewrite (Nat.add_comm NUM_BANDS i).
    destruct (load pcm i) as [x|]; [| done].
    change (Ok x ≫= ?f) with (f x). cbv beta.
    by destruct (waveform_byte x).
Qed.

Lemma AudioData_Ok pAudioData n o o' :
  AudioData cos log10f kiss_fft host pAudioData n o = Ok o' ->
  exists pcm input out mag data,
    WriteToBuffer (m_pcm o) pAudioData
      (Z.to_nat (to_size_t (SIZE_BITS host) n)) 2 = Ok pcm /\
    fft_input cos pcm = Ok input /\
    fft_output kiss_fft input = Ok out /\
    SmoothingOverTime (m_magnitudeBuffer o) out NUM_BANDS
      (d_to_f SMOOTHING_TIME_CONSTANT) AUDIO_BUFFER = Ok mag /\
    for_range 0 NUM_BANDS (fun i data =>
        linearValue ← load mag i;
        b ← spectrum_byte log10f linearValue;
        store data i b) (m_audioData o) = Ok data /\
    (forall k, (k < NUM_BANDS)%nat -> m_audioData o' !! k = data !! k) /\
    m_magnitudeBuffer o' = mag /\ m_pcm o' = pcm /\ m_needsUpload o' = true.
Proof.
  unfold AudioData. intros H.
  inv_bind H. inv_bind H. inv_bind H. inv_bind H. inv_bind H. inv_bind H.
  injection H as <-. exists a, a0, a1, a2, a3.
  repeat (split; [done |]). split; [| done].
  intros k Hk. eapply waveform_loop_frame in Ha4; [| done]. exact Ha4.
Qed.

(** C4. On every call of the analysis and for every bin [k < N/2], the new
    smoothed value is [c * previous[k] + (1 - c) * magnitude[k]], where [c]
    is the literal [0.5] converted to [float] and [magnitude[k]] is the
    modulus of bin [k] of the transform divided by the transform size
    [N = 1024].  The product [c * previous[k]] is a [float]; the rest is
    computed in [double] and stored as a [float]. *)
Theorem AudioData_smoothing pAudioData n o o' :
  AudioData cos log10f kiss_fft host pAudioData n o = Ok o' ->
  exists pcm input,
    WriteToBuffer (m_pcm o) pAudioData
      (Z.to_nat (to_size_t (SIZE_BITS host) n)) 2 = Ok pcm /\
    fft_input cos pcm = Ok input /\
    forall k, (k < NUM_BANDS)%nat ->
      exists previous,
        m_magnitudeBuffer o !! k = Some previous /\
        let c := d_to_f (d_lit 5 10) in
        let re := cpx_r (bin kiss_fft input k) in
        let im := cpx_i (bin kiss_fft input k) in
        let modulus := f_sqrt (f_add (f_mul re re) (f_mul im im)) in
        let magnitude_k := f_div modulus (f_of_Z 1024) in
        m_magnitudeBuffer o' !! k =
          Some (d_to_f
                  (d_add (f_to_d (f_mul c previous))
                     (d_mul (d_sub (d_of_Z 1) (f_to_d c))
                        (f_to_d magnitude_k)))).
Proof.
  intros H.
  apply AudioData_Ok in H
    as (pcm & input & out & mag & data & Hpcm & Hin & Hout & Hmag & _ & _ & -> & _).
  exists pcm, input. repeat (split; [done |]). intros k Hk.
  destruct (SmoothingOverTime_lookup _ _ _ _ _ _ k Hmag Hk)
    as (last & b & Hlast & Hb & Hk').
  exists last. split; [done |].
  rewrite (fft_output_lookup _ _ k Hout) in Hb
    by (unfold NUM_BANDS, AUDIO_BUFFER in *; simpl in Hk; lia).
  injection Hb as <-. exact Hk'.
Qed.

Lemma AudioData_spectrum pAudioData n o o' k :
  AudioData cos log10f kiss_fft host pAudioData n o = Ok o' ->
  (k < NUM_BANDS)%nat ->
  exists linearValue b,
    m_magnitudeBuffer o' !! k = Some linearValue /\
    spectrum_byte log10f linearValue = Ok b /\
    m_audioData o' !! k = Some b.
Proof.
  intros H Hk.
  apply AudioData_Ok in H
    as (pcm & input & out & mag & data & _ & _ & _ & _ & Hdata & Hfr & -> & _).
  destruct (spectrum_loop_lookup _ _ _ k Hdata Hk) as (x & b & Hx & Hb & Hd).
  exists x, b. rewrite Hfr by done. done.
Qed.

End AnalysisFacts.

(** ** The analysis in IEEE arithmetic *)

Lemma to_int_truncates (x : spec_float) (v : Z) :
  IEEE.to_int x = Some v -> IEEESpec.truncates x v.
Proof.
  destruct x as [s | s | | s m e]; simpl; try discriminate.
  - by intros [= <-].
  - destruct (_ && _); [| discriminate]. intros [= <-].
    exists (IEEE.unsigned_trunc m e). split; [done |].
    destruct e as [|p|p]; simpl.
    + split; lia.
    + split; [lia | done].
    + assert (0 < 2 ^ Z.pos p) by (apply Z.pow_pos_nonneg; lia).
      split; [apply Z.div_pos; lia |].
      change (- Z.neg p) with (Z.pos p).
      pose proof (Z.mul_div_le (Z.pos m) (2 ^ Z.pos p)).
      pose proof (Z.mul_succ_div_gt (Z.pos m) (2 ^ Z.pos p)).
      lia.
Qed.

(** C3, as amended. For every bin [k < N/2] the spectrum byte is obtained
    from the smoothed magnitude as follows: the decibel value is -100 when
    the magnitude is exactly zero and [20 * log10f(magnitude)] otherwise; it
    is rescaled by [255 * (dB + 100) * (1 / 70)] without a clamp of its own;
    the result is truncated toward zero (not rounded to nearest) and clamped
    to [[0, 255]].  A zero magnitude yields byte 0. *)
Theorem AudioData_spectrum_bytes cos log10f kiss_fft host pAudioData n o o' :
  @AudioData IEEE754 cos log10f kiss_fft host pAudioData n o = Ok o' ->
  forall k, (k < NUM_BANDS)%nat ->
    exists linearValue v,
      m_magnitudeBuffer o' !! k = Some linearValue /\
      let dbMag :=
        if IEEE.is_zero linearValue then IEEE.of_Z 53 1024 (-100)
        else IEEE.convert 53 1024
               (SFmul 24 128 (IEEE.of_Z 24 128 20) (log10f linearValue)) in
      let scaled :=
        SFmul 53 1024
          (SFmul 53 1024 (IEEE.of_Z 53 1024 255)
             (SFsub 53 1024 dbMag (IEEE.of_Z 53 1024 (-100))))
          (SFdiv 53 1024 (IEEE.of_Z 53 1024 1)
             (SFsub 53 1024 (IEEE.of_Z 53 1024 (-30)) (IEEE.of_Z 53 1024 (-100)))) in
      IEEESpec.truncates scaled v /\
      m_audioData o' !! k = Some (Z.max (Z.min v 255) 0) /\
      (IEEE.is_zero linearValue = true -> m_audioData o' !! k = Some 0).
Proof.
  intros H k Hk.
  destruct (AudioData_spectrum _ _ _ _ _ _ _ _ k H Hk) as (x & b & Hx & Hb & Hd).
  unfold spectrum_byte in Hb. inv_bind Hb. injection Hb as <-.
  exists x, a. split; [done |].
  unfold cast in Ha. destruct (d_to_int _) as [v|] eqn:Hv; [| discriminate].
  injection Ha as ->. cbv zeta. split; [| split; [done |]].
  - apply to_int_truncates. rewrite <- Hv. unfold LinearToDecibels.
    change (@f_is_zero IEEE754 x) with (IEEE.is_zero x).
    destruct (IEEE.is_zero x); reflexivity.
  - intros Hz. rewrite Hd. f_equal.
    change (@f_is_zero IEEE754 x) with (IEEE.is_zero x) in Hv.
    rewrite Hz in Hv. vm_compute in Hv. by injection Hv as <-.
Qed.

Lemma AudioData_spectrum_bytes_witness :
  exists o',
    @AudioData IEEE754 Sample.cos_one Sample.log10f_minus_four Sample.fft_3_4i
      Sample.host
      (Sample.silence 2048) 2048 Sample.object = Ok o' /\
    exists linearValue v,
      m_magnitudeBuffer o' !! 1%nat = Some linearValue /\
      m_audioData o' !! 1%nat = Some (Z.max (Z.min v 255) 0).
Proof.
  destruct (is_Ok_inv (@AudioData IEEE754 Sample.cos_one
              Sample.log10f_minus_four Sample.fft_3_4i Sample.host
              (Sample.silence 2048)
              2048 Sample.object)) as [o' E]; [vm_compute; reflexivity |].
  exists o'. split; [exact E |].
  destruct (AudioData_spectrum_bytes _ _ _ _ _ _ _ _ E 1%nat)
    as (x & v & Hx & _ & Hv & _).
  - unfold NUM_BANDS, AUDIO_BUFFER. simpl. lia.
  - exists x, v. split; assumption.
Defined.

(** C3, the claim as stated: at the magnitude [1e-4f] (-80 dB) the code
    stores 72, the truncation of 72.857..., where rounding to the nearest
    integer gives 73. *)
Lemma spectrum_byte_truncates_not_rounds :
  @spectrum_byte IEEE754 Sample.log10f_minus_four Sample.tenth_of_a_thousandth
    = Ok 72 /\
  IEEESpec.claimed_spectrum_byte Sample.log10f_minus_four
    Sample.tenth_of_a_thousandth = Ok 73.
Proof. split; vm_compute; reflexivity. Qed.

(** C4 on two consecutive calls in IEEE arithmetic, with a transform whose
    every bin is [3 + 4i] (modulus 5): [c] is exactly one half; the first
    call turns the magnitude 0 of bin 1 into [0.5 * 0 + 0.5 * 5/1024 =
    5/2048], the second turns that into [0.5 * 5/2048 + 0.5 * 5/1024 =
    15/4096]. *)
Lemma AudioData_smoothing_witness :
  @d_to_f IEEE754 (d_lit 5 10) = S754_finite false 8388608 (-24) /\
  exists o1 o2,
    @AudioData IEEE754 Sample.cos_one Sample.log10f_minus_four Sample.fft_3_4i
      Sample.host (Sample.silence 2048) 2048 Sample.object = Ok o1 /\
    @AudioData IEEE754 Sample.cos_one Sample.log10f_minus_four Sample.fft_3_4i
      Sample.host (Sample.silence 2048) 2048 o1 = Ok o2 /\
    m_magnitudeBuffer Sample.object !! 1%nat = Some (Sample.F 0) /\
    m_magnitudeBuffer o1 !! 1%nat
      = Some (SFdiv 24 128 (Sample.F 5) (Sample.F 2048)) /\
    m_magnitudeBuffer o2 !! 1%nat
      = Some (SFdiv 24 128 (Sample.F 15) (Sample.F 4096)).
Proof.
  split; [vm_compute; reflexivity |].
  destruct (is_Ok_inv
              (o1 ← @AudioData IEEE754 Sample.cos_one Sample.log10f_minus_four
                      Sample.fft_3_4i Sample.host (Sample.silence 2048) 2048
                      Sample.object;
               @AudioData IEEE754 Sample.cos_one Sample.log10f_minus_four
                 Sample.fft_3_4i Sample.host (Sample.silence 2048) 2048 o1))
    as [o2 E]; [vm_compute; reflexivity |].
  apply bind_Ok in E as (o1 & E1 & E2).
  exists o1, o2. split; [exact E1 |]. split; [exact E2 |].
  assert (512 = Z.of_nat NUM_BANDS) as Hbands by (vm_compute; reflexivity).
  destruct (AudioData_smoothing _ _ _ _ _ _ _ _ E1)
    as (pcm1 & input1 & _ & _ & Hk1).
  destruct (Hk1 1%nat) as (previous1 & Hprev1 & Hnew1); [lia |].
  destruct (AudioData_smoothing _ _ _ _ _ _ _ _ E2)
    as (pcm2 & input2 & _ & _ & Hk2).
  destruct (Hk2 1%nat) as (previous2 & Hprev2 & Hnew2); [lia |].
  cbv zeta in Hnew1, Hnew2.
  assert (previous1 = Sample.F 0) as ->
    by (vm_compute in Hprev1; injection Hprev1 as <-; reflexivity).
  match type of Hnew1 with
  | _ = ?new =>
      assert (new = Some (SFdiv 24 128 (Sample.F 5) (Sample.F 2048))) as R1
        by (vm_compute; reflexivity)
  end.
  rewrite R1 in Hnew1. rewrite Hnew1 in Hprev2. injection Hprev2 as <-.
  match type of Hnew2 with
  | _ = ?new =>
      assert (new = Some (SFdiv 24 128 (Sample.F 15) (Sample.F 4096))) as R2
        by (vm_compute; reflexivity)
  end.
  rewrite R2 in Hnew2.
  split; [vm_compute; reflexivity |]. split; [exact Hnew1 | exact Hnew2].
Defined.


(** C2 as stated, for every channel count, fails for [Mix]. With one
    channel [Mix] stores frame [j] at [destination[j / 2]]: four frames 1,
    2, 3, 4 leave 2, 4 in the first two slots and the last two slots
    untouched.  With three channels the frames 2, 5, 8 land in slots 0, 1
    and 3.  The program itself passes two channels only. *)
Theorem Mix_destination_index_ignores_channels :
  @Mix IEEE754 (Sample.silence 4) 0 (map Sample.F [1; 2; 3; 4]) 0 4 1
    = Ok (map Sample.F [2; 4; 0; 0]) /\
  @Mix IEEE754 (Sample.silence 4) 0
     (map Sample.F [1; 2; 3; 4; 5; 6; 7; 8; 9]) 0 3 3
    = Ok (map Sample.F [2; 5; 0; 8]).
Proof. split; vm_compute; reflexivity. Qed.

(** C1, at a failing input. A stereo chunk of 1025 frames whose samples
    are 0, 1, 2, ..., 2049: the ring does not hold the last 1024 frames
    (samples [2j + 2] and [2j + 3] in slot [j]); slot [j] mixes samples
    [2j + 1] and [2j + 2], the right channel of one frame with the left
    channel of the next. *)
Theorem WriteToBuffer_cutover_skips_samples_not_frames :
  @WriteToBuffer IEEE754 (Sample.silence 1024) (Sample.ramp 2050) 2050 2
    = Ok (map (fun j => Sample.mean2 (Sample.F (2 * Z.of_nat j + 1))
                                     (Sample.F (2 * Z.of_nat j + 2)))
              (seq 0 1024)) /\
  @WriteToBuffer IEEE754 (Sample.silence 1024) (Sample.ramp 2050) 2050 2
    <> Ok (map (fun j => Sample.mean2 (Sample.F (2 * Z.of_nat j + 2))
                                      (Sample.F (2 * Z.of_nat j + 3)))
               (seq 0 1024)).
Proof.
  assert (E : @WriteToBuffer IEEE754 (Sample.silence 1024) (Sample.ramp 2050)
                2050 2
              = Ok (map (fun j => Sample.mean2 (Sample.F (2 * Z.of_nat j + 1))
                                               (Sample.F (2 * Z.of_nat j + 2)))
                        (seq 0 1024)))
    by (vm_compute; reflexivity).
  split; [exact E |]. rewrite E. intros H.
  apply (f_equal (fun r => match r with Ok l => l !! 0%nat | _ => None end)) in H.
  vm_compute in H. discriminate H.
Qed.

(** ** The render orchestration *)

Section OrchestrationFacts.
Context {A : CArith}.
Variable host : Host.

(** Fields and trace untouched. *)
Local Abbreviation quiet w w' := (fields_kept w w' /\ trace w' = trace w).

Lemma fields_kept_refl (w : World) : fields_kept w w.
Proof. by repeat split. Qed.

Lemma fields_kept_trans (w1 w2 w3 : World) :
  fields_kept w1 w2 -> fields_kept w2 w3 -> fields_kept w1 w3.
Proof.
  unfold fields_kept. intros (?&?&?&?&?&?&?) (?&?&?&?&?&?&?).
  repeat split; congruence.
Qed.

Lemma quiet_trans (w1 w2 w3 : World) :
  quiet w1 w2 -> quiet w2 w3 -> quiet w1 w3.
Proof.
  intros [H1 T1] [H2 T2]. split; [by eapply fields_kept_trans | congruence].
Qed.

Ltac quiet_cases :=
  unfold CreateTexture_image, CreateTexture_data, glGenTextures,
    glGenFramebuffers, now;
  cbv beta iota zeta;
  repeat match goal with
    | |- context [decide ?P] => destruct (decide P)
    | |- context [match ?x with (_, _) => _ end] => destruct x eqn:?
    | |- context [if ?b then _ else _] => destruct b eqn:?
    end.

Ltac quiet_done := unfold fields_kept; repeat split; reflexivity.

Ltac quiet_by_cases := quiet_cases; quiet_done.

Lemma on_gl_quiet f (w : World) : quiet w (on_gl f w).
Proof. quiet_done. Qed.

Lemma on_state_quiet f (w : World) : quiet w (on_state f w).
Proof. quiet_done. Qed.

Lemma set_channel_quiet i h (w : World) : quiet w (set_channel i h w).
Proof. quiet_done. Qed.

Lemma foldl_quiet {B} (f : World -> B -> World) (l : list B) :
  (forall w b, quiet w (f w b)) -> forall w, quiet w (foldl f w l).
Proof.
  intros Hf. induction l as [|b l IH]; intros w; simpl.
  - split; [apply fields_kept_refl | done].
  - eapply quiet_trans; [apply Hf | apply IH].
Qed.

Lemma UnloadTextures_quiet (w : World) : quiet w (UnloadTextures w).
Proof.
  apply foldl_quiet. intros w' i. quiet_by_cases.
Qed.

Lemma UnloadPreset_quiet (w : World) : quiet w (UnloadPreset w).
Proof. unfold UnloadPreset. quiet_by_cases. Qed.

Lemma LoadPreset_shader_quiet path (w : World) :
  quiet w (LoadPreset_shader host path w).
Proof.
  unfold LoadPreset_shader.
  pose proof (UnloadPreset_quiet w) as Hq.
  set (w1 := UnloadPreset w) in *. clearbody w1.
  eapply quiet_trans; [exact Hq |]. quiet_by_cases.
Qed.

Lemma CreateTexture_data_quiet data (w : World) :
  quiet w (snd (CreateTexture_data host data w)).
Proof. quiet_done. Qed.

Lemma CreateTexture_file_quiet path (w : World) :
  quiet w (snd (CreateTexture_file host path w)).
Proof. unfold CreateTexture_file. quiet_by_cases. Qed.

Lemma load_channel_quiet i (w : World) : quiet w (load_channel host i w).
Proof.
  unfold load_channel. case_decide; [quiet_done |].
  pose proof (CreateTexture_file_quiet
                (texture (m_shaderTextures (self w) i)) w) as Hq.
  destruct (CreateTexture_file _ _ _) as [h w1]. simpl in Hq.
  eapply quiet_trans; [exact Hq | apply set_channel_quiet].
Qed.

Lemma upload_audio_quiet (w : World) : quiet w (upload_audio w).
Proof. apply foldl_quiet. intros w' i. quiet_by_cases. Qed.

Lemma bind_channels_quiet (w : World) : quiet w (bind_channels w).
Proof. apply foldl_quiet. intros w' i. quiet_done. Qed.

Lemma unbind_units_quiet (w : World) : quiet w (unbind_units w).
Proof. apply foldl_quiet. intros w' i. quiet_done. Qed.



Lemma RenderTo_effect_spec (intt : Z) (w : World) :
  fields_kept w (RenderTo_effect intt w) /\
  trace (RenderTo_effect intt w)
    = GlobalTime (f_div (f_of_Z intt) (f_of_Z 1000)) :: trace w.
Proof.
  unfold RenderTo_effect. cbv zeta.
  match goal with |- context [bind_channels ?x] =>
    destruct (bind_channels_quiet x) as [K T]; set (w2 := x) in *
  end.
  assert (fields_kept w w2 /\
          trace w2 = GlobalTime (f_div (f_of_Z intt) (f_of_Z 1000)) :: trace w)
    as [K2 T2].
  { subst w2. destruct (m_needsUpload (self w)).
    - destruct (upload_audio_quiet w) as [K3 T3]. split.
      + eapply fields_kept_trans; [exact K3 | quiet_done].
      + simpl. by rewrite T3.
    - split; [quiet_done | done]. }
  split; [by eapply fields_kept_trans | congruence].
Qed.

(** The effect-program pass of [RenderTo]. *)
Lemma RenderTo_matrix fb (w : World) (intt : Z) :
  wrap_time (m_bitsPrecision (self w))
    (clock host (ticks w) - m_initialTime (self w)) = Ok intt ->
  exists w',
    RenderTo host (m_matrixShader (self w)) fb w = Ok w' /\
    fields_kept w w' /\
    trace w' = GlobalTime (f_div (f_of_Z intt) (f_of_Z 1000)) :: trace w.
Proof.
  intros Hwrap. unfold RenderTo. rewrite decide_True by done.
  unfold now. cbv beta iota zeta.
  change (wrap_time _ _) with
    (wrap_time (m_bitsPrecision (self w))
       (clock host (ticks w) - m_initialTime (self w))).
  rewrite Hwrap.
  eexists. split; [reflexivity |].
  set (w1 := set_ticks (S (ticks w)) w).
  destruct (RenderTo_effect_spec intt w1) as [K T].
  destruct (unbind_units_quiet (RenderTo_effect intt w1)) as [K' T'].
  split.
  - eapply fields_kept_trans; [| exact K'].
    eapply fields_kept_trans; [| exact K]. quiet_done.
  - rewrite T', T. reflexivity.
Qed.

Lemma RenderTo_Ok shader fb (w w' : World) :
  RenderTo host shader fb w = Ok w' ->
  fields_kept w w' /\
  exists ev, trace w' = ev ++ trace w /\ forallb is_uniform ev = true.
Proof.
  intros H. destruct (decide (shader = m_matrixShader (self w))) as [-> | Hne].
  - destruct (wrap_time (m_bitsPrecision (self w))
                (clock host (ticks w) - m_initialTime (self w))) as [intt|u] eqn:E.
    + destruct (RenderTo_matrix fb w intt E) as (w2 & Hr & K & T).
      rewrite Hr in H. injection H as <-. split; [done |].
      eexists [_]. split; [exact T | reflexivity].
    + unfold RenderTo in H. rewrite decide_True in H by done.
      unfold now in H. cbv beta iota zeta in H.
      change (wrap_time _ _) with
        (wrap_time (m_bitsPrecision (self w))
           (clock host (ticks w) - m_initialTime (self w))) in H.
      rewrite E in H. discriminate H.
  - unfold RenderTo in H. rewrite decide_False in H by done.
    injection H as <-.
    destruct (unbind_units_quiet
                (glBindTexture (framebuffer_texture (m_state (self w)))
                   (glActiveTexture 0 w))) as [K T].
    split.
    + eapply fields_kept_trans; [| exact K]. quiet_done.
    + exists []. split; [exact T | reflexivity].
Qed.


Lemma UnloadPreset_zero (w : World) :
  framebuffer_texture (m_state (self (UnloadPreset w))) = 0 /\
  effect_fb (m_state (self (UnloadPreset w))) = 0.
Proof.
  unfold UnloadPreset. cbv zeta.
  repeat case_decide; simpl in *; split; lia.
Qed.

Lemma DetermineBitsPrecision_Ok (w w' : World) (bits : Z) :
  DetermineBitsPrecision host w = Ok (bits, w') ->
  fields_kept w w' /\
  (exists ev, trace w' = ev ++ Probe :: trace w /\ forallb is_uniform ev = true) /\
  framebuffer_texture (m_state (self w')) = 0 /\
  effect_fb (m_state (self w')) = 0.
Proof.
  unfold DetermineBitsPrecision. cbv zeta. intros H. inv_bind H.
  destruct (foldl _ _ _) as [n b] in H. injection H as <- <-.
  apply RenderTo_Ok in Ha as (K & ev & T & U).
  match type of K with fields_kept (LoadPreset_shader _ ?p ?x) _ =>
    destruct (LoadPreset_shader_quiet p x) as [K1 T1] end.
  match goal with |- context [UnloadPreset ?x] =>
    destruct (UnloadPreset_quiet x) as [K2 T2];
    destruct (UnloadPreset_zero x) as [Z1 Z2] end.
  split; [| split; [| done]].
  - eapply fields_kept_trans; [| exact K2].
    eapply fields_kept_trans; [| apply (fields_kept_trans _ _ _ K)];
      [| quiet_done].
    eapply fields_kept_trans; [| exact K1]. quiet_done.
  - exists ev. split; [| done]. rewrite T2. simpl. rewrite T, T1. done.
Qed.


Lemma catalog_channel_Ok p i (w w' : World) :
  catalog_channel host p i w = Ok w' ->
  exists t, w' = set_shaderTexture i t w.
Proof.
  unfold catalog_channel. intros H. inv_bind H.
  destruct (_ && _).
  - inv_bind H. injection H as <-. eauto.
  - case_decide; injection H as <-; eauto.
Qed.

Lemma catalog_loop_Ok p n : forall start (w w' : World),
  for_range start n (catalog_channel host p) w = Ok w' ->
  exists f, w' = on_self (set_m_shaderTextures f) w.
Proof.
  induction n as [|n IH]; intros start w w' H; simpl in H.
  - injection H as <-. exists (m_shaderTextures (self w)).
    by destruct w as [[] ? ? ? ? ? ?].
  - inv_bind H. apply catalog_channel_Ok in Ha as [t ->].
    apply IH in H as [f ->]. by exists f.
Qed.

Lemma Launch_channels_Ok preset (w w' : World) :
  Launch_channels host preset w = Ok w' -> descriptors_set w w'.
Proof.
  unfold Launch_channels. destruct (preset <? 0).
  - intros [= <-]. by eexists _, _.
  - intros H. inv_bind H. apply catalog_loop_Ok in H as [f ->]. by eexists _, _.
Qed.



Lemma Launch_textures_quiet (w : World) : quiet w (Launch_textures host w).
Proof.
  unfold Launch_textures.
  pose proof (CreateTexture_data_quiet (m_audioData (self w)) w) as H0.
  destruct (CreateTexture_data _ _ _) as [h w0]. simpl in H0. cbv zeta.
  eapply quiet_trans; [exact H0 |].
  eapply quiet_trans; [apply (set_channel_quiet 0 h) |].
  eapply quiet_trans; [apply (load_channel_quiet 1) |].
  eapply quiet_trans; [apply (load_channel_quiet 2) |].
  apply (load_channel_quiet 3).
Qed.

Lemma descriptors_set_fields (w w' : World) :
  descriptors_set w w' ->
  m_initialized (self w') = m_initialized (self w) /\
  m_settingsUseOwnshader (self w') = m_settingsUseOwnshader (self w) /\
  m_currentPreset (self w') = m_currentPreset (self w) /\
  m_bitsPrecision (self w') = m_bitsPrecision (self w) /\
  m_audioData (self w') = m_audioData (self w) /\
  lastpresetidx w' = lastpresetidx w /\
  trace w' = trace w.
Proof. intros (f & path & ->). by repeat split. Qed.

(** The stages of [Launch]. *)
Lemma Launch_inv preset (w w' : World) :
  Launch host preset w = Ok w' ->
  exists bits w1 w2 w3 w4 w5,
    DetermineBitsPrecision host w = Ok (bits, w1) /\
    w2 = UnloadTextures (on_self (set_m_bitsPrecision (Z.max bits 13)) w1) /\
    Launch_channels host preset w2 = Ok w3 /\
    w4 = Launch_textures host w3 /\
    w5 = on_state (fun s => set_fbheight (Height host)
                              (set_fbwidth (Width host) s)) w4 /\
    w' = LoadPreset_shader host (m_usedShaderFile (self w5)) w5.
Proof.
  unfold Launch. intros H. inv_bind H. destruct a as [bits w1].
  cbv zeta in H. inv_bind H. apply Ok_inj in H.
  exists bits, w1. eexists _, a, _, _. by repeat split.
Qed.

Lemma Launch_Ok preset (w w' : World) :
  Launch host preset w = Ok w' ->
  m_initialized (self w') = m_initialized (self w) /\
  m_settingsUseOwnshader (self w') = m_settingsUseOwnshader (self w) /\
  m_currentPreset (self w') = m_currentPreset (self w) /\
  m_audioData (self w') = m_audioData (self w) /\
  lastpresetidx w' = lastpresetidx w /\
  13 <= m_bitsPrecision (self w') /\
  exists ev, trace w' = ev ++ Probe :: trace w /\ forallb is_uniform ev = true.
Proof.
  intros H.
  apply Launch_inv in H
    as (bits & w1 & w2 & w3 & w4 & w5 & Ha & E2 & Hc & E4 & E5 & E6).
  apply DetermineBitsPrecision_Ok in Ha as (K1 & (ev & T1 & U) & _).
  pose proof (UnloadTextures_quiet
                (on_self (set_m_bitsPrecision (Z.max bits 13)) w1)) as [K2 T2].
  rewrite <- E2 in K2, T2. clear E2.
  apply Launch_channels_Ok, descriptors_set_fields in Hc
    as (I3 & O3 & C3 & B3 & A3 & L3 & T3).
  pose proof (Launch_textures_quiet w3) as [K4 T4].
  rewrite <- E4 in K4, T4. clear E4.
  assert (fields_kept w4 w5 /\ trace w5 = trace w4) as [K5 T5]
    by (rewrite E5; quiet_done).
  clear E5.
  pose proof (LoadPreset_shader_quiet (m_usedShaderFile (self w5)) w5)
    as [K6 T6].
  rewrite <- E6 in K6, T6. clear E6.
  unfold fields_kept in *. cbn in K2, T2.
  destruct K1 as (?&?&?&?&?&?&?), K2 as (?&?&?&?&?&?&?),
    K4 as (?&?&?&?&?&?&?), K5 as (?&?&?&?&?&?&?), K6 as (?&?&?&?&?&?&?).
  repeat split; try congruence.
  - replace (m_bitsPrecision (self w')) with (Z.max bits 13) by congruence. lia.
  - exists ev. split; [congruence | done].
Qed.



(** *** Preset selection *)

Lemma to_int32_small (z : Z) : 0 <= z < 2 ^ 31 -> to_int32 z = z.
Proof.
  intros Hz. unfold to_int32, wrap. rewrite Z.mod_small; lia.
Qed.


Lemma switch_to_Ok index (w w' : World) :
  switch_to host index w = Ok w' ->
  m_currentPreset (self w') = index /\
  m_initialized (self w') = m_initialized (self w) /\
  m_settingsUseOwnshader (self w') = m_settingsUseOwnshader (self w) /\
  exists ev, trace w' = ev ++ Probe :: trace w /\ forallb is_uniform ev = true.
Proof.
  unfold switch_to. cbv zeta. intros H. inv_bind H. injection H as <-.
  apply Launch_Ok in Ha as (I & O & C & _ & _ & _ & T). simpl in *.
  repeat split; try done.
Qed.


Variable cos : double -> double.
Variable log10f : float -> float.
Variable kiss_fft : list kiss_fft_cpx -> nat -> kiss_fft_cpx.


(** *** The probe in the life of the pipeline *)

Lemma probe_count_app (ev tr : list Event) :
  length (List.filter is_probe (ev ++ tr))
  = (length (List.filter is_probe ev) + length (List.filter is_probe tr))%nat.
Proof. by rewrite List.filter_app, length_app. Qed.

Lemma uniform_no_probe (ev : list Event) :
  forallb is_uniform ev = true -> List.filter is_probe ev = [].
Proof.
  induction ev as [|[] ev IH]; simpl; try done; auto.
Qed.

Lemma probe_first_uniform (ev tr : list Event) :
  forallb is_uniform ev = true -> probe_first tr -> probe_first (ev ++ tr).
Proof.
  induction ev as [|[] ev IH]; simpl; try done; auto.
Qed.

Lemma existsb_probe_app (ev tr : list Event) :
  existsb is_probe tr = true -> existsb is_probe (ev ++ tr) = true.
Proof. intros H. rewrite existsb_app, H. apply orb_true_r. Qed.

Lemma AudioData_identity pAudioData n o o' :
  AudioData cos log10f kiss_fft host pAudioData n o = Ok o' ->
  m_initialized o' = m_initialized o /\
  m_settingsUseOwnshader o' = m_settingsUseOwnshader o.
Proof.
  unfold AudioData. intros H.
  inv_bind H. inv_bind H. inv_bind H. inv_bind H. inv_bind H. inv_bind H.
  by injection H as <-.
Qed.

Lemma UpdateAlbumart_quiet albumart (w : World) :
  quiet w (snd (UpdateAlbumart host albumart w)).
Proof.
  unfold UpdateAlbumart. cbv zeta.
  destruct (FileExists host _); [| destruct (FileExists host _)];
    unfold snd at 1.
  - match goal with |- context [CreateTexture_file host ?p w] =>
      pose proof (CreateTexture_file_quiet p w) as Hq;
      destruct (CreateTexture_file host p w) as [h w1] end.
    eapply quiet_trans; [exact Hq | apply set_channel_quiet].
  - match goal with |- context [CreateTexture_file host ?p w] =>
      pose proof (CreateTexture_file_quiet p w) as Hq;
      destruct (CreateTexture_file host p w) as [h w1] end.
    eapply quiet_trans; [exact Hq | apply set_channel_quiet].
  - quiet_done.
Qed.

Lemma switch_added own op index (w w' : World) :
  launches own op = true ->
  switch_to host index w = Ok w' ->
  m_settingsUseOwnshader (self w') = m_settingsUseOwnshader (self w) /\
  added own op w w'.
Proof.
  intros Hl H. apply switch_to_Ok in H as (_ & _ & O & ev & T & U).
  split; [done |]. by eapply added_probe.
Qed.

Lemma step_added op (w w' : World) :
  step cos log10f kiss_fft host op w = Ok w' ->
  m_settingsUseOwnshader (self w') = m_settingsUseOwnshader (self w) /\
  added (m_settingsUseOwnshader (self w)) op w w'.
Proof.
  destruct op as [rate | | | samples n | | | select | | albumart]; unfold step.
  - unfold Start. cbv zeta. intros H. inv_bind H. injection H as <-.
    apply Launch_Ok in Ha as (_ & O & _ & _ & _ & _ & ev & T & U).
    split; [done |]. by eapply added_probe.
  - intros H. apply Ok_inj in H. subst w'. unfold Stop.
    destruct (UnloadTextures_quiet
                (UnloadPreset (on_self (set_m_initialized false) w))) as [K1 T1].
    destruct (UnloadPreset_quiet (on_self (set_m_initialized false) w))
      as [K2 T2].
    destruct K1 as (I1 & O1 & _), K2 as (I2 & O2 & _).
    split; [by rewrite O1, O2 |].
    apply added_nothing; [done | | by rewrite T1, T2].
    rewrite I1, I2. discriminate.
  - unfold Render. destruct (m_initialized (self w)) eqn:I.
    + cbv zeta. intros H.
      assert (exists ev, fields_kept (emit Frame w) w' /\
                trace w' = ev ++ Frame :: trace w /\
                forallb is_uniform ev = true) as (ev & K & T & U).
      { case_decide.
        - inv_bind H. apply RenderTo_Ok in Ha as (K1 & e1 & T1 & U1).
          apply RenderTo_Ok in H as (K2 & e2 & T2 & U2).
          exists (e2 ++ e1). split; [by eapply fields_kept_trans |].
          split; [by rewrite T2, T1, <- app_assoc |].
          rewrite forallb_app, U1, U2. done.
        - apply RenderTo_Ok in H as (K1 & e1 & T1 & U1). by exists e1. }
      destruct K as (I' & O' & _). split; [done |].
      eapply added_frame; try done. by rewrite I'.
    + intros [= <-]. split; [done |]. by apply added_nothing.
  - intros H. inv_bind H. injection H as <-.
    apply AudioData_identity in Ha as [I O]. split; [done |].
    apply added_nothing; [done | | done]. simpl. by rewrite I.
  - unfold NextPreset. destruct (m_settingsUseOwnshader (self w)) eqn:O.
    + intros [= <-]. split; [done |]. by apply added_nothing.
    + intros H. apply (switch_added false OpNextPreset) in H as [O' Ha]; [| reflexivity].
      split; [congruence | done].
  - unfold PrevPreset. destruct (m_settingsUseOwnshader (self w)) eqn:O.
    + intros [= <-]. split; [done |]. by apply added_nothing.
    + intros H. apply (switch_added false OpPrevPreset) in H as [O' Ha]; [| reflexivity].
      split; [congruence | done].
  - unfold LoadPreset. destruct (m_settingsUseOwnshader (self w)) eqn:O.
    + intros [= <-]. split; [done |]. by apply added_nothing.
    + intros H. apply (switch_added false (OpLoadPreset select)) in H as [O' Ha]; [| reflexivity].
      split; [congruence | done].
  - unfold RandomPreset. destruct (m_settingsUseOwnshader (self w)) eqn:O.
    + intros [= <-]. split; [done |]. by apply added_nothing.
    + cbv zeta. intros H. inv_bind H.
      apply switch_to_Ok in H as (_ & _ & O' & ev & T & U).
      split; [simpl in O'; congruence |]. by eapply added_probe.
  - intros [= <-]. destruct (UpdateAlbumart_quiet albumart w) as [K T].
    destruct K as (I & O & _). split; [exact O |].
    apply added_nothing; [done | | exact T].
    intros Hi. rewrite <- I. exact Hi.
Qed.

Lemma added_probes own op (w w' : World) :
  added own op w w' ->
  probes w' = (probes w + (if launches own op then 1 else 0))%nat.
Proof.
  unfold probes. intros [ev Hl T U | ev Hl _ _ T U | Hl _ T]; rewrite Hl, T.
  - rewrite probe_count_app, (uniform_no_probe ev U). simpl. lia.
  - rewrite probe_count_app, (uniform_no_probe ev U). simpl. lia.
  - lia.
Qed.

Lemma added_probed own op (w w' : World) :
  added own op w w' -> probed w -> probed w'.
Proof.
  unfold probed. intros [ev Hl T U | ev Hl I I' T U | Hl I T] [P E]; rewrite T.
  - split.
    + by apply probe_first_uniform.
    + intros _. apply existsb_probe_app. reflexivity.
  - split.
    + apply probe_first_uniform; [done |]. simpl. auto.
    + intros _. apply existsb_probe_app. simpl. auto.
  - split; [done |]. auto.
Qed.

(** C5, as amended. The probe runs once in every [Launch]: once in
    [Start], and once more in each preset switch ([NextPreset],
    [PrevPreset], [LoadPreset], [RandomPreset]) that is not a no-op because
    of a custom shader set.  Every frame that [Render] draws comes after a
    probe: nothing is drawn before [Start] has run it. *)
Theorem probe_runs_in_every_launch (ops : list Op) (w w' : World) :
  run cos log10f kiss_fft host ops w = Ok w' ->
  probes w'
    = (probes w
       + length (List.filter (launches (m_settingsUseOwnshader (self w))) ops))%nat /\
  (m_initialized (self w) = false -> probe_first (trace w) ->
   probe_first (trace w')).
Proof.
  intros H.
  enough (probes w'
            = (probes w + length (List.filter
                 (launches (m_settingsUseOwnshader (self w))) ops))%nat /\
          (probed w -> probed w')) as [Hn Hp].
  { split; [exact Hn |]. intros I P. apply Hp. split; [exact P |]. congruence. }
  revert w H. induction ops as [|op ops IH]; intros w H; simpl in H.
  - injection H as <-. simpl. split; [lia | done].
  - inv_bind H. apply step_added in Ha as [O Hadd].
    apply IH in H as [Hn Hp]. rewrite O in Hn. split.
    + rewrite Hn, (added_probes _ _ _ _ Hadd). simpl.
      destruct (launches _ op); simpl; lia.
    + intros P. apply Hp. by eapply added_probed.
Qed.

(** *** Album art *)

Lemma CreateTexture_file_spec path (w : World) :
  self (snd (CreateTexture_file host path w)) = self w /\
  (if stbi_load host path then
     fst (CreateTexture_file host path w) = glGen host (gl_textures (gl w)) /\
     gl_textures (gl (snd (CreateTexture_file host path w)))
       = glGen host (gl_textures (gl w)) :: gl_textures (gl w) /\
     gl_image (gl (snd (CreateTexture_file host path w)))
       = <[glGen host (gl_textures (gl w)) := ImgFile path]> (gl_image (gl w))
   else
     fst (CreateTexture_file host path w) = 0 /\
     snd (CreateTexture_file host path w) = w).
Proof.
  unfold CreateTexture_file. destruct (stbi_load host path).
  - unfold CreateTexture_image, glGenTextures. cbv beta iota zeta.
    repeat split. simpl. by rewrite fn_lookup_insert.
  - done.
Qed.


(** *** Channel textures *)

Hypothesis glGen_fresh :
  forall names, (glGen host names ∉ names) /\ glGen host names <> 0.

Lemma unload_channels (l : list nat) (w : World) :
  let w' :=
    foldl (fun w i =>
             let h := m_channelTextures (self w) i in
             if decide (h ≠ 0)
             then set_channel i 0 (glDeleteTextures h w) else w) w l in
  (forall i, i ∈ l -> m_channelTextures (self w') i = 0) /\
  (forall i, m_channelTextures (self w) i = 0 ->
             m_channelTextures (self w') i = 0) /\
  m_state (self w') = m_state (self w).
Proof.
  revert w. induction l as [|j l IH]; intros w; cbv zeta.
  - repeat split; [| done]. intros i Hi. by apply elem_of_nil in Hi.
  - cbn [foldl]. cbv zeta.
    match goal with |- context [foldl _ ?x l] => set (w1 := x) end.
    assert (m_channelTextures (self w1) j = 0 /\
            (forall i, m_channelTextures (self w) i = 0 ->
                       m_channelTextures (self w1) i = 0) /\
            m_state (self w1) = m_state (self w)) as (Hj & Hkeep & Hst).
    { subst w1. case_decide as Hh.
      - cbn. repeat split.
        + apply fn_lookup_insert.
        + intros i Hi. destruct (decide (j = i)) as [<- | Hji];
            [apply fn_lookup_insert | by rewrite fn_lookup_insert_ne].
      - repeat split; [| done].
        by destruct (decide (m_channelTextures (self w) j = 0)). }
    clearbody w1. destruct (IH w1) as (Hin & Hz & Hs). cbv zeta in Hin, Hz, Hs.
    repeat split.
    + intros i Hi. apply elem_of_cons in Hi as [-> | Hi];
        [by apply Hz | by apply Hin].
    + intros i Hi. by apply Hz, Hkeep.
    + by rewrite Hs.
Qed.

Lemma UnloadTextures_spec (w : World) :
  (forall i, (i < 4)%nat -> m_channelTextures (self (UnloadTextures w)) i = 0) /\
  m_state (self (UnloadTextures w)) = m_state (self w).
Proof.
  destruct (unload_channels (seq 0 4) w) as (Hin & _ & Hs).
  split; [| exact Hs]. intros i Hi. apply Hin, elem_of_seq. lia.
Qed.

Lemma Launch_channels_catalog preset entry i (w w' : World) :
  g_presets !! Z.to_nat preset = Some entry ->
  0 <= preset ->
  channel entry !! i = Some 99 ->
  Launch_channels host preset w = Ok w' ->
  i = 0%nat /\
  audio (m_shaderTextures (self w') 0) = true /\
  texture (m_shaderTextures (self w') 0) = texture (m_shaderTextures (self w) 0).
Proof.
  intros He Hp Hi. unfold Launch_channels.
  replace (preset <? 0) with false by lia. unfold load. rewrite He.
  change (Ok entry ≫= ?f) with (f entry). cbv beta zeta.
  apply list_elem_of_lookup_2 in He as Hin.
  unfold g_presets in Hin. rewrite !elem_of_cons, elem_of_nil in Hin.
  destruct Hin as [-> | [-> | []]]; simpl; intros [= <-];
    (split; [by destruct i as [|[|[|[|i]]]] | done]).
Qed.

Lemma CreateTexture_data_spec d (w : World) :
  self (snd (CreateTexture_data host d w)) = self w /\
  fst (CreateTexture_data host d w) = glGen host (gl_textures (gl w)) /\
  gl_textures (gl (snd (CreateTexture_data host d w)))
    = glGen host (gl_textures (gl w)) :: gl_textures (gl w) /\
  gl_image (gl (snd (CreateTexture_data host d w)))
    = <[glGen host (gl_textures (gl w)) := ImgAudio d]> (gl_image (gl w)).
Proof. by repeat split. Qed.

Lemma load_channel_slot_ok d j (w : World) :
  (1 <= j < 4)%nat ->
  audio_slot_ok d w ->
  audio_slot_ok d (load_channel host j w) /\
  m_state (self (load_channel host j w)) = m_state (self w).
Proof.
  intros Hj (N0 & L0 & I0 & Hothers). unfold load_channel. cbv zeta.
  case_decide; [by repeat split |].
  pose proof (CreateTexture_file_spec
                (texture (m_shaderTextures (self w) j)) w) as [S R].
  destruct (CreateTexture_file _ _ _) as [h w1]. simpl in S, R.
  destruct (glGen_fresh (gl_textures (gl w))) as [F1 F2].
  unfold audio_slot_ok. simpl. rewrite S.
  destruct (stbi_load host _).
  - destruct R as (-> & -> & ->).
    rewrite fn_lookup_insert_ne by lia.
    assert (glGen host (gl_textures (gl w)) <> m_channelTextures (self w) 0)
      as Hne by (intros E; by rewrite E in F1).
    repeat split; try done.
    + apply elem_of_cons. by right.
    + by rewrite fn_lookup_insert_ne.
    + intros k Hk. destruct (decide (j = k)) as [<- | Hjk].
      * rewrite fn_lookup_insert. right. split; [done | apply elem_of_cons; by left].
      * rewrite fn_lookup_insert_ne by done.
        destruct (Hothers k Hk) as [-> | [? ?]]; [by left | right].
        split; [done | apply elem_of_cons; by right].
  - destruct R as [-> ->]. rewrite fn_lookup_insert_ne by lia.
    repeat split; try done.
    intros k Hk. destruct (decide (j = k)) as [<- | Hjk].
    + rewrite fn_lookup_insert. by left.
    + rewrite fn_lookup_insert_ne by done. apply Hothers, Hk.
Qed.

Lemma Launch_textures_slot_ok (w : World) :
  (forall i, (i < 4)%nat -> m_channelTextures (self w) i = 0) ->
  audio_slot_ok (m_audioData (self w)) (Launch_textures host w) /\
  m_state (self (Launch_textures host w)) = m_state (self w).
Proof.
  intros Hzero. unfold Launch_textures.
  pose proof (CreateTexture_data_spec (m_audioData (self w)) w)
    as (S & Hh & Ht & Him).
  destruct (CreateTexture_data _ _ _) as [h w0]. simpl in S, Hh, Ht, Him.
  cbv zeta. subst h.
  destruct (glGen_fresh (gl_textures (gl w))) as [F1 F2].
  assert (audio_slot_ok (m_audioData (self w))
            (set_channel 0 (glGen host (gl_textures (gl w))) w0)) as H0.
  { unfold audio_slot_ok. simpl. rewrite S, Ht, Him, !fn_lookup_insert.
    repeat split; [done | apply elem_of_cons; by left |].
    intros j Hj. left. rewrite fn_lookup_insert_ne by lia. apply Hzero. lia. }
  assert (m_state (self (set_channel 0 (glGen host (gl_textures (gl w))) w0))
          = m_state (self w)) as M0 by (simpl; by rewrite S).
  destruct (load_channel_slot_ok _ 1 _ ltac:(lia) H0) as [H1 M1].
  destruct (load_channel_slot_ok _ 2 _ ltac:(lia) H1) as [H2 M2].
  destruct (load_channel_slot_ok _ 3 _ ltac:(lia) H2) as [H3 M3].
  split; [exact H3 | congruence].
Qed.

Lemma LoadPreset_shader_slot_ok d path (w : World) :
  framebuffer_texture (m_state (self w)) = 0 ->
  effect_fb (m_state (self w)) = 0 ->
  audio_slot_ok d w ->
  audio_slot_ok d (LoadPreset_shader host path w) /\
  forall j, (j < 4)%nat ->
    m_channelTextures (self (LoadPreset_shader host path w)) j <> 0 ->
    m_channelTextures (self (LoadPreset_shader host path w)) j
      <> framebuffer_texture (m_state (self (LoadPreset_shader host path w))).
Proof.
  intros Hfb Heff (N0 & L0 & I0 & Hothers).
  unfold LoadPreset_shader.
  assert (UnloadPreset w = w) as ->.
  { unfold UnloadPreset. cbv zeta. rewrite Hfb.
    rewrite (decide_False (P := 0 ≠ 0)) by (intros E; by apply E).
    rewrite Heff.
    by rewrite (decide_False (P := 0 ≠ 0)) by (intros E; by apply E). }
  destruct (build_matrix host path _) as [ok1 p1].
  destruct ok1; simpl negb; cbv iota;
    [| split; [by repeat split | simpl; intros; congruence]].
  destruct (build_display host _) as [ok2 p2].
  destruct ok2; simpl negb; cbv iota;
    [| split; [by repeat split | simpl; intros; congruence]].
  unfold glGenTextures, glGenFramebuffers, now. cbv beta iota zeta.
  destruct (glGen_fresh (gl_textures (gl w))) as [F1 F2].
  set (t := glGen host (gl_textures (gl w))) in *.
  assert (forall h, h ∈ gl_textures (gl w) -> h <> t) as Hfresh
    by (intros h Hh ->; done).
  unfold audio_slot_ok. simpl. unfold insert, fn_insert. simpl.
  split.
  - repeat split; [done | apply elem_of_cons; by right | |].
    + rewrite decide_False; [done |]. intros E. by apply (Hfresh _ L0).
    + intros j Hj. destruct (Hothers j Hj) as [-> | [? ?]]; [by left | right].
      split; [done | apply elem_of_cons; by right].
  - intros j Hj Hnz. destruct j as [|j].
    + by apply Hfresh.
    + destruct (Hothers (S j)) as [E | [_ Hin]]; [lia | done | by apply Hfresh].
Qed.

Lemma RenderTo_refreshes fb (w w' : World) :
  audio (m_shaderTextures (self w) 0) = true ->
  m_needsUpload (self w) = true ->
  RenderTo host (m_matrixShader (self w)) fb w = Ok w' ->
  gl_image (gl w') (m_channelTextures (self w') 0)
    = ImgAudio (m_audioData (self w)) /\
  m_needsUpload (self w') = false.
Proof.
  intros Haudio Hup. unfold RenderTo. rewrite decide_True by done.
  unfold now. cbv beta iota zeta.
  change (wrap_time _ _) with
    (wrap_time (m_bitsPrecision (self w))
       (clock host (ticks w) - m_initialTime (self w))).
  destruct (wrap_time _ _) as [intt|u]; [| discriminate].
  intros [= <-]. unfold RenderTo_effect. cbv zeta.
  change (m_needsUpload (self (set_ticks (S (ticks w)) w)))
    with (m_needsUpload (self w)).
  rewrite Hup. unfold upload_audio, bind_channels, unbind_units.
  simpl foldl. cbv beta.
  change (audio (m_shaderTextures (self (set_ticks (S (ticks w)) w)) 0))
    with (audio (m_shaderTextures (self w) 0)).
  rewrite Haudio. cbv iota.
  repeat match goal with
    | |- context [if audio ?x then _ else _] => destruct (audio x)
    end;
    (split; [| reflexivity]); simpl; unfold insert, fn_insert; simpl;
    repeat case_decide; try reflexivity; congruence.
Qed.

(** C10. After [Launch] of a catalog preset, every channel whose tag is 99
    has its audio flag set, keeps the file path it had (the launch assigns
    none), and its texture is a texture object holding the analysis output
    buffer; whenever an upload is pending, a frame stores the current
    analysis buffer in that texture again.  No channel texture is the
    texture of the offscreen framebuffer. *)
Theorem Launch_audio_channels preset entry i (w w' : World) :
  g_presets !! Z.to_nat preset = Some entry ->
  0 <= preset ->
  channel entry !! i = Some 99 ->
  Launch host preset w = Ok w' ->
  audio (m_shaderTextures (self w') i) = true /\
  texture (m_shaderTextures (self w') i) = texture (m_shaderTextures (self w) i) /\
  m_channelTextures (self w') i <> 0 /\
  gl_image (gl w') (m_channelTextures (self w') i)
    = ImgAudio (m_audioData (self w')) /\
  (forall j, (j < 4)%nat ->
     m_channelTextures (self w') j <> 0 ->
     m_channelTextures (self w') j <> framebuffer_texture (m_state (self w'))) /\
  (forall fb w1 w2,
     m_shaderTextures (self w1) = m_shaderTextures (self w') ->
     m_needsUpload (self w1) = true ->
     RenderTo host (m_matrixShader (self w1)) fb w1 = Ok w2 ->
     gl_image (gl w2) (m_channelTextures (self w2) i)
       = ImgAudio (m_audioData (self w1)) /\
     m_needsUpload (self w2) = false).
Proof.
  intros He Hp Hi H.
  apply Launch_inv in H
    as (bits & w1 & w2 & w3 & w4 & w5 & Ha & E2 & Hc & E4 & E5 & E6).
  apply DetermineBitsPrecision_Ok in Ha as (K1 & _ & Fb1 & Ef1).
  destruct (UnloadTextures_quiet
              (on_self (set_m_bitsPrecision (Z.max bits 13)) w1)) as [K2 _].
  destruct (UnloadTextures_spec
              (on_self (set_m_bitsPrecision (Z.max bits 13)) w1)) as [Z2 M2].
  rewrite <- E2 in K2, Z2, M2. clear E2.
  assert (m_shaderTextures (self w2) = m_shaderTextures (self w) /\
          m_audioData (self w2) = m_audioData (self w) /\
          framebuffer_texture (m_state (self w2)) = 0 /\
          effect_fb (m_state (self w2)) = 0) as (S2 & A2 & Fb2 & Ef2).
  { destruct K1 as (_ & _ & _ & _ & S1 & A1 & _).
    destruct K2 as (_ & _ & _ & _ & S2 & A2 & _).
    rewrite M2. repeat split; [by rewrite S2 | by rewrite A2 | done | done]. }
  clear K1 K2 M2 Fb1 Ef1.
  destruct (Launch_channels_catalog _ _ _ _ _ He Hp Hi Hc) as (-> & Au3 & Tx3).
  apply Launch_channels_Ok in Hc as (f & path & E3).
  assert (m_channelTextures (self w3) = m_channelTextures (self w2) /\
          m_audioData (self w3) = m_audioData (self w2) /\
          m_state (self w3) = m_state (self w2)) as (C3 & A3 & M3)
    by (by rewrite E3).
  clear E3.
  destruct (Launch_textures_slot_ok w3) as [Ok4 M4];
    [intros j Hj; rewrite C3; by apply Z2 |].
  destruct (Launch_textures_quiet w3) as [K4 _].
  rewrite <- E4 in Ok4, M4, K4. clear E4.
  assert (m_shaderTextures (self w4) = m_shaderTextures (self w3) /\
          m_audioData (self w4) = m_audioData (self w3))
    as [S4 A4] by (by destruct K4 as (_ & _ & _ & _ & ? & ? & _)).
  clear K4.
  assert (m_shaderTextures (self w5) = m_shaderTextures (self w4) /\
          m_audioData (self w5) = m_audioData (self w4) /\
          framebuffer_texture (m_state (self w5)) = 0 /\
          effect_fb (m_state (self w5)) = 0 /\
          audio_slot_ok (m_audioData (self w3)) w5) as (S5 & A5 & Fb5 & Ef5 & Ok5).
  { rewrite E5. split; [done |]. split; [done |].
    split; [cbn; by rewrite M4, M3 |]. split; [cbn; by rewrite M4, M3 |].
    exact Ok4. }
  clear E5.
  destruct (LoadPreset_shader_quiet (m_usedShaderFile (self w5)) w5)
    as [K6 _].
  destruct (LoadPreset_shader_slot_ok (m_audioData (self w3))
              (m_usedShaderFile (self w5)) w5 Fb5 Ef5 Ok5) as [Ok6 D6].
  rewrite <- E6 in K6, Ok6, D6. clear E6.
  assert (m_shaderTextures (self w') = m_shaderTextures (self w3) /\
          m_audioData (self w') = m_audioData (self w3)) as [S6 A6].
  { destruct K6 as (_ & _ & _ & _ & S6 & A6 & _).
    split; [by rewrite S6, S5 | by rewrite A6, A5]. }
  clear K6.
  destruct Ok6 as (N6 & _ & I6 & _).
  repeat split.
  - by rewrite S6.
  - rewrite S6, Tx3. by rewrite S2.
  - exact N6.
  - by rewrite I6, A6.
  - exact D6.
  - eapply RenderTo_refreshes; [| done | done]. by rewrite H, S6.
  - eapply RenderTo_refreshes; [| done | done]. by rewrite H, S6.
Qed.

End OrchestrationFacts.

(** ** Monotonicity of the decibel scaling *)

(** The operations of [SpecFloat] round the exact result to nearest, ties
    to even.  The rounding is characterised on integers ([rne], [Rz],
    [Rx]) and shown monotone; each operation of the scaling then maps the
    values of its arguments, in units of [2^emin], through a monotone
    function. *)

(** *** Rounding to nearest even *)

Lemma pow2_pos (n : Z) : 0 <= n -> 0 < 2 ^ n.
Proof. intros. apply Z.pow_pos_nonneg; lia. Qed.

Lemma rne_cases (m n : Z) :
  0 <= n ->
  let q := m / 2 ^ n in
  let r := m mod 2 ^ n in
  m = q * 2 ^ n + r /\ 0 <= r < 2 ^ n /\
  (rne m n = q /\ 2 * r <= 2 ^ n \/ rne m n = q + 1 /\ 2 ^ n <= 2 * r).
Proof.
  intros Hn q r. pose proof (pow2_pos n Hn) as Hp.
  pose proof (Z.div_mod m (2 ^ n) ltac:(lia)) as Hdm.
  pose proof (Z.mod_pos_bound m (2 ^ n) Hp) as Hr.
  split; [subst q r; lia |]. split; [exact Hr |].
  unfold rne. fold q r. cbv zeta.
  destruct (Z.compare_spec (2 * r) (2 ^ n)); [destruct (Z.even q) | |]; lia.
Qed.

Lemma rne_exact (m n : Z) : 0 <= n -> m mod 2 ^ n = 0 -> rne m n = m / 2 ^ n.
Proof.
  intros Hn H. pose proof (pow2_pos n Hn). unfold rne. rewrite H.
  by destruct (Z.compare_spec (2 * 0) (2 ^ n)); try lia.
Qed.

Lemma rne_ge_grid (m n g : Z) : 0 <= n -> g * 2 ^ n <= m -> g <= rne m n.
Proof.
  intros Hn H. destruct (rne_cases m n Hn) as (E & Hr & Hc).
  pose proof (pow2_pos n Hn).
  assert (g <= m / 2 ^ n) by (apply Z.div_le_lower_bound; lia).
  lia.
Qed.

Lemma rne_le_grid (m n g : Z) : 0 <= n -> m <= g * 2 ^ n -> rne m n <= g.
Proof.
  intros Hn H. destruct (rne_cases m n Hn) as (E & Hr & Hc).
  pose proof (pow2_pos n Hn) as Hp.
  set (q := m / 2 ^ n) in *. set (r := m mod 2 ^ n) in *.
  assert (q <= g) as Hq by nia.
  destruct (Z.eq_dec q g) as [-> | Hne]; [| lia].
  assert (r = 0) by nia.
  destruct Hc as [[-> _] | [_ Hc]]; lia.
Qed.

Lemma rne_mono (m1 m2 n : Z) : 0 <= n -> m1 <= m2 -> rne m1 n <= rne m2 n.
Proof.
  intros Hn H. pose proof (pow2_pos n Hn) as Hp.
  pose proof (Z.div_mod m1 (2 ^ n) ltac:(lia)) as E1.
  pose proof (Z.div_mod m2 (2 ^ n) ltac:(lia)) as E2.
  pose proof (Z.mod_pos_bound m1 (2 ^ n) Hp) as R1.
  pose proof (Z.mod_pos_bound m2 (2 ^ n) Hp) as R2.
  unfold rne.
  set (q1 := m1 / 2 ^ n) in *. set (r1 := m1 mod 2 ^ n) in *.
  set (q2 := m2 / 2 ^ n) in *. set (r2 := m2 mod 2 ^ n) in *.
  assert (q1 <= q2) as Hq by nia.
  destruct (Z.eq_dec q1 q2) as [Eq | Hne].
  - rewrite <- Eq in *. assert (r1 <= r2) by lia.
    destruct (Z.compare_spec (2 * r1) (2 ^ n));
      destruct (Z.compare_spec (2 * r2) (2 ^ n));
      destruct (Z.even q1); lia.
  - destruct (Z.compare_spec (2 * r1) (2 ^ n));
      destruct (Z.compare_spec (2 * r2) (2 ^ n));
      destruct (Z.even q1); destruct (Z.even q2); lia.
Qed.

Lemma rne_rescale (m n j : Z) :
  0 <= n -> 0 <= j -> rne (m * 2 ^ j) (n + j) = rne m n.
Proof.
  intros Hn Hj. pose proof (pow2_pos n Hn). pose proof (pow2_pos j Hj).
  unfold rne. rewrite Z.pow_add_r by lia.
  rewrite Z.div_mul_cancel_r, Z.mul_mod_distr_r by lia.
  replace (2 * (m mod 2 ^ n * 2 ^ j)) with (2 * (m mod 2 ^ n) * 2 ^ j) by ring.
  destruct (Z.compare_spec (2 * (m mod 2 ^ n) * 2 ^ j) (2 ^ n * 2 ^ j));
    destruct (Z.compare_spec (2 * (m mod 2 ^ n)) (2 ^ n));
    try reflexivity; nia.
Qed.

Lemma rne_nonneg (m n : Z) : 0 <= n -> 0 <= m -> 0 <= rne m n.
Proof. intros Hn Hm. apply (rne_ge_grid m n 0); lia. Qed.

(** *** The shifts of [SpecFloat] *)

Lemma digits2_pos_size (m : positive) : digits2_pos m = Pos.size m.
Proof. induction m; simpl; congruence. Qed.

Lemma digits2_pos_log2 (m : positive) :
  Zpos (digits2_pos m) = Z.log2 (Zpos m) + 1.
Proof.
  destruct m as [p | p |]; simpl; [| | reflexivity];
    rewrite digits2_pos_size; lia.
Qed.

Lemma Zdigits2_log2 (m : Z) : 0 < m -> Zdigits2 m = Z.log2 m + 1.
Proof. destruct m; try lia. intros _. apply digits2_pos_log2. Qed.

Lemma log2_bounds (m : Z) : 0 < m -> 2 ^ Z.log2 m <= m < 2 ^ (Z.log2 m + 1).
Proof. intros H. apply Z.log2_spec in H. by rewrite <- Z.add_1_r in H. Qed.

Lemma iter_pos_nat {A} (f : A -> A) (p : positive) (x : A) :
  SpecFloat.iter_pos f p x = Nat.iter (Pos.to_nat p) f x.
Proof.
  revert x. induction p as [p IH | p IH |]; intros x;
    cbn [SpecFloat.iter_pos].
  - rewrite !IH, Pos2Nat.inj_xI.
    replace (S (2 * Pos.to_nat p)) with (S (Pos.to_nat p + Pos.to_nat p))
      by lia.
    by rewrite Nat.iter_succ_r, Nat.iter_add.
  - rewrite !IH, Pos2Nat.inj_xO.
    replace (2 * Pos.to_nat p)%nat with (Pos.to_nat p + Pos.to_nat p)%nat
      by lia.
    by rewrite Nat.iter_add.
  - reflexivity.
Qed.

Lemma shr_1_nonneg (m : Z) (r s : bool) :
  0 <= m ->
  shr_1 {| shr_m := m; shr_r := r; shr_s := s |}
    = {| shr_m := Z.div2 m; shr_r := Z.odd m; shr_s := r || s |}.
Proof. destruct m as [| [p | p |] | p]; try reflexivity. lia. Qed.

(** [k + 1] shifts of [m]: the quotient, the bit shifted out last, and
    whether a bit shifted out before it was set. *)
Lemma shr_iter (m : Z) (k : nat) :
  0 <= m ->
  exists q r t,
    Nat.iter (S k) shr_1 {| shr_m := m; shr_r := false; shr_s := false |}
      = {| shr_m := q; shr_r := r; shr_s := negb (t =? 0) |} /\
    0 <= q /\ 0 <= t < 2 ^ Z.of_nat k /\
    m = q * 2 ^ (Z.of_nat k + 1) + Z.b2z r * 2 ^ Z.of_nat k + t.
Proof.
  intros Hm. induction k as [|k IH].
  - exists (Z.div2 m), (Z.odd m), 0.
    change (Nat.iter 1 shr_1 ?x) with (shr_1 x).
    rewrite shr_1_nonneg by done. repeat split; try lia.
    + rewrite Z.div2_div. apply Z.div_pos; lia.
    + pose proof (Z.div2_odd m). change (2 ^ (Z.of_nat 0 + 1)) with 2.
      change (2 ^ Z.of_nat 0) with 1. lia.
  - destruct IH as (q & r & t & E & Hq & Ht & Hdec).
    change (Nat.iter (S (S k)) shr_1 ?x) with (shr_1 (Nat.iter (S k) shr_1 x)).
    rewrite E, shr_1_nonneg by done.
    exists (Z.div2 q), (Z.odd q), (Z.b2z r * 2 ^ Z.of_nat k + t).
    pose proof (Z.div2_odd q) as Hq2.
    assert (0 < 2 ^ Z.of_nat k) as Hp by (apply pow2_pos; lia).
    replace (2 ^ Z.of_nat (S k)) with (2 * 2 ^ Z.of_nat k)
      by (rewrite Nat2Z.inj_succ, Z.pow_succ_r; lia).
    replace (2 ^ (Z.of_nat (S k) + 1)) with (4 * 2 ^ Z.of_nat k)
      by (rewrite Nat2Z.inj_succ, <- Z.add_1_r, !Z.pow_add_r by lia;
          change (2 ^ 1) with 2; lia).
    replace (2 ^ (Z.of_nat k + 1)) with (2 * 2 ^ Z.of_nat k) in Hdec
      by (rewrite Z.pow_add_r by lia; change (2 ^ 1) with 2; lia).
    repeat split.
    + f_equal.
      destruct (Z.eqb_spec (Z.b2z r * 2 ^ Z.of_nat k + t) 0) as [H0 | H0];
        destruct r, (Z.eqb_spec t 0); simpl in *; try reflexivity; lia.
    + rewrite Z.div2_div. apply Z.div_pos; lia.
    + destruct r; simpl; lia.
    + destruct r; simpl; lia.
    + destruct r, (Z.odd q); simpl in *; lia.
Qed.

(** The first two steps of [binary_round_aux]: shift, then round. *)
Lemma shr_rne (m e n : Z) :
  0 <= m -> 0 <= n ->
  round_nearest_even
    (shr_m (fst (shr {| shr_m := m; shr_r := false; shr_s := false |} e n)))
    (loc_of_shr_record
       (fst (shr {| shr_m := m; shr_r := false; shr_s := false |} e n)))
    = rne m n /\
  snd (shr {| shr_m := m; shr_r := false; shr_s := false |} e n) = e + n.
Proof.
  intros Hm Hn. destruct n as [| p | p]; [| | lia].
  - simpl. split; [| lia]. rewrite rne_exact.
    + change (2 ^ 0) with 1. symmetry. apply Z.div_1_r.
    + lia.
    + change (2 ^ 0) with 1. apply Z.mod_1_r.
  - unfold shr. cbn [fst snd]. split; [| reflexivity].
    rewrite iter_pos_nat.
    destruct (Pos2Nat.is_succ p) as [k Hk]. rewrite Hk.
    destruct (shr_iter m k Hm) as (q & r & t & -> & Hq & Ht & Hdec).
    assert (Z.pos p = Z.of_nat k + 1) as -> by lia.
    assert (0 < 2 ^ Z.of_nat k) as Hp by (apply pow2_pos; lia).
    replace (2 ^ (Z.of_nat k + 1)) with (2 * 2 ^ Z.of_nat k) in Hdec
      by (rewrite Z.pow_add_r by lia; change (2 ^ 1) with 2; lia).
    unfold rne.
    replace (2 ^ (Z.of_nat k + 1)) with (2 * 2 ^ Z.of_nat k)
      by (rewrite Z.pow_add_r by lia; change (2 ^ 1) with 2; lia).
    set (P := 2 ^ Z.of_nat k) in *.
    assert (m / (2 * P) = q) as ->.
    { symmetry. apply (Z.div_unique m (2 * P) q (Z.b2z r * P + t)).
      - destruct r; simpl; lia.
      - lia. }
    assert (m mod (2 * P) = Z.b2z r * P + t) as ->.
    { symmetry. apply (Z.mod_unique m (2 * P) q (Z.b2z r * P + t)).
      - destruct r; simpl; lia.
      - lia. }
    cbn [shr_m loc_of_shr_record].
    destruct (Z.compare_spec (2 * (Z.b2z r * P + t)) (2 * P));
      destruct r, (Z.eqb_spec t 0); simpl negb;
      cbn [round_nearest_even Z.b2z] in *; try lia; try reflexivity.
Qed.

(** *** The value of a rounded result *)

Lemma pow2_add (a b : Z) : 0 <= a -> 0 <= b -> 2 ^ (a + b) = 2 ^ a * 2 ^ b.
Proof. intros. apply Z.pow_add_r; lia. Qed.

Lemma pow2_succ (n : Z) : 0 <= n -> 2 ^ (n + 1) = 2 * 2 ^ n.
Proof. intros. rewrite pow2_add by lia. change (2 ^ 1) with 2. lia. Qed.

Lemma pow2_le (a b : Z) : a <= b -> 2 ^ a <= 2 ^ b.
Proof. intros. apply Z.pow_le_mono_r; lia. Qed.

Lemma pow2_lt (a b : Z) : 0 <= b -> a < b -> 2 ^ a < 2 ^ b.
Proof. intros. apply Z.pow_lt_mono_r; lia. Qed.

Lemma iter_xO (m d : positive) : Zpos (Pos.iter xO m d) = Zpos m * 2 ^ Zpos d.
Proof.
  induction d as [|d IH] using Pos.peano_ind.
  - simpl. lia.
  - rewrite Pos.iter_succ, Pos2Z.inj_xO, IH, Pos2Z.inj_succ, Z.pow_succ_r; lia.
Qed.

Lemma shl_align_spec (m : positive) (e e' : Z) :
  snd (shl_align m e e') = Z.min e e' /\
  Zpos (fst (shl_align m e e')) = Zpos m * 2 ^ (e - Z.min e e').
Proof.
  unfold shl_align. destruct (e' - e) as [| p | p] eqn:E; cbn [fst snd].
  - replace (Z.min e e') with e by lia. rewrite Z.sub_diag. simpl. lia.
  - replace (Z.min e e') with e by lia. rewrite Z.sub_diag. simpl. lia.
  - replace (Z.min e e') with e' by lia. split; [reflexivity |].
    rewrite iter_xO. f_equal. f_equal. lia.
Qed.

Section FormatFacts.
Variables prec emax : Z.
Hypothesis Hprec : 0 < prec.
Hypothesis Hemax : prec < emax.

Local Abbreviation emin := (emin prec emax).
Local Abbreviation fexp := (fexp prec emax).
Local Abbreviation ebase := (ebase prec emax).
Local Abbreviation Rz := (Rz prec emax).
Local Abbreviation Rx := (Rx prec emax).
Local Abbreviation xv := (xv prec emax).

Lemma emin_nonpos : emin <= 0.
Proof. unfold SpecFloat.emin. lia. Qed.

Lemma ebase_le_emin : ebase <= emin.
Proof. unfold Round.ebase. pose proof emin_nonpos. lia. Qed.

Lemma fexp_ge_emin (e : Z) : emin <= fexp e.
Proof. unfold SpecFloat.fexp. lia. Qed.

Lemma fexp_ge (e : Z) : e - prec <= fexp e.
Proof. unfold SpecFloat.fexp. lia. Qed.

Lemma fexp_mono (a b : Z) : a <= b -> fexp a <= fexp b.
Proof. unfold SpecFloat.fexp. lia. Qed.

Lemma fexp_above (e : Z) : emin < fexp e -> fexp e = e - prec.
Proof. unfold SpecFloat.fexp. lia. Qed.

(** The rounded mantissa has at most [prec] digits, or is [2^prec]; above
    the subnormal range it has at least [prec] digits. *)
Lemma rounded_bounds (m e : Z) :
  0 < m ->
  e <= fexp (Z.log2 m + 1 + e) ->
  0 <= rne m (fexp (Z.log2 m + 1 + e) - e) <= 2 ^ prec /\
  (emin < fexp (Z.log2 m + 1 + e) ->
   2 ^ (prec - 1) <= rne m (fexp (Z.log2 m + 1 + e) - e)).
Proof.
  intros Hm He. set (E := fexp (Z.log2 m + 1 + e)) in *.
  pose proof (log2_bounds m Hm) as [Hlo Hhi].
  pose proof (Z.log2_nonneg m) as Hl.
  pose proof (fexp_ge (Z.log2 m + 1 + e)) as HE. fold E in HE.
  split; [split |].
  - apply rne_nonneg; lia.
  - apply rne_le_grid; [lia |]. rewrite <- pow2_add by lia.
    pose proof (pow2_le (Z.log2 m + 1) (prec + (E - e)) ltac:(lia)). lia.
  - intros Hsub. apply fexp_above in Hsub. fold E in Hsub.
    apply rne_ge_grid; [lia |]. rewrite <- pow2_add by lia.
    replace (prec - 1 + (E - e)) with (Z.log2 m) by lia. exact Hlo.
Qed.

Lemma Rz_rescale (m e : Z) :
  0 < m -> ebase <= e ->
  e <= fexp (Z.log2 m + 1 + e) ->
  Rz (m * 2 ^ (e - ebase))
    = rne m (fexp (Z.log2 m + 1 + e) - e)
      * 2 ^ (fexp (Z.log2 m + 1 + e) - emin).
Proof.
  intros Hm Hb He. unfold Round.Rz. cbv zeta.
  rewrite Z.log2_mul_pow2 by lia.
  replace (e - ebase + Z.log2 m + 1 + ebase) with (Z.log2 m + 1 + e) by lia.
  set (E := fexp (Z.log2 m + 1 + e)) in *.
  replace (E - ebase) with (E - e + (e - ebase)) by lia.
  by rewrite rne_rescale by lia.
Qed.

(** The last two steps of [binary_round_aux]: the carry of the rounding and
    the overflow. *)
Lemma renormalize (s : bool) (q E : Z) :
  0 <= q <= 2 ^ prec ->
  emin <= E ->
  (emin < E -> 2 ^ (prec - 1) <= q) ->
  xv (let '(mrs, e) := shr_fexp prec emax q E loc_Exact in
      match shr_m mrs with
      | Z0 => S754_zero s
      | Zpos m =>
          if e <=? emax - prec then S754_finite s m e else S754_infinity s
      | Zneg _ => S754_nan
      end)
    = Some (if q * 2 ^ (E - emin) <? 2 ^ (emax - emin)
            then Fin (cond_Zopp s (q * 2 ^ (E - emin)))
            else if s then NegInf else PosInf).
Proof.
  intros Hq HE Hnorm. pose proof emin_nonpos as Hemin.
  assert (0 < 2 ^ (E - emin)) as HP by (apply pow2_pos; lia).
  assert (0 < 2 ^ prec) as HPp by (apply pow2_pos; lia).
  unfold shr_fexp. cbn [shr_record_of_loc].
  destruct (Z.eq_dec q 0) as [-> | Hq0].
  - (* the rounded mantissa is zero *)
    cbn [Zdigits2]. rewrite Z.add_0_l.
    assert (fexp E - E <= 0) as Hn by (unfold SpecFloat.fexp; lia).
    destruct (fexp E - E) as [| p | p] eqn:En; try lia; cbn [shr shr_m];
      simpl xv; rewrite Z.mul_0_l;
      replace (0 <? 2 ^ (emax - emin)) with true
        by (symmetry; apply Z.ltb_lt, pow2_pos; lia);
      by destruct s.
  - destruct (Z.eq_dec q (2 ^ prec)) as [-> | Hq1].
    + (* the rounding carried into a new digit *)
      rewrite Zdigits2_log2, Z.log2_pow2 by lia.
      replace (fexp (prec + 1 + E) - E) with 1
        by (unfold SpecFloat.fexp; lia).
      cbn [shr SpecFloat.iter_pos]. rewrite shr_1_nonneg by lia.
      cbn [shr_m]. rewrite Z.div2_div.
      replace (2 ^ prec) with (2 ^ (prec - 1) * 2)
        by (replace prec with (prec - 1 + 1) at 2 by lia;
            rewrite pow2_succ by lia; lia).
      rewrite Z.div_mul by lia.
      assert (0 < 2 ^ (prec - 1)) as Hh by (apply pow2_pos; lia).
      destruct (2 ^ (prec - 1)) as [| h | h] eqn:Eh; try lia.
      assert (2 ^ (E + 1 - emin) = 2 * 2 ^ (E - emin)) as Hs
        by (replace (E + 1 - emin) with (E - emin + 1) by lia;
            apply pow2_succ; lia).
      assert (Z.pos h * 2 * 2 ^ (E - emin) = 2 ^ (prec + E - emin)) as Hv.
      { rewrite <- Eh, <- Z.mul_assoc, <- Hs, <- pow2_add by lia.
        f_equal. lia. }
      rewrite Hv.
      destruct (Z.leb_spec (E + 1) (emax - prec)) as [Hfit | Hover].
      * simpl xv. replace (emin <=? E + 1) with true by lia.
        replace (2 ^ (prec + E - emin) <? 2 ^ (emax - emin)) with true
          by (symmetry; apply Z.ltb_lt, pow2_lt; lia).
        do 3 f_equal. rewrite Hs. lia.
      * simpl xv.
        replace (2 ^ (prec + E - emin) <? 2 ^ (emax - emin)) with false
          by (symmetry; apply Z.ltb_ge, pow2_le; lia).
        reflexivity.
    + (* the rounded mantissa fits *)
      assert (0 < q < 2 ^ prec) as Hq' by lia.
      rewrite Zdigits2_log2 by lia.
      assert (Z.log2 q < prec) as Hl by (apply Z.log2_lt_pow2; lia).
      assert (fexp (Z.log2 q + 1 + E) - E <= 0) as Hn
        by (unfold SpecFloat.fexp; lia).
      assert (shr {| shr_m := q; shr_r := false; shr_s := false |} E
                (fexp (Z.log2 q + 1 + E) - E)
              = ({| shr_m := q; shr_r := false; shr_s := false |}, E)) as ->
        by (destruct (fexp (Z.log2 q + 1 + E) - E); try reflexivity; lia).
      cbn [shr_m]. destruct q as [| p | p]; try lia.
      destruct (Z.leb_spec E (emax - prec)) as [Hfit | Hover].
      * simpl xv. replace (emin <=? E) with true by lia.
        replace (Z.pos p * 2 ^ (E - emin) <? 2 ^ (emax - emin)) with true;
          [reflexivity |].
        symmetry. apply Z.ltb_lt.
        pose proof (pow2_le (prec + (E - emin)) (emax - emin) ltac:(lia)).
        rewrite pow2_add in H by lia. nia.
      * simpl xv.
        replace (Z.pos p * 2 ^ (E - emin) <? 2 ^ (emax - emin)) with false;
          [reflexivity |].
        symmetry. apply Z.ltb_ge.
        pose proof (Hnorm ltac:(lia)) as Hlow.
        pose proof (pow2_le (emax - emin) (prec - 1 + (E - emin)) ltac:(lia)).
        rewrite pow2_add in H by lia. nia.
Qed.

Lemma Rz_0 : Rz 0 = 0.
Proof.
  unfold Round.Rz. cbv zeta.
  pose proof (fexp_ge_emin (Z.log2 0 + 1 + ebase)).
  pose proof ebase_le_emin.
  rewrite rne_exact.
  - by rewrite Z.div_0_l by (apply Z.pow_nonzero; lia).
  - lia.
  - apply Z.mod_0_l. apply Z.pow_nonzero; lia.
Qed.

Lemma Rx_signed (s : bool) (N : Z) :
  0 <= N ->
  Rx (cond_Zopp s N)
    = if Rz N <? 2 ^ (emax - emin) then Fin (cond_Zopp s (Rz N))
      else if s then NegInf else PosInf.
Proof.
  intros HN. unfold Round.Rx. destruct s; cbn [cond_Zopp].
  - destruct (Z.eq_dec N 0) as [-> | Hne].
    + change (- 0) with 0. change (0 <=? 0) with true. cbv iota.
      rewrite Rz_0. pose proof emin_nonpos.
      by replace (0 <? 2 ^ (emax - emin)) with true
        by (symmetry; apply Z.ltb_lt, pow2_pos; lia).
    + replace (0 <=? - N) with false by lia.
      by replace (- - N) with N by lia.
  - by replace (0 <=? N) with true by lia.
Qed.

(** [binary_round_aux] on an exact positive mantissa whose exponent is not
    above the one of its rounding. *)
Lemma binary_round_aux_val (s : bool) (m : positive) (e : Z) :
  ebase <= e ->
  e <= fexp (Zpos (digits2_pos m) + e) ->
  xv (binary_round_aux prec emax s (Zpos m) e loc_Exact)
    = Some (Rx (cond_Zopp s (Zpos m * 2 ^ (e - ebase)))).
Proof.
  intros Hb He. rewrite digits2_pos_log2 in He.
  set (E := fexp (Z.log2 (Z.pos m) + 1 + e)) in *.
  pose proof (rounded_bounds (Zpos m) e ltac:(lia) He) as [Hq Hnorm].
  fold E in Hq, Hnorm.
  pose proof (shr_rne (Zpos m) e (E - e) ltac:(lia) ltac:(lia)) as [Hr Hs].
  unfold binary_round_aux.
  change (shr_fexp prec emax (Z.pos m) e loc_Exact)
    with (shr {| shr_m := Z.pos m; shr_r := false; shr_s := false |} e
            (fexp (Zpos (digits2_pos m) + e) - e)).
  rewrite digits2_pos_log2. fold E.
  destruct (shr _ e (E - e)) as [mrs e']. cbn [fst snd] in Hr, Hs.
  rewrite Hr, Hs. replace (e + (E - e)) with E by lia.
  rewrite renormalize; [| exact Hq | apply fexp_ge_emin | exact Hnorm].
  rewrite Rx_signed by (pose proof (pow2_pos (e - ebase)); nia).
  rewrite Rz_rescale by (done || lia). fold E. reflexivity.
Qed.

Lemma binary_round_val (s : bool) (m : positive) (e : Z) :
  ebase <= e ->
  xv (binary_round prec emax s m e)
    = Some (Rx (cond_Zopp s (Zpos m * 2 ^ (e - ebase)))).
Proof.
  intros Hb. unfold binary_round.
  pose proof (shl_align_spec m e (fexp (Zpos (digits2_pos m) + e)))
    as [Hez Hmz].
  destruct (shl_align _ _ _) as [mz ez]. cbn [fst snd] in Hez, Hmz.
  pose proof (fexp_ge_emin (Zpos (digits2_pos m) + e)) as HE.
  pose proof ebase_le_emin as Hbe.
  assert (Zpos (digits2_pos mz) + ez = Zpos (digits2_pos m) + e) as Hd.
  { rewrite !digits2_pos_log2, Hmz, Z.log2_mul_pow2 by lia. lia. }
  rewrite binary_round_aux_val.
  - do 3 f_equal. rewrite Hmz, <- Z.mul_assoc, <- pow2_add by lia.
    do 2 f_equal. lia.
  - lia.
  - rewrite Hd. lia.
Qed.

Lemma Rx_0 : Rx 0 = Fin 0.
Proof.
  unfold Round.Rx. replace (0 <=? 0) with true by lia. rewrite Rz_0.
  pose proof emin_nonpos.
  by replace (0 <? 2 ^ (emax - emin)) with true
    by (symmetry; apply Z.ltb_lt, pow2_pos; lia).
Qed.

Lemma binary_normalize_val (z e : Z) (szero : bool) :
  ebase <= e ->
  xv (binary_normalize prec emax z e szero) = Some (Rx (z * 2 ^ (e - ebase))).
Proof.
  intros Hb. destruct z as [| m | m]; cbn [binary_normalize].
  - by rewrite Z.mul_0_l, Rx_0.
  - apply (binary_round_val false m e Hb).
  - rewrite (binary_round_val true m e Hb). cbn [cond_Zopp].
    do 2 f_equal. lia.
Qed.

(** Rounding is monotone. *)
Lemma Rz_nonneg (N : Z) : 0 <= N -> 0 <= Rz N.
Proof.
  intros HN. unfold Round.Rz. cbv zeta.
  pose proof (fexp_ge_emin (Z.log2 N + 1 + ebase)).
  pose proof ebase_le_emin.
  apply Z.mul_nonneg_nonneg.
  - apply rne_nonneg; lia.
  - apply Z.pow_nonneg. lia.
Qed.

Lemma Rz_mono (N1 N2 : Z) : 0 < N1 -> N1 <= N2 -> Rz N1 <= Rz N2.
Proof.
  intros H1 H12. unfold Round.Rz. cbv zeta.
  set (E1 := fexp (Z.log2 N1 + 1 + ebase)).
  set (E2 := fexp (Z.log2 N2 + 1 + ebase)).
  pose proof (fexp_ge_emin (Z.log2 N1 + 1 + ebase)) as G1. fold E1 in G1.
  pose proof (fexp_ge_emin (Z.log2 N2 + 1 + ebase)) as G2. fold E2 in G2.
  pose proof ebase_le_emin as Hbe.
  pose proof (Z.log2_le_mono N1 N2 H12) as Hl.
  assert (E1 <= E2) as HE by (apply fexp_mono; lia).
  pose proof (log2_bounds N1 H1) as [L1 U1].
  pose proof (log2_bounds N2 ltac:(lia)) as [L2 U2].
  pose proof (Z.log2_nonneg N1) as P1.
  assert (0 < 2 ^ (emin - ebase)) as HK by (apply pow2_pos; lia).
  (* compare in units of 2^ebase *)
  assert (rne N1 (E1 - ebase) * 2 ^ (E1 - ebase)
          <= rne N2 (E2 - ebase) * 2 ^ (E2 - ebase)) as Hcmp.
  { destruct (Z.eq_dec E1 E2) as [Ee | Hne].
    - rewrite Ee. apply Z.mul_le_mono_nonneg_r; [apply Z.pow_nonneg; lia |].
      apply rne_mono; lia.
    - assert (emin < E2) as Hn2 by lia. apply fexp_above in Hn2. fold E2 in Hn2.
      assert (Z.log2 N1 < Z.log2 N2) as Hlt.
      { pose proof (fexp_ge (Z.log2 N1 + 1 + ebase)). fold E1 in H. lia. }
      (* the power of two between them is on both grids *)
      transitivity (2 ^ Z.log2 N2).
      + replace (Z.log2 N2) with (Z.log2 N2 - (E1 - ebase) + (E1 - ebase))
          at 1 by lia.
        rewrite pow2_add by lia.
        apply Z.mul_le_mono_nonneg_r; [apply Z.pow_nonneg; lia |].
        apply rne_le_grid; [lia |]. rewrite <- pow2_add by lia.
        replace (Z.log2 N2 - (E1 - ebase) + (E1 - ebase)) with (Z.log2 N2)
          by lia.
        pose proof (pow2_le (Z.log2 N1 + 1) (Z.log2 N2) ltac:(lia)). lia.
      + replace (Z.log2 N2) with (prec - 1 + (E2 - ebase)) at 1 by lia.
        rewrite pow2_add by lia.
        apply Z.mul_le_mono_nonneg_r; [apply Z.pow_nonneg; lia |].
        apply rne_ge_grid; [lia |]. rewrite <- pow2_add by lia.
        replace (prec - 1 + (E2 - ebase)) with (Z.log2 N2) by lia. exact L2. }
  replace (E1 - ebase) with (E1 - emin + (emin - ebase)) in Hcmp at 2 by lia.
  replace (E2 - ebase) with (E2 - emin + (emin - ebase)) in Hcmp at 2 by lia.
  rewrite !pow2_add in Hcmp by lia. nia.
Qed.

Lemma Rz_mono_nonneg (N1 N2 : Z) : 0 <= N1 -> N1 <= N2 -> Rz N1 <= Rz N2.
Proof.
  intros H1 H12. destruct (Z.eq_dec N1 0) as [-> | Hne].
  - rewrite Rz_0. apply Rz_nonneg. lia.
  - apply Rz_mono; lia.
Qed.

Lemma Rx_mono (N1 N2 : Z) : N1 <= N2 -> xle (Rx N1) (Rx N2).
Proof.
  intros H. unfold Round.Rx.
  destruct (Z.leb_spec 0 N1) as [P1 | P1];
    destruct (Z.leb_spec 0 N2) as [P2 | P2]; try lia.
  - pose proof (Rz_mono_nonneg N1 N2 P1 H).
    destruct (Z.ltb_spec (Rz N1) (2 ^ (emax - emin)));
      destruct (Z.ltb_spec (Rz N2) (2 ^ (emax - emin))); simpl; lia.
  - pose proof (Rz_nonneg (- N1) ltac:(lia)). pose proof (Rz_nonneg N2 P2).
    destruct (_ <? _), (_ <? _); simpl; lia.
  - pose proof (Rz_mono_nonneg (- N2) (- N1) ltac:(lia) ltac:(lia)).
    destruct (Z.ltb_spec (Rz (- N1)) (2 ^ (emax - emin)));
      destruct (Z.ltb_spec (Rz (- N2)) (2 ^ (emax - emin))); simpl; lia.
Qed.

End FormatFacts.

(** *** The operations of the decibel scaling *)

Lemma xle_PosInf a : xle a PosInf.
Proof. by destruct a. Qed.

Lemma xlift_mono (f : Z -> xval) (a b : xval) :
  (forall z1 z2, z1 <= z2 -> xle (f z1) (f z2)) ->
  xle a b -> xle (xlift f a) (xlift f b).
Proof.
  intros Hf. destruct a as [| z1 |], b as [| z2 |]; cbn [xlift]; intros H;
    try exact I; try contradiction.
  - by apply Hf.
  - apply xle_PosInf.
Qed.

(** An operation that acts on the values by a monotone function is
    monotone. *)
Lemma vle_lift (p1 e1 p2 e2 : Z) (op : spec_float -> spec_float)
    (f : Z -> xval) :
  (forall x a, xv p1 e1 x = Some a -> xv p2 e2 (op x) = Some (xlift f a)) ->
  (forall z1 z2, z1 <= z2 -> xle (f z1) (f z2)) ->
  forall x y, vle p1 e1 x y -> vle p2 e2 (op x) (op y).
Proof.
  intros Hop Hf x y. unfold vle.
  destruct (xv p1 e1 x) as [a|] eqn:Ea; [| done].
  destruct (xv p1 e1 y) as [b|] eqn:Eb; [| done].
  rewrite (Hop x a Ea), (Hop y b Eb). by apply xlift_mono.
Qed.

Section Operations.
Variables prec emax : Z.
Hypothesis Hprec : 0 < prec.
Hypothesis Hemax : prec < emax.

Local Abbreviation emin := (emin prec emax).
Local Abbreviation ebase := (ebase prec emax).
Local Abbreviation Rx := (Rx prec emax).
Local Abbreviation xv := (xv prec emax).

(** The value of a positive normal number [mc * 2^ec], in units of
    [2^emin]. *)
Lemma SFmul_exact (sx : bool) (mc mx : positive) (ec ex : Z) :
  emin <= ec -> emin <= ex ->
  cond_Zopp sx (Zpos (mc * mx) * 2 ^ (ec + ex - ebase))
    = Zpos mc * 2 ^ (ec - emin) * cond_Zopp sx (Zpos mx * 2 ^ (ex - emin)).
Proof.
  intros Hc Hx. unfold Round.ebase.
  replace (ec + ex - 2 * emin) with (ec - emin + (ex - emin)) by lia.
  rewrite pow2_add, Pos2Z.inj_mul by lia. destruct sx; simpl; lia.
Qed.

Lemma SFmul_normal_l (mc : positive) (ec : Z) (x : spec_float) (a : xval) :
  Zpos (digits2_pos mc) = prec -> emin <= ec ->
  xv x = Some a ->
  xv (SFmul prec emax (S754_finite false mc ec) x)
    = Some (xlift (fun z => Rx (Zpos mc * 2 ^ (ec - emin) * z)) a).
Proof.
  intros Hd Hc Hx. destruct x as [s | s | | sx mx ex]; simpl in Hx.
  - injection Hx as <-. simpl. by rewrite Z.mul_0_r, Rx_0.
  - injection Hx as <-. simpl. by destruct s.
  - discriminate.
  - destruct (Z.leb_spec emin ex) as [He | He]; [| discriminate].
    injection Hx as <-. cbn [SFmul xorb xlift].
    pose proof (emin_nonpos prec emax Hprec Hemax).
    rewrite binary_round_aux_val by first
      [ done
      | unfold Round.ebase; lia
      | rewrite digits2_pos_log2;
        rewrite digits2_pos_log2 in Hd;
        pose proof (fexp_ge prec emax
                      (Z.log2 (Z.pos (mc * mx)) + 1 + (ec + ex)));
        assert (Z.log2 (Zpos mc) <= Z.log2 (Zpos (mc * mx)))
          by (apply Z.log2_le_mono; nia);
        lia ].
    by rewrite SFmul_exact.
Qed.

Lemma SFmul_normal_r (mc : positive) (ec : Z) (x : spec_float) (a : xval) :
  Zpos (digits2_pos mc) = prec -> emin <= ec ->
  xv x = Some a ->
  xv (SFmul prec emax x (S754_finite false mc ec))
    = Some (xlift (fun z => Rx (Zpos mc * 2 ^ (ec - emin) * z)) a).
Proof.
  intros Hd Hc Hx. destruct x as [s | s | | sx mx ex]; simpl in Hx.
  - injection Hx as <-. simpl. rewrite Z.mul_0_r, Rx_0 by done.
    by destruct s.
  - injection Hx as <-. simpl. by destruct s.
  - discriminate.
  - destruct (Z.leb_spec emin ex) as [He | He]; [| discriminate].
    injection Hx as <-. cbn [SFmul xlift].
    replace (xorb sx false) with sx by (by destruct sx).
    rewrite Pos.mul_comm, (Z.add_comm ex ec).
    pose proof (emin_nonpos prec emax Hprec Hemax).
    rewrite binary_round_aux_val by first
      [ done
      | unfold Round.ebase; lia
      | rewrite digits2_pos_log2;
        rewrite digits2_pos_log2 in Hd;
        pose proof (fexp_ge prec emax
                      (Z.log2 (Z.pos (mc * mx)) + 1 + (ec + ex)));
        assert (Z.log2 (Zpos mc) <= Z.log2 (Zpos (mc * mx)))
          by (apply Z.log2_le_mono; nia);
        lia ].
    by rewrite SFmul_exact.
Qed.

End Operations.

Section Conversions.
Variables prec emax : Z.
Hypothesis Hprec : 0 < prec.
Hypothesis Hemax : prec < emax.

Local Abbreviation emin := (emin prec emax).
Local Abbreviation ebase := (ebase prec emax).
Local Abbreviation Rx := (Rx prec emax).
Local Abbreviation xv := (xv prec emax).

(** Conversion from a format whose numbers are multiples of
    [2^ebase]. *)
Lemma convert_val (p1 e1 : Z) (x : spec_float) (a : xval) :
  ebase <= SpecFloat.emin p1 e1 ->
  Round.xv p1 e1 x = Some a ->
  xv (IEEE.convert prec emax x)
    = Some (xlift (fun z => Rx (z * 2 ^ (SpecFloat.emin p1 e1 - ebase))) a).
Proof.
  intros Hb Hx. destruct x as [s | s | | sx mx ex]; simpl in Hx.
  - injection Hx as <-. cbn [IEEE.convert xlift Round.xv].
    by rewrite Z.mul_0_l, Rx_0.
  - injection Hx as <-. cbn [IEEE.convert xlift Round.xv]. by destruct s.
  - discriminate.
  - destruct (Z.leb_spec (SpecFloat.emin p1 e1) ex) as [He | He];
      [| discriminate].
    injection Hx as <-. cbn [IEEE.convert xlift].
    rewrite binary_normalize_val by (done || lia).
    do 2 f_equal.
    replace (ex - ebase)
      with (ex - SpecFloat.emin p1 e1 + (SpecFloat.emin p1 e1 - ebase))
      by lia.
    rewrite pow2_add by lia. destruct sx; simpl; lia.
Qed.

(** Subtraction of a negative constant [- mc * 2^ec] whose opposite is a
    number of the format. *)
Lemma SFsub_negative_r (mc : positive) (ec : Z) (x : spec_float) (a : xval) :
  emin <= ec ->
  binary_round prec emax false mc ec = S754_finite false mc ec ->
  xv x = Some a ->
  xv (SFsub prec emax x (S754_finite true mc ec))
    = Some (xlift (fun z => Rx ((z + Zpos mc * 2 ^ (ec - emin))
                               * 2 ^ (emin - ebase))) a).
Proof.
  intros Hc Hrep Hx.
  pose proof (emin_nonpos prec emax Hprec Hemax) as Hemin.
  assert (ebase <= emin) as Hbe by (unfold Round.ebase; lia).
  destruct x as [s | s | | sx mx ex]; simpl in Hx.
  - injection Hx as <-. cbn [SFsub negb xlift]. rewrite <- Hrep.
    rewrite binary_round_val by (done || lia).
    cbn [cond_Zopp]. do 2 f_equal.
    replace (ec - ebase) with (ec - emin + (emin - ebase)) by lia.
    rewrite pow2_add by lia. lia.
  - injection Hx as <-. cbn [SFsub]. by destruct s.
  - discriminate.
  - destruct (Z.leb_spec emin ex) as [He | He]; [| discriminate].
    injection Hx as <-. cbn [SFsub xlift].
    pose proof (shl_align_spec mx ex (Z.min ex ec)) as [_ Hx].
    pose proof (shl_align_spec mc ec (Z.min ex ec)) as [_ Hm].
    rewrite Hx, Hm.
    replace (Z.min ex (Z.min ex ec)) with (Z.min ex ec) by lia.
    replace (Z.min ec (Z.min ex ec)) with (Z.min ex ec) by lia.
    rewrite binary_normalize_val by (done || lia).
    do 2 f_equal. set (ez := Z.min ex ec).
    replace (ex - emin) with (ex - ez + (ez - emin)) by lia.
    replace (ec - emin) with (ec - ez + (ez - emin)) by lia.
    replace (ez - ebase) with (ez - emin + (emin - ebase)) by lia.
    rewrite !pow2_add by lia. destruct sx; simpl; lia.
Qed.

(** The cast to [int] truncates the value. *)
Lemma to_int_val (x : spec_float) (n : Z) (a : xval) :
  IEEE.to_int x = Some n ->
  xv x = Some a ->
  exists z, a = Fin z /\ n = Z.quot z (2 ^ (- emin)).
Proof.
  intros Hn Hx.
  pose proof (emin_nonpos prec emax Hprec Hemax) as Hemin.
  assert (0 < 2 ^ (- emin)) as HK by (apply pow2_pos; lia).
  destruct x as [s | s | | sx mx ex]; simpl in Hx, Hn; try discriminate.
  - injection Hx as <-. injection Hn as <-. exists 0. split; [done |].
    by rewrite Z.quot_0_l by lia.
  - destruct (Z.leb_spec emin ex) as [He | He]; [| discriminate].
    injection Hx as <-. destruct (_ && _); [| discriminate].
    injection Hn as <-. eexists. split; [reflexivity |].
    assert (IEEE.unsigned_trunc mx ex
            = Zpos mx * 2 ^ (ex - emin) / 2 ^ (- emin)) as ->.
    { unfold IEEE.unsigned_trunc. destruct ex as [| p | p].
      - rewrite Z.sub_0_l, Z.div_mul; lia.
      - replace (Z.pos p - emin) with (Z.pos p + - emin) by lia.
        rewrite pow2_add, Z.mul_assoc, Z.div_mul; lia.
      - replace (- emin) with (Z.pos p + (Z.neg p - emin)) by lia.
        rewrite pow2_add by lia.
        rewrite Z.div_mul_cancel_r; [done | lia |].
        apply Z.pow_nonzero; lia. }
    assert (0 <= Zpos mx * 2 ^ (ex - emin)) as Hpos
      by (apply Z.mul_nonneg_nonneg; [lia | apply Z.pow_nonneg; lia]).
    destruct sx; cbn [cond_Zopp].
    + rewrite Z.quot_opp_l by lia. f_equal. symmetry.
      apply Z.quot_div_nonneg; lia.
    + symmetry. apply Z.quot_div_nonneg; lia.
Qed.

Lemma to_int_mono (x y : spec_float) (a b : Z) :
  vle prec emax x y ->
  IEEE.to_int x = Some a -> IEEE.to_int y = Some b -> a <= b.
Proof.
  unfold vle. intros H Ha Hb.
  destruct (xv x) as [vx|] eqn:Ex; [| done].
  destruct (xv y) as [vy|] eqn:Ey; [| done].
  destruct (to_int_val x a vx Ha Ex) as (zx & -> & ->).
  destruct (to_int_val y b vy Hb Ey) as (zy & -> & ->).
  simpl in H. apply Z.quot_le_mono; [| done].
  apply pow2_pos. pose proof (emin_nonpos prec emax Hprec Hemax). lia.
Qed.

End Conversions.

(** The constants of the decibel scaling, in IEEE arithmetic. *)
Lemma IEEE_twenty :
  @f_of_Z IEEE754 20 = S754_finite false 10485760 (-19).
Proof. vm_compute. reflexivity. Qed.

Lemma IEEE_MIN_DECIBELS :
  @MIN_DECIBELS IEEE754 = S754_finite true 7036874417766400 (-46).
Proof. vm_compute. reflexivity. Qed.

Lemma IEEE_UCHAR_MAX :
  @d_of_Z IEEE754 UCHAR_MAX = S754_finite false 8972014882652160 (-45).
Proof. vm_compute. reflexivity. Qed.

Lemma IEEE_rangeScaleFactor :
  @rangeScaleFactor IEEE754 = S754_finite false 8235153604334621 (-59).
Proof. vm_compute. reflexivity. Qed.

(** Each step of the decibel scaling is monotone in IEEE arithmetic. *)
Lemma IEEE_mul_20_mono (x y : spec_float) :
  vle 24 128 x y ->
  vle 24 128 (@f_mul IEEE754 (@f_of_Z IEEE754 20) x)
             (@f_mul IEEE754 (@f_of_Z IEEE754 20) y).
Proof.
  rewrite IEEE_twenty.
  apply (vle_lift 24 128 24 128 _
           (fun z => Rx 24 128 (10485760 * 2 ^ (-19 - emin 24 128) * z))).
  - intros x' a. by apply SFmul_normal_l.
  - intros z1 z2 H. apply Rx_mono; [done.. |].
    apply Z.mul_le_mono_nonneg_l; [done | exact H].
Qed.

Lemma IEEE_f_to_d_mono (x y : spec_float) :
  vle 24 128 x y -> vle 53 1024 (@f_to_d IEEE754 x) (@f_to_d IEEE754 y).
Proof.
  apply (vle_lift 24 128 53 1024 _
           (fun z => Rx 53 1024 (z * 2 ^ (emin 24 128 - ebase 53 1024)))).
  - intros x' a. by apply convert_val.
  - intros z1 z2 H. apply Rx_mono; [done.. |].
    apply Z.mul_le_mono_nonneg_r; [done | exact H].
Qed.

Lemma IEEE_sub_min_mono (x y : spec_float) :
  vle 53 1024 x y ->
  vle 53 1024 (@d_sub IEEE754 x MIN_DECIBELS) (@d_sub IEEE754 y MIN_DECIBELS).
Proof.
  rewrite IEEE_MIN_DECIBELS.
  apply (vle_lift 53 1024 53 1024
           (fun x => SFsub 53 1024 x
                       (S754_finite true 7036874417766400 (-46)))
           (fun z => Rx 53 1024
                       ((z + 7036874417766400 * 2 ^ (-46 - emin 53 1024))
                        * 2 ^ (emin 53 1024 - ebase 53 1024)))).
  - intros x' a. apply SFsub_negative_r; [done.. |].
    vm_compute. reflexivity.
  - intros z1 z2 H. apply Rx_mono; [done.. |].
    apply Z.mul_le_mono_nonneg_r; [done | lia].
Qed.

Lemma IEEE_mul_max_mono (x y : spec_float) :
  vle 53 1024 x y ->
  vle 53 1024 (@d_mul IEEE754 (@d_of_Z IEEE754 UCHAR_MAX) x)
              (@d_mul IEEE754 (@d_of_Z IEEE754 UCHAR_MAX) y).
Proof.
  rewrite IEEE_UCHAR_MAX.
  apply (vle_lift 53 1024 53 1024 _
           (fun z => Rx 53 1024
                       (8972014882652160 * 2 ^ (-45 - emin 53 1024) * z))).
  - intros x' a. by apply SFmul_normal_l.
  - intros z1 z2 H. apply Rx_mono; [done.. |].
    apply Z.mul_le_mono_nonneg_l; [done | exact H].
Qed.

Lemma IEEE_mul_scale_mono (x y : spec_float) :
  vle 53 1024 x y ->
  vle 53 1024 (@d_mul IEEE754 x rangeScaleFactor)
              (@d_mul IEEE754 y rangeScaleFactor).
Proof.
  rewrite IEEE_rangeScaleFactor.
  apply (vle_lift 53 1024 53 1024
           (fun x => SFmul 53 1024 x
                       (S754_finite false 8235153604334621 (-59)))
           (fun z => Rx 53 1024
                       (8235153604334621 * 2 ^ (-59 - emin 53 1024) * z))).
  - intros x' a. by apply SFmul_normal_r.
  - intros z1 z2 H. apply Rx_mono; [done.. |].
    apply Z.mul_le_mono_nonneg_l; [done | exact H].
Qed.

Lemma IEEE_scaledValue_mono (l1 l2 : spec_float) :
  vle 24 128 l1 l2 ->
  vle 53 1024
    (@scaledValue IEEE754
       (@f_to_d IEEE754 (@f_mul IEEE754 (@f_of_Z IEEE754 20) l1)))
    (@scaledValue IEEE754
       (@f_to_d IEEE754 (@f_mul IEEE754 (@f_of_Z IEEE754 20) l2))).
Proof.
  intros H. unfold scaledValue.
  by apply IEEE_mul_scale_mono, IEEE_mul_max_mono, IEEE_sub_min_mono,
    IEEE_f_to_d_mono, IEEE_mul_20_mono.
Qed.

Lemma clamp_byte_mono (a b : Z) : a <= b -> clamp_byte a <= clamp_byte b.
Proof. unfold clamp_byte. lia. Qed.

Lemma spectrum_byte_nonzero {A : CArith} (log10f : float -> float)
    (m : float) (b : Z) :
  f_is_zero m = false ->
  spectrum_byte log10f m = Ok b ->
  exists v,
    d_to_int (scaledValue (f_to_d (f_mul (f_of_Z 20) (log10f m)))) = Some v /\
    b = clamp_byte v.
Proof.
  intros Hnz. unfold spectrum_byte, LinearToDecibels.
  rewrite Hnz. cbv zeta. intros H.
  inv_bind H. injection H as <-. unfold cast in Ha.
  destruct (d_to_int _) as [v|]; [| discriminate].
  injection Ha as ->. eauto.
Qed.

(** *** The comparison of IEEE 754 *)

Section Comparison.
Variables prec emax : Z.
Hypothesis Hprec : 0 < prec.

(** A number of the format has its exponent in range and at most [prec]
    digits, exactly [prec] above the least exponent. *)
Lemma bounded_inv (m : positive) (e : Z) :
  bounded prec emax m e = true ->
  emin prec emax <= e /\ Zpos m < 2 ^ prec /\
  (emin prec emax < e -> 2 ^ (prec - 1) <= Zpos m).
Proof.
  unfold bounded, canonical_mantissa. intros H.
  apply andb_prop in H as [H _]. apply Z.eqb_eq in H.
  rewrite digits2_pos_log2 in H.
  pose proof (log2_bounds (Zpos m) ltac:(lia)) as [Hlo Hhi].
  pose proof (Z.log2_nonneg (Zpos m)).
  unfold fexp in H. split; [lia |]. split.
  - pose proof (pow2_le (Z.log2 (Z.pos m) + 1) prec ltac:(lia)). lia.
  - intros He.
    replace (prec - 1) with (Z.log2 (Z.pos m)) by lia. exact Hlo.
Qed.

Lemma bounded_lt (m1 m2 : positive) (e1 e2 : Z) :
  bounded prec emax m1 e1 = true ->
  bounded prec emax m2 e2 = true ->
  e1 < e2 ->
  Zpos m1 * 2 ^ (e1 - emin prec emax) < Zpos m2 * 2 ^ (e2 - emin prec emax).
Proof.
  intros H1 H2 He.
  apply bounded_inv in H1 as (L1 & U1 & _).
  apply bounded_inv in H2 as (L2 & _ & N2). specialize (N2 ltac:(lia)).
  set (k := emin prec emax) in *.
  assert (0 < 2 ^ (e1 - k)) by (apply pow2_pos; lia).
  assert (2 ^ (e2 - k) = 2 ^ (e2 - e1) * 2 ^ (e1 - k)) as ->
    by (rewrite <- pow2_add by lia; f_equal; lia).
  assert (2 * 2 ^ (prec - 1) = 2 ^ prec) as Hp
    by (rewrite <- pow2_succ by lia; f_equal; lia).
  pose proof (pow2_le 1 (e2 - e1) ltac:(lia)) as Hs.
  change (2 ^ 1) with 2 in Hs.
  assert (2 ^ prec <= Z.pos m2 * 2 ^ (e2 - e1)) as Hm by nia.
  rewrite Z.mul_assoc.
  apply Z.lt_le_trans with (2 ^ prec * 2 ^ (e1 - k)).
  - apply Z.mul_lt_mono_pos_r; lia.
  - apply Z.mul_le_mono_nonneg_r; lia.
Qed.

(** On the numbers of the format, the comparison of IEEE 754 is the order
    of the values. *)
Lemma SFleb_vle (x y : spec_float) :
  valid_binary prec emax x = true ->
  valid_binary prec emax y = true ->
  SFleb x y = true ->
  vle prec emax x y.
Proof.
  intros Vx Vy H. unfold SFleb in H. unfold vle.
  destruct x as [sx | sx | | sx mx ex], y as [sy | sy | | sy my ey];
    cbn [SFcompare valid_binary xv] in *; try discriminate H.
  - simpl. lia.
  - by destruct sy.
  - apply bounded_inv in Vy as (Ly & _).
    replace (emin prec emax <=? ey) with true by lia.
    destruct sy; [discriminate H |]. simpl.
    apply Z.mul_nonneg_nonneg; [lia | apply Z.pow_nonneg; lia].
  - by destruct sx.
  - by destruct sx, sy.
  - apply bounded_inv in Vy as (Ly & _).
    replace (emin prec emax <=? ey) with true by lia.
    by destruct sx.
  - apply bounded_inv in Vx as (Lx & _).
    replace (emin prec emax <=? ex) with true by lia.
    destruct sx; [| discriminate H]. simpl.
    assert (0 <= Z.pos mx * 2 ^ (ex - emin prec emax))
      by (apply Z.mul_nonneg_nonneg; [lia | apply Z.pow_nonneg; lia]).
    lia.
  - apply bounded_inv in Vx as (Lx & _).
    replace (emin prec emax <=? ex) with true by lia.
    by destruct sy.
  - pose proof (bounded_inv _ _ Vx) as (Lx & _).
    pose proof (bounded_inv _ _ Vy) as (Ly & _).
    replace (emin prec emax <=? ex) with true by lia.
    replace (emin prec emax <=? ey) with true by lia.
    assert (0 < Z.pos mx * 2 ^ (ex - emin prec emax))
      by (apply Z.mul_pos_pos; [lia | apply pow2_pos; lia]).
    assert (0 < Z.pos my * 2 ^ (ey - emin prec emax))
      by (apply Z.mul_pos_pos; [lia | apply pow2_pos; lia]).
    destruct sx, sy; cbn [cond_Zopp xle]; try discriminate H; try lia.
    + destruct (Z.compare_spec ex ey) as [-> | He | He];
        try discriminate H.
      * change (Pos.compare_cont Eq mx my) with (Pos.compare mx my) in H.
        destruct (Pos.compare_spec mx my); try discriminate H; nia.
      * pose proof (bounded_lt _ _ _ _ Vy Vx He). lia.
    + destruct (Z.compare_spec ex ey) as [-> | He | He];
        try discriminate H.
      * change (Pos.compare_cont Eq mx my) with (Pos.compare mx my) in H.
        destruct (Pos.compare_spec mx my); try discriminate H; nia.
      * pose proof (bounded_lt _ _ _ _ Vx Vy He). lia.
Qed.

End Comparison.

(** Numbers above a positive number are not zero. *)
Lemma binary32_lt_positive (x y : spec_float) :
  binary32_lt (S754_zero false) x -> binary32_lt x y ->
  IEEE.is_zero x = false /\ IEEE.is_zero y = false.
Proof.
  intros (_ & _ & Hx) (_ & _ & Hxy). unfold SFltb in *.
  destruct x as [sx | [] | | [] mx ex]; try discriminate Hx;
    destruct y as [sy | [] | | [] my ey]; try discriminate Hxy; done.
Qed.

(** C9. In IEEE arithmetic, with a [log10f] that is monotone on the
    positive binary32 numbers, the map from a linear magnitude to its
    spectrum byte is monotone non-decreasing on the positive magnitudes:
    for binary32 numbers [0 < m1 < m2] the byte computed for [m1] is at
    most the byte computed for [m2].  The comparisons are those of
    IEEE 754 ([SFltb], [SFleb]). *)
Theorem spectrum_byte_monotone (log10f : spec_float -> spec_float)
    (m1 m2 : spec_float) (b1 b2 : Z) :
  monotone_log10f log10f ->
  binary32_lt (S754_zero false) m1 ->
  binary32_lt m1 m2 ->
  @spectrum_byte IEEE754 log10f m1 = Ok b1 ->
  @spectrum_byte IEEE754 log10f m2 = Ok b2 ->
  b1 <= b2.
Proof.
  intros Hlog Hpos Hlt H1 H2.
  destruct (binary32_lt_positive m1 m2 Hpos Hlt) as [Z1 Z2].
  apply (@spectrum_byte_nonzero IEEE754) in H1 as (v1 & Hv1 & ->);
    [| exact Z1].
  apply (@spectrum_byte_nonzero IEEE754) in H2 as (v2 & Hv2 & ->);
    [| exact Z2].
  apply clamp_byte_mono.
  destruct (Hlog m1 m2 Hpos Hlt) as (V1 & V2 & Hle).
  assert (vle 24 128 (log10f m1) (log10f m2)) as Hv
    by (apply SFleb_vle; (lia || assumption)).
  apply (to_int_mono 53 1024 ltac:(lia) ltac:(lia) _ _ _ _
           (IEEE_scaledValue_mono _ _ Hv) Hv1 Hv2).
Qed.

Lemma log10f_step_monotone : monotone_log10f Sample.log10f_step.
Proof.
  intros x y (_ & _ & Hx) (_ & _ & Hxy). unfold SFltb in *.
  destruct x as [sx | [] | | [] mx ex]; try discriminate Hx;
    destruct y as [sy | [] | | [] my ey]; try discriminate Hxy;
    cbn [Sample.log10f_step].
  - destruct (ex <? -26); repeat split; reflexivity.
  - simpl in Hxy.
    assert (ex <= ey) by (destruct (Z.compare_spec ex ey); try discriminate; lia).
    destruct (Z.ltb_spec ex (-26)), (Z.ltb_spec ey (-26)); try lia;
      repeat split; reflexivity.
Qed.

(** C9 at the magnitudes [2^-4] and [2^-2], with a step function for
    [log10f]: bytes 72 and 218. *)
Lemma spectrum_byte_monotone_witness :
  @spectrum_byte IEEE754 Sample.log10f_step (S754_finite false 8388608 (-27))
    = Ok 72 /\
  @spectrum_byte IEEE754 Sample.log10f_step (S754_finite false 8388608 (-25))
    = Ok 218 /\
  72 <= 218.
Proof.
  split; [vm_compute; reflexivity |]. split; [vm_compute; reflexivity |].
  apply (spectrum_byte_monotone Sample.log10f_step
           (S754_finite false 8388608 (-27))
           (S754_finite false 8388608 (-25)) 72 218 log10f_step_monotone).
  - repeat split; reflexivity.
  - repeat split; reflexivity.
  - vm_compute. reflexivity.
  - vm_compute. reflexivity.
Defined.

(** ** The sample host *)

Lemma Sample_glGen_fresh (names : list GLuint) :
  (glGen Sample.host names ∉ names) /\ glGen Sample.host names <> 0.
Proof.
  assert (0 <= foldr Z.max 0 names) as H0
    by (induction names as [|x l IH]; simpl; lia).
  assert (forall x, x ∈ names -> x <= foldr Z.max 0 names) as Hmax.
  { induction names as [|y l IH]; intros x Hx.
    - by apply elem_of_nil in Hx.
    - assert (0 <= foldr Z.max 0 l) as H1 by (simpl in H0; clear - l; induction l; simpl; lia).
      apply elem_of_cons in Hx as [-> | Hx]; simpl; [lia |].
      specialize (IH H1 x Hx). lia. }
  change (glGen Sample.host names) with (1 + foldr Z.max 0 names).
  split; [| lia]. intros Hin. apply Hmax in Hin. lia.
Qed.

(** C5 at [Start] followed by [NextPreset]: the run is defined and has
    probed twice. *)
Lemma probe_runs_in_every_launch_witness :
  exists w',
    @run IEEE754 Sample.cos_one Sample.log10f_minus_four Sample.fft_3_4i
      Sample.host [OpStart 44100; OpNextPreset] Sample.world = Ok w' /\
    probes w' = 2%nat.
Proof.
  destruct (is_Ok_inv
              (@run IEEE754 Sample.cos_one Sample.log10f_minus_four
                 Sample.fft_3_4i Sample.host [OpStart 44100; OpNextPreset]
                 Sample.world)) as [w' E]; [vm_compute; reflexivity |].
  exists w'. split; [exact E |].
  destruct (@probe_runs_in_every_launch IEEE754 Sample.host Sample.cos_one
              Sample.log10f_minus_four Sample.fft_3_4i _ _ _ E) as [P _].
  rewrite P. reflexivity.
Defined.

(** The sentence of C5 that the probe is not run again on a preset switch
    fails: after [Start] and one [NextPreset] the probe has run twice, and
    no frame has been drawn. *)
Lemma probe_reruns_on_preset_switch :
  (w ← @run IEEE754 Sample.cos_one Sample.log10f_minus_four Sample.fft_3_4i
         Sample.host [OpStart 44100; OpNextPreset] Sample.world;
   Ok (probes w, frames w)) = Ok (2%nat, 0%nat).
Proof. vm_compute. reflexivity. Qed.






(** C10 at preset 0 of the catalog, whose channel 0 has tag 99. *)
Lemma Launch_audio_channels_witness :
  exists w' : @World IEEE754,
    Launch Sample.host 0 Sample.world = Ok w' /\
    audio (m_shaderTextures (self w') 0) = true /\
    m_channelTextures (self w') 0 <> 0 /\
    gl_image (gl w') (m_channelTextures (self w') 0)
      = ImgAudio (m_audioData (self w')).
Proof.
  destruct (is_Ok_inv (@Launch IEEE754 Sample.host 0 Sample.world)) as [w' E];
    [vm_compute; reflexivity |].
  exists w'. split; [exact E |].
  destruct (@Launch_audio_channels IEEE754 Sample.host Sample_glGen_fresh 0
              {| name := "Kodi"; file := "kodi.frag.glsl";
                 channel := [99; 0; 1; -1] |} 0%nat
              Sample.world w')
    as (Au & _ & N & I & _); [reflexivity | lia | reflexivity | exact E |].
  by repeat split.
Defined.

(** ** The ring buffer on stereo input *)

Lemma ring_counter_small : 2 * Z.of_nat AUDIO_BUFFER < 2 ^ 32.
Proof. reflexivity. Qed.

Section RingFacts.
Context {A : CArith}.

Lemma Mix_sum_two (src : list float) (base : nat) (v a b : float) :
  src !! base = Some a ->
  src !! S base = Some b ->
  Mix_sum src base 0 2 v = Ok (f_add (f_add v a) b).
Proof.
  intros Ha Hb. cbn [Mix_sum]. unfold load.
  rewrite Nat.add_0_r, Ha. cbn. by rewrite Nat.add_1_r, Hb.
Qed.

(** The passes of the outer loop of [Mix] from frame [k] on, two channels,
    while the 32-bit counter does not wrap. *)
Lemma Mix_loop_stereo (src : list float) (doff soff frames : nat) :
  (soff + 2 * frames <= length src)%nat ->
  2 * Z.of_nat frames < 2 ^ 32 ->
  forall m k fuel (dst : list float),
    (k + m = frames)%nat ->
    (m <= fuel)%nat ->
    (doff + frames <= length dst)%nat ->
    exists dst',
      Mix_loop fuel dst doff src soff (2 * frames) 2 (2 * Z.of_nat k)
        = Ok dst' /\
      length dst' = length dst /\
      (forall j, (k <= j < frames)%nat ->
         exists a b,
           src !! (soff + 2 * j)%nat = Some a /\
           src !! (soff + 2 * j + 1)%nat = Some b /\
           dst' !! (doff + j)%nat = Some (mean_of_two a b)) /\
      (forall x, ~ (doff + k <= x < doff + frames)%nat -> dst' !! x = dst !! x).
Proof.
  intros Hsrc Hsmall m.
  induction m as [|m IH]; intros k fuel dst Hk Hfuel Hdst.
  - exists dst. split.
    + destruct fuel; cbn [Mix_loop];
        by replace (2 * Z.of_nat k <? Z.of_nat (2 * frames)) with false
          by (symmetry; apply Z.ltb_ge; lia).
    + split; [done |]. split; [intros j Hj; lia | done].
  - destruct fuel as [|fuel]; [lia |]. cbn [Mix_loop].
    replace (2 * Z.of_nat k <? Z.of_nat (2 * frames)) with true
      by (symmetry; apply Z.ltb_lt; lia).
    replace (Z.to_nat (2 * Z.of_nat k)) with (2 * k)%nat by lia.
    replace (Z.to_nat (2 * Z.of_nat k / 2)) with k
      by (rewrite (Z.mul_comm 2), Z.div_mul by lia; lia).
    destruct (lookup_lt_is_Some_2 src (soff + 2 * k)) as [a Ha]; [lia |].
    destruct (lookup_lt_is_Some_2 src (S (soff + 2 * k))) as [b Hb]; [lia |].
    rewrite (Mix_sum_two _ _ _ a b Ha Hb).
    change (Ok ?x ≫= ?f) with (f x). cbv beta.
    unfold store. rewrite decide_True by lia.
    change (Ok ?x ≫= ?f) with (f x). cbv beta.
    replace (wrap 32 (2 * Z.of_nat k + Z.of_nat 2)) with (2 * Z.of_nat (S k))
      by (unfold wrap; rewrite Z.mod_small; lia).
    destruct (IH (S k) fuel
                (<[(doff + k)%nat :=
                     f_div (f_add (f_add (f_of_Z 0) a) b) (f_of_Z (Z.of_nat 2))]>
                   dst)) as (dst' & Hrun & Hlen & Hin & Hout);
      [lia | lia | by rewrite length_insert |].
    exists dst'. split; [exact Hrun |].
    rewrite length_insert in Hlen. split; [exact Hlen |]. split.
    + intros j Hj. destruct (decide (j = k)) as [-> | Hne].
      * exists a, b. split; [exact Ha |].
        split; [by rewrite Nat.add_1_r |].
        rewrite Hout by lia. apply list_lookup_insert_eq. lia.
      * apply Hin. lia.
    + intros x Hx. rewrite Hout by lia. apply list_lookup_insert_ne. lia.
Qed.

Lemma Mix_stereo (dst src : list float) (doff soff frames : nat) :
  (doff + frames <= length dst)%nat ->
  (soff + 2 * frames <= length src)%nat ->
  2 * Z.of_nat frames < 2 ^ 32 ->
  exists dst',
    Mix dst doff src soff frames 2 = Ok dst' /\
    length dst' = length dst /\
    (forall j, (j < frames)%nat ->
       exists a b,
         src !! (soff + 2 * j)%nat = Some a /\
         src !! (soff + 2 * j + 1)%nat = Some b /\
         dst' !! (doff + j)%nat = Some (mean_of_two a b)) /\
    (forall x, ~ (doff <= x < doff + frames)%nat -> dst' !! x = dst !! x).
Proof.
  intros Hdst Hsrc Hsmall. unfold Mix. cbv zeta.
  rewrite (Nat.mul_comm frames 2).
  destruct (Mix_loop_stereo src doff soff frames Hsrc Hsmall frames 0
              (2 * frames) dst)
    as (dst' & Hrun & Hlen & Hin & Hout); [lia | lia | exact Hdst |].
  exists dst'. split; [exact Hrun |]. split; [exact Hlen |]. split.
  - intros j Hj. apply Hin. lia.
  - intros x Hx. apply Hout. lia.
Qed.

(** C2, as amended. With two channels, the only channel count the program
    passes, and fewer than [2^31] frames, [Mix] is defined whenever the
    source holds two samples for each frame and the destination has room
    for the frames; destination frame [j] is then the mean of the source
    samples [2j] and [2j + 1], for every frame, written consecutively. *)
Theorem Mix_two_channels_averages (destination source : list float)
    (frames : nat) :
  (frames <= length destination)%nat ->
  (2 * frames <= length source)%nat ->
  2 * Z.of_nat frames < 2 ^ 32 ->
  exists mixed,
    Mix destination 0 source 0 frames 2 = Ok mixed /\
    length mixed = length destination /\
    forall j, (j < frames)%nat ->
      exists a b,
        source !! (2 * j)%nat = Some a /\
        source !! (2 * j + 1)%nat = Some b /\
        mixed !! j = Some (f_div (f_add (f_add (f_of_Z 0) a) b) (f_of_Z 2)).
Proof.
  intros Hdst Hsrc Hsmall.
  destruct (Mix_stereo destination source 0 0 frames)
    as (mixed & Hrun & Hlen & Hin & _); [lia | lia | exact Hsmall |].
  exists mixed. split; [exact Hrun |]. split; [exact Hlen |].
  intros j Hj. destruct (Hin j Hj) as (a & b & Ha & Hb & Hd).
  exists a, b. by repeat split.
Qed.

(** X1. [Mix] with two channels on parts of larger buffers, as
    [WriteToBuffer] calls it ([destination] and [source] point into the
    buffers at [doff] and [soff]): while the 32-bit loop counter does not
    wrap ([2 * frames < 2^32]) it is defined whenever the destination has
    room for [frames] frames and the source holds [2 * frames] samples; it
    stores the mean of the two samples of frame [j] at [destination[j]] for
    every [j < frames], and leaves the rest of the destination buffer as it
    was. *)
Theorem Mix_stereo_frames (dst src : list float) (doff soff frames : nat) :
  (doff + frames <= length dst)%nat ->
  (soff + 2 * frames <= length src)%nat ->
  2 * Z.of_nat frames < 2 ^ 32 ->
  exists dst',
    Mix dst doff src soff frames 2 = Ok dst' /\
    length dst' = length dst /\
    (forall j, (j < frames)%nat ->
       exists a b,
         src !! (soff + 2 * j)%nat = Some a /\
         src !! (soff + 2 * j + 1)%nat = Some b /\
         dst' !! (doff + j)%nat = Some (mean_of_two a b)) /\
    (forall x, ~ (doff <= x < doff + frames)%nat -> dst' !! x = dst !! x).
Proof.
  intros Hdst Hsrc Hsmall. unfold Mix. cbv zeta.
  rewrite (Nat.mul_comm frames 2).
  destruct (Mix_loop_stereo src doff soff frames Hsrc Hsmall frames 0
              (2 * frames) dst)
    as (dst' & Hrun & Hlen & Hin & Hout); [lia | lia | exact Hdst |].
  exists dst'. split; [exact Hrun |]. split; [exact Hlen |]. split.
  - intros j Hj. apply Hin. lia.
  - intros x Hx. apply Hout. lia.
Qed.

Lemma half_length (n len : nat) :
  (n <= len)%nat -> (2 * Nat.div n 2 <= len)%nat.
Proof. intros H. pose proof (Nat.Div0.mul_div_le n 2). lia. Qed.

(** X2. A stereo chunk of fewer than [AUDIO_BUFFER] frames slides the ring:
    the ring keeps its size, its oldest [frames] values are dropped, the
    others move to the front in order, and the means of the chunk's frames
    follow them in order. *)
Theorem WriteToBuffer_short_chunk_slides (pcm input : list float) (n : nat) :
  length pcm = AUDIO_BUFFER ->
  (n <= length input)%nat ->
  (Nat.div n 2 < AUDIO_BUFFER)%nat ->
  let frames := Nat.div n 2 in
  let keep := (AUDIO_BUFFER - frames)%nat in
  exists pcm',
    WriteToBuffer pcm input n 2 = Ok pcm' /\
    length pcm' = AUDIO_BUFFER /\
    (forall j, (j < keep)%nat -> pcm' !! j = pcm !! (frames + j)%nat) /\
    (forall j, (j < frames)%nat ->
       exists a b,
         input !! (2 * j)%nat = Some a /\
         input !! (2 * j + 1)%nat = Some b /\
         pcm' !! (keep + j)%nat = Some (mean_of_two a b)).
Proof.
  intros Hlen Hn Hshort frames keep. unfold WriteToBuffer.
  rewrite decide_False by lia. cbv zeta. fold frames.
  replace (AUDIO_BUFFER <=? frames)%nat with false
    by (symmetry; apply Nat.leb_gt; exact Hshort).
  fold keep. unfold memmove_front. rewrite decide_True by (subst keep; lia).
  change (Ok ?x ≫= ?f) with (f x). cbv beta.
  set (moved := take keep (drop frames pcm) ++ drop keep pcm).
  assert (length moved = AUDIO_BUFFER) as Hmoved.
  { subst moved. rewrite length_app, length_take, !length_drop. lia. }
  pose proof ring_counter_small as Hring.
  destruct (Mix_stereo moved input keep 0 frames)
    as (pcm' & Hrun & Hlen' & Hin & Hout);
    [subst keep; lia | apply (half_length n); exact Hn | subst frames; lia |].
  exists pcm'. split; [exact Hrun |]. split; [lia |]. split.
  - intros j Hj. rewrite Hout by lia. subst moved.
    rewrite lookup_app_l by (rewrite length_take, length_drop; lia).
    rewrite lookup_take_lt by lia. apply lookup_drop.
  - intros j Hj. destruct (Hin j Hj) as (a & b & Ha & Hb & Hd).
    exists a, b. by repeat split.
Qed.

(** X3. A stereo chunk of at least [AUDIO_BUFFER] frames replaces the whole
    ring: slot [j] holds the mean of the samples at [offset + 2j] and
    [offset + 2j + 1], where [offset = frames - AUDIO_BUFFER] counts
    samples.  The reads stay inside the chunk. *)
Theorem WriteToBuffer_long_chunk_replaces (pcm input : list float) (n : nat) :
  length pcm = AUDIO_BUFFER ->
  (n <= length input)%nat ->
  (AUDIO_BUFFER <= Nat.div n 2)%nat ->
  let offset := (Nat.div n 2 - AUDIO_BUFFER)%nat in
  exists pcm',
    WriteToBuffer pcm input n 2 = Ok pcm' /\
    length pcm' = AUDIO_BUFFER /\
    (forall j, (j < AUDIO_BUFFER)%nat ->
       exists a b,
         input !! (offset + 2 * j)%nat = Some a /\
         input !! (offset + 2 * j + 1)%nat = Some b /\
         pcm' !! j = Some (mean_of_two a b)).
Proof.
  intros Hlen Hn Hlong offset. unfold WriteToBuffer.
  rewrite decide_False by lia. cbv zeta.
  replace (AUDIO_BUFFER <=? Nat.div n 2)%nat with true
    by (symmetry; apply Nat.leb_le; exact Hlong).
  fold offset. pose proof (half_length n _ Hn).
  destruct (Mix_stereo pcm input 0 offset AUDIO_BUFFER)
    as (pcm' & Hrun & Hlen' & Hin & _);
    [lia | subst offset; lia | exact ring_counter_small |].
  exists pcm'. split; [exact Hrun |]. split; [lia |].
  intros j Hj. destruct (Hin j Hj) as (a & b & Ha & Hb & Hd).
  exists a, b. by repeat split.
Qed.

Lemma WriteToBuffer_stereo_defined (pcm input : list float) (n : nat) :
  length pcm = AUDIO_BUFFER ->
  (n <= length input)%nat ->
  exists pcm', WriteToBuffer pcm input n 2 = Ok pcm' /\
               length pcm' = AUDIO_BUFFER.
Proof.
  intros Hlen Hn. pose proof (half_length n _ Hn) as Hhalf.
  pose proof ring_counter_small as Hring.
  unfold WriteToBuffer. rewrite decide_False by lia. cbv zeta.
  set (frames := Nat.div n 2) in *.
  destruct (Nat.leb_spec AUDIO_BUFFER frames) as [Hlong | Hshort].
  - destruct (Mix_stereo pcm input 0 (frames - AUDIO_BUFFER) AUDIO_BUFFER)
      as (pcm' & Hrun & Hlen' & _); [lia | lia | exact Hring |].
    exists pcm'. split; [exact Hrun | lia].
  - unfold memmove_front. rewrite decide_True by lia.
    change (Ok ?x ≫= ?f) with (f x). cbv beta.
    set (moved := take _ _ ++ drop _ _).
    assert (length moved = AUDIO_BUFFER) as Hmoved.
    { subst moved. rewrite length_app, length_take, !length_drop. lia. }
    destruct (Mix_stereo moved input (AUDIO_BUFFER - frames) 0 frames)
      as (pcm' & Hrun & Hlen' & _); [lia | lia | lia |].
    exists pcm'. split; [exact Hrun | lia].
Qed.

End RingFacts.

(** ** Bounds and bytes of the analysis *)

Lemma bands_halve : (NUM_BANDS + NUM_BANDS)%nat = AUDIO_BUFFER.
Proof. reflexivity. Qed.

Lemma clamp_byte_range (v : Z) : 0 <= clamp_byte v <= 255.
Proof. unfold clamp_byte, UCHAR_MAX. lia. Qed.

(** A loop whose passes keep an invariant [P] and fail only with the
    errors [E] does so as a whole. *)
Lemma for_range_safe {St} (P : St -> Prop) (E : UB -> Prop)
    (body : nat -> St -> result St) (hi : nat) :
  (forall i s, (i < hi)%nat -> P s ->
     match body i s with Ok s' => P s' | Undefined u => E u end) ->
  forall n start s,
    (start + n <= hi)%nat -> P s ->
    match for_range start n body s with Ok s' => P s' | Undefined u => E u end.
Proof.
  intros Hbody n. induction n as [|n IH]; intros start s Hhi Hs; cbn [for_range].
  - exact Hs.
  - specialize (Hbody start s ltac:(lia) Hs).
    destruct (body start s) as [s'|u]; [| exact Hbody].
    change (Ok s' ≫= ?f) with (f s'). cbv beta. apply IH; [lia | exact Hbody].
Qed.

Section AnalysisBounds.
Context {A : CArith}.
Variable host : Host.
Variable cos : double -> double.
Variable log10f : float -> float.
Variable kiss_fft : list kiss_fft_cpx -> nat -> kiss_fft_cpx.

Lemma waveform_loop_lookup pcm data data' k :
  for_range 0 NUM_BANDS (fun i data =>
      x ← load pcm i;
      b ← waveform_byte x;
      store data (i + NUM_BANDS) b) data = Ok data' ->
  (k < NUM_BANDS)%nat ->
  exists x b,
    pcm !! k = Some x /\ waveform_byte x = Ok b /\
    data' !! (NUM_BANDS + k)%nat = Some b.
Proof.
  intros H Hk.
  eapply (for_range_writes _ NUM_BANDS
            (fun i _ => x ← load pcm i; waveform_byte x)) in H.
  - destruct H as (_ & Hin & _). destruct (Hin k) as (b & Hb & Hout); [lia |].
    inv_bind Hb. apply load_Ok in Ha. eauto.
  - intros i b. rewrite (Nat.add_comm NUM_BANDS i).
    destruct (load pcm i) as [x|]; [| done].
    change (Ok x ≫= ?f) with (f x). cbv beta.
    by destruct (waveform_byte x).
Qed.

Lemma AudioData_stages pAudioData n o o' :
  AudioData cos log10f kiss_fft host pAudioData n o = Ok o' ->
  exists pcm mag data1 data,
    for_range 0 NUM_BANDS (fun i data =>
        linearValue ← load mag i;
        b ← spectrum_byte log10f linearValue;
        store data i b) (m_audioData o) = Ok data1 /\
    for_range 0 NUM_BANDS (fun i data =>
        x ← load pcm i;
        b ← waveform_byte x;
        store data (i + NUM_BANDS) b) data1 = Ok data /\
    o' = set_m_needsUpload true
           (set_m_audioData data (set_m_magnitudeBuffer mag (set_m_pcm pcm o))).
Proof.
  unfold AudioData. intros H.
  inv_bind H. inv_bind H. inv_bind H. inv_bind H. inv_bind H. inv_bind H.
  apply Ok_inj in H. exists a, a2, a3, a4. by repeat split.
Qed.

(** X4. The second half of the output buffer is the waveform: for every
    [k < NUM_BANDS], entry [NUM_BANDS + k] holds [(m_pcm[k] + 1) * 128] of
    the ring as just updated, truncated to an [int] and clamped to
    [[0, 255]]. *)
Theorem AudioData_waveform_bytes pAudioData n o o' :
  AudioData cos log10f kiss_fft host pAudioData n o = Ok o' ->
  forall k, (k < NUM_BANDS)%nat ->
    exists x v,
      m_pcm o' !! k = Some x /\
      f_to_int (f_mul (f_add x (f_of_Z 1)) (f_of_Z 128)) = Some v /\
      m_audioData o' !! (NUM_BANDS + k)%nat = Some (Z.max (Z.min v 255) 0).
Proof.
  intros H k Hk.
  apply AudioData_stages in H as (pcm & mag & data1 & data & _ & H2 & ->).
  destruct (waveform_loop_lookup _ _ _ k H2 Hk) as (x & b & Hx & Hb & Hd).
  unfold waveform_byte in Hb. inv_bind Hb. apply Ok_inj in Hb. subst b.
  unfold cast in Ha. destruct (f_to_int _) as [v|] eqn:Hv; [| discriminate].
  apply Ok_inj in Ha. subst a. exists x, v. by repeat split.
Qed.

(** X5. A call of the analysis that is defined writes only the ring, the
    magnitudes, the output buffer and the upload flag, which it sets; and
    afterwards each of the [AUDIO_BUFFER] entries of the output buffer is a
    byte, whatever the buffer held before. *)
Theorem AudioData_writes_bytes pAudioData n o o' :
  AudioData cos log10f kiss_fft host pAudioData n o = Ok o' ->
  o' = set_m_needsUpload true
         (set_m_audioData (m_audioData o')
            (set_m_magnitudeBuffer (m_magnitudeBuffer o')
               (set_m_pcm (m_pcm o') o))) /\
  length (m_audioData o') = length (m_audioData o) /\
  forall i, (i < AUDIO_BUFFER)%nat ->
    exists b, m_audioData o' !! i = Some b /\ 0 <= b <= 255.
Proof.
  intros H.
  apply AudioData_stages in H as (pcm & mag & data1 & data & H1 & H2 & ->).
  split; [reflexivity |]. cbn.
  pose proof H2 as H2'.
  eapply (for_range_writes _ NUM_BANDS
            (fun i _ => x ← load pcm i; waveform_byte x)) in H2'.
  2:{ intros i b. rewrite (Nat.add_comm NUM_BANDS i).
      destruct (load pcm i) as [x|]; [| done].
      change (Ok x ≫= ?f) with (f x). cbv beta.
      by destruct (waveform_byte x). }
  destruct H2' as (L2 & _ & Hout).
  pose proof H1 as H1'.
  eapply (for_range_writes _ 0
            (fun i _ => linearValue ← load mag i;
                        spectrum_byte log10f linearValue)) in H1'.
  2:{ intros i b. simpl. destruct (load mag i); simpl; [| done].
      by destruct (spectrum_byte log10f a). }
  destruct H1' as (L1 & _ & _).
  split; [congruence |]. intros i Hi. rewrite <- bands_halve in Hi.
  destruct (Nat.lt_ge_cases i NUM_BANDS) as [Hlo | Hhi].
  - destruct (spectrum_loop_lookup log10f _ _ _ i H1 Hlo) as (x & b & _ & Hb & Hd).
    exists b. rewrite Hout by lia. split; [exact Hd |].
    unfold spectrum_byte in Hb. inv_bind Hb. apply Ok_inj in Hb. subst b.
    apply clamp_byte_range.
  - destruct (waveform_loop_lookup _ _ _ (i - NUM_BANDS) H2)
      as (x & b & _ & Hb & Hd); [lia |].
    replace (NUM_BANDS + (i - NUM_BANDS))%nat with i in Hd by lia.
    exists b. split; [exact Hd |].
    unfold waveform_byte in Hb. inv_bind Hb. apply Ok_inj in Hb. subst b.
    apply clamp_byte_range.
Qed.

Lemma fft_input_defined (pcm : list float) :
  length pcm = AUDIO_BUFFER -> exists input, fft_input cos pcm = Ok input.
Proof.
  intros Hlen. unfold fft_input.
  pose proof (for_range_safe (fun _ : list kiss_fft_cpx => True)
                (fun _ => False)
                (fun i acc =>
                   x ← load pcm i;
                   Ok (acc ++ [Cpx (BlackmanWindow cos x i AUDIO_BUFFER)
                                   (f_of_Z 0)]))
                AUDIO_BUFFER) as H.
  specialize (H ltac:(
    intros i s Hi _; unfold load;
    destruct (lookup_lt_is_Some_2 pcm i ltac:(lia)) as [x ->]; exact I)).
  specialize (H AUDIO_BUFFER 0%nat [] ltac:(lia) I).
  destruct (for_range _ _ _ _) as [input|u]; [eauto | contradiction].
Qed.

Lemma fft_output_defined (input : list kiss_fft_cpx) :
  exists out, fft_output kiss_fft input = Ok out /\ length out = AUDIO_BUFFER.
Proof.
  unfold fft_output. cbv zeta.
  set (out := map (kiss_fft input) (seq 0 AUDIO_BUFFER)).
  assert (length out = AUDIO_BUFFER) as Hlen
    by (subst out; by rewrite length_map, length_seq).
  assert (0 < AUDIO_BUFFER)%nat as Hpos by (unfold AUDIO_BUFFER; lia).
  destruct (lookup_lt_is_Some_2 out 0) as [c Hc]; [lia |].
  unfold load. rewrite Hc. change (Ok c ≫= ?f) with (f c). cbv beta.
  unfold store. rewrite decide_True by lia.
  eexists. split; [reflexivity |]. by rewrite length_insert.
Qed.

Lemma SmoothingOverTime_defined buffer input c :
  length buffer = NUM_BANDS ->
  length input = AUDIO_BUFFER ->
  exists mag,
    SmoothingOverTime buffer input NUM_BANDS c AUDIO_BUFFER = Ok mag /\
    length mag = NUM_BANDS.
Proof.
  intros Hb Hi. unfold SmoothingOverTime.
  pose proof (for_range_safe (fun buf : list float => length buf = NUM_BANDS)
                (fun _ => False)
                (fun i buf =>
                   b ← load input i;
                   last ← load buf i;
                   store buf i (smooth c last (magnitude b AUDIO_BUFFER)))
                NUM_BANDS) as H.
  pose proof bands_halve as Hh.
  specialize (H ltac:(
    intros i s Hlt Hs; cbv beta in Hs |- *; unfold load;
    destruct (lookup_lt_is_Some_2 input i ltac:(lia)) as [x ->];
    change (Ok x ≫= ?f) with (f x); cbv beta;
    destruct (lookup_lt_is_Some_2 s i ltac:(lia)) as [y ->];
    change (Ok y ≫= ?f) with (f y); cbv beta;
    unfold store; rewrite decide_True by lia; by rewrite length_insert)).
  specialize (H NUM_BANDS 0%nat buffer ltac:(lia) Hb).
  destruct (for_range _ _ _ _) as [mag|u]; [eauto | contradiction].
Qed.

Lemma spectrum_loop_safe (mag : list float) (data : list Z) :
  length mag = NUM_BANDS ->
  length data = AUDIO_BUFFER ->
  match for_range 0 NUM_BANDS (fun i data =>
            linearValue ← load mag i;
            b ← spectrum_byte log10f linearValue;
            store data i b) data with
  | Ok data' => length data' = AUDIO_BUFFER
  | Undefined u => u = BadCast
  end.
Proof.
  intros Hm Hd. pose proof bands_halve as Hh.
  apply (for_range_safe (fun d : list Z => length d = AUDIO_BUFFER)
           (fun u => u = BadCast) _ NUM_BANDS); [| lia | exact Hd].
  intros i s Hi Hs. cbv beta in Hs |- *. unfold load.
  destruct (lookup_lt_is_Some_2 mag i ltac:(lia)) as [x ->].
  change (Ok x ≫= ?f) with (f x). cbv beta.
  unfold spectrum_byte, cast. destruct (d_to_int _) as [v|]; [| reflexivity].
  change (Ok v ≫= ?f) with (f v). cbv beta.
  change (Ok ?y ≫= ?f) with (f y). cbv beta. unfold store. rewrite decide_True by lia. by rewrite length_insert.
Qed.

Lemma waveform_loop_safe (pcm : list float) (data : list Z) :
  length pcm = AUDIO_BUFFER ->
  length data = AUDIO_BUFFER ->
  match for_range 0 NUM_BANDS (fun i data =>
            x ← load pcm i;
            b ← waveform_byte x;
            store data (i + NUM_BANDS) b) data with
  | Ok data' => length data' = AUDIO_BUFFER
  | Undefined u => u = BadCast
  end.
Proof.
  intros Hp Hd. pose proof bands_halve as Hh.
  apply (for_range_safe (fun d : list Z => length d = AUDIO_BUFFER)
           (fun u => u = BadCast) _ NUM_BANDS); [| lia | exact Hd].
  intros i s Hi Hs. cbv beta in Hs |- *. unfold load.
  destruct (lookup_lt_is_Some_2 pcm i ltac:(lia)) as [x ->].
  change (Ok x ≫= ?f) with (f x). cbv beta.
  unfold waveform_byte, cast. destruct (f_to_int _) as [v|]; [| reflexivity].
  change (Ok v ≫= ?f) with (f v). cbv beta.
  change (Ok ?y ≫= ?f) with (f y). cbv beta. unfold store. rewrite decide_True by lia. by rewrite length_insert.
Qed.

(** The conversion to [size_t] does not enlarge a length that is not
    negative. *)
Lemma to_size_t_le (bits n : Z) : 0 <= n -> 0 <= to_size_t bits n <= n.
Proof.
  intros Hn. unfold to_size_t, wrap.
  pose proof (Z.pow_nonneg 2 bits ltac:(lia)) as Hpow.
  destruct (Z.eq_dec (2 ^ bits) 0) as [-> | Hne].
  - rewrite Z.mod_0_r. lia.
  - pose proof (Z.mod_pos_bound n (2 ^ bits) ltac:(lia)).
    pose proof (Z.mod_le n (2 ^ bits) Hn ltac:(lia)). lia.
Qed.

Lemma AudioData_safe pAudioData n o :
  buffers_sized o ->
  0 <= n <= Z.of_nat (length pAudioData) ->
  match AudioData cos log10f kiss_fft host pAudioData n o with
  | Ok o' => buffers_sized o'
  | Undefined u => u = BadCast
  end.
Proof.
  intros (Hp & Hm & Hd) Hn. unfold AudioData.
  pose proof (to_size_t_le (SIZE_BITS host) n ltac:(lia)) as Hsz.
  destruct (WriteToBuffer_stereo_defined (m_pcm o) pAudioData
              (Z.to_nat (to_size_t (SIZE_BITS host) n)) Hp ltac:(lia))
    as (pcm & -> & Lp).
  change (Ok pcm ≫= ?f) with (f pcm). cbv beta.
  destruct (fft_input_defined pcm Lp) as (input & ->).
  change (Ok input ≫= ?f) with (f input). cbv beta.
  destruct (fft_output_defined input) as (out & -> & Lo).
  change (Ok out ≫= ?f) with (f out). cbv beta.
  destruct (SmoothingOverTime_defined (m_magnitudeBuffer o) out
              (d_to_f SMOOTHING_TIME_CONSTANT) Hm Lo) as (mag & -> & Lm).
  change (Ok mag ≫= ?f) with (f mag). cbv beta.
  pose proof (spectrum_loop_safe mag (m_audioData o) Lm Hd) as H1.
  destruct (for_range 0 NUM_BANDS _ (m_audioData o)) as [data1|u];
    [| exact H1].
  change (Ok data1 ≫= ?f) with (f data1). cbv beta.
  pose proof (waveform_loop_safe pcm data1 Lp H1) as H2.
  destruct (for_range 0 NUM_BANDS _ data1) as [data|u]; [| exact H2].
  by repeat split.
Qed.

(** X6. Memory safety of the analysis. On an object whose three buffers
    have the sizes the constructor allocates, a sequence of [AudioData]
    calls, each with an [int] length argument that is not negative and does
    not exceed the samples passed, never reads or writes outside a buffer
    and never divides by zero: it is defined and keeps the buffer sizes,
    unless a cast of a [float] or [double] to [int] is out of range. *)
Theorem AudioData_stream_stays_in_bounds (ops : list Op) (w : World) :
  Forall chunk_in_bounds ops ->
  buffers_sized (self w) ->
  match run cos log10f kiss_fft host ops w with
  | Ok w' => buffers_sized (self w')
  | Undefined u => u = BadCast
  end.
Proof.
  intros Hops. revert w.
  induction Hops as [|op ops Hop Hops IH]; intros w Hw; [exact Hw |].
  destruct op as [| | | samples n | | | | |]; try contradiction.
  cbn [run step].
  pose proof (AudioData_safe samples n (self w) Hw Hop) as H.
  destruct (AudioData _ _ _ _ samples n (self w)) as [o'|u]; [| exact H].
  change (Ok o' ≫= ?f) with (f o'). cbv beta.
  change (Ok ?x ≫= ?f) with (f x). cbv beta.
  apply IH. exact H.
Qed.

(** The constructor allocates the buffers with these sizes. *)
Lemma constructor_buffers_sized (header : CVisualizationMatrix) :
  buffers_sized (constructor host header).
Proof.
  unfold buffers_sized. repeat split; apply length_replicate.
Qed.

End AnalysisBounds.

(** ** The lifecycle: launch, navigation, stop *)

Ltac kept_cases :=
  unfold CreateTexture_file, CreateTexture_image, CreateTexture_data,
    glGenTextures, glGenFramebuffers, now;
  cbv beta iota zeta;
  repeat match goal with
    | |- context [decide ?P] => destruct (decide P)
    | |- context [match ?x with (_, _) => _ end] => destruct x eqn:?
    | |- context [if ?b then _ else _] => destruct b eqn:?
    end.

Ltac kept_done := unfold settings_kept; repeat split; reflexivity.

Section LifecycleFacts.
Context {A : CArith}.
Variable host : Host.

Lemma settings_kept_refl (w : World) : settings_kept w w.
Proof. by repeat split. Qed.

Lemma settings_kept_trans (w1 w2 w3 : World) :
  settings_kept w1 w2 -> settings_kept w2 w3 -> settings_kept w1 w3.
Proof.
  unfold settings_kept. intros (?&?&?&?&?&?&?) (?&?&?&?&?&?&?).
  repeat split; congruence.
Qed.

Lemma foldl_kept {B} (f : World -> B -> World) (l : list B) :
  (forall w b, settings_kept w (f w b)) ->
  forall w, settings_kept w (foldl f w l).
Proof.
  intros Hf. induction l as [|b l IH]; intros w; simpl.
  - apply settings_kept_refl.
  - eapply settings_kept_trans; [apply Hf | apply IH].
Qed.

Lemma UnloadTextures_kept (w : World) : settings_kept w (UnloadTextures w).
Proof. apply foldl_kept. intros w' i. kept_cases; kept_done. Qed.

Lemma UnloadPreset_kept (w : World) : settings_kept w (UnloadPreset w).
Proof. unfold UnloadPreset. kept_cases; kept_done. Qed.

Lemma LoadPreset_shader_kept path (w : World) :
  settings_kept w (LoadPreset_shader host path w).
Proof.
  unfold LoadPreset_shader.
  pose proof (UnloadPreset_kept w) as Hq.
  set (w1 := UnloadPreset w) in *. clearbody w1.
  eapply settings_kept_trans; [exact Hq |]. kept_cases; kept_done.
Qed.

Lemma CreateTexture_file_kept path (w : World) :
  settings_kept w (snd (CreateTexture_file host path w)).
Proof.
  unfold CreateTexture_file. destruct (stbi_load host path); kept_done.
Qed.

Lemma load_channel_kept i (w : World) :
  settings_kept w (load_channel host i w).
Proof.
  unfold load_channel. cbv zeta. case_decide; [kept_done |].
  pose proof (CreateTexture_file_kept
                (texture (m_shaderTextures (self w) i)) w) as Hq.
  destruct (CreateTexture_file _ _ _) as [h w1]. simpl in Hq.
  eapply settings_kept_trans; [exact Hq | kept_done].
Qed.

Lemma Launch_textures_kept (w : World) :
  settings_kept w (Launch_textures host w).
Proof.
  unfold Launch_textures.
  destruct (CreateTexture_data host (m_audioData (self w)) w) as [h w0] eqn:E.
  assert (settings_kept w w0) as H0.
  { unfold CreateTexture_data, glGenTextures in E. cbv beta iota zeta in E.
    apply (f_equal snd) in E. simpl in E. subst w0. kept_done. }
  cbv zeta.
  eapply settings_kept_trans; [exact H0 |].
  eapply settings_kept_trans; [| apply load_channel_kept].
  eapply settings_kept_trans; [| apply load_channel_kept].
  eapply settings_kept_trans; [| apply load_channel_kept].
  kept_done.
Qed.

Lemma RenderTo_kept shader fb (w w' : World) :
  RenderTo host shader fb w = Ok w' -> settings_kept w w'.
Proof.
  unfold RenderTo. intros H. inv_bind H. apply Ok_inj in H. subst w'.
  eapply settings_kept_trans;
    [| apply foldl_kept; intros w1 i; kept_done].
  case_decide.
  - unfold now in Ha. cbv beta iota zeta in Ha. inv_bind Ha.
    apply Ok_inj in Ha. subst a. unfold RenderTo_effect. cbv zeta.
    eapply settings_kept_trans;
      [| apply foldl_kept; intros w1 i; kept_done].
    match goal with |- settings_kept _ (emit _ ?x) =>
      apply (settings_kept_trans _ x); [| kept_done] end.
    destruct (m_needsUpload _); [| kept_done].
    match goal with |- settings_kept _ (on_self _ ?x) =>
      apply (settings_kept_trans _ x); [| kept_done] end.
    match goal with |- settings_kept _ (upload_audio ?x) =>
      apply (settings_kept_trans _ x); [kept_done |] end.
    apply foldl_kept. intros w1 i. kept_cases; kept_done.
  - apply Ok_inj in Ha. subst a. kept_done.
Qed.

(** The counting loop of the probe: each unit counted needs a zero byte
    followed by a non-zero one. *)
Lemma count_rows_bound (buffer : nat -> Z) (fw : Z) (l : list nat) :
  forall bits b k,
    0 <= bits -> (b = 0 -> 2 * bits <= k) -> 2 * bits <= k + 1 ->
    let r := foldl (fun acc j => count_row buffer fw j acc) (bits, b) l in
    0 <= fst r /\ 2 * fst r <= k + Z.of_nat (length l) + 1.
Proof.
  set (f := fun acc j => count_row buffer fw j acc).
  induction l as [|j l IH]; intros bits b k H0 Hz Hn; cbn [foldl length].
  - cbv zeta. cbn [fst]. split; lia.
  - cbv zeta in IH |- *.
    destruct (f (bits, b) j) as [bits' b'] eqn:E.
    unfold f, count_row in E. cbv zeta in E.
    destruct (IH bits' b' (k + 1)) as [I1 I2].
    + case_decide; injection E as <- <-; lia.
    + intros Hb'. case_decide as Hd; injection E as <- <-.
      * destruct Hd as [Hc _]. contradiction.
      * destruct (decide (b = 0)); lia.
    + case_decide as Hd; injection E as <- <-; [destruct Hd as [_ Hb] |]; lia.
    + split; [exact I1 | lia].
Qed.

Lemma DetermineBitsPrecision_range (w w' : World) (bits : Z) :
  DetermineBitsPrecision host w = Ok (bits, w') -> 0 <= bits <= 130.
Proof.
  unfold DetermineBitsPrecision. cbv zeta. intros H. inv_bind H.
  apply RenderTo_kept in Ha as (_ & _ & _ & Hh & _).
  match type of Hh with _ = fbheight (m_state (self (LoadPreset_shader _ ?p ?x))) =>
    destruct (LoadPreset_shader_kept p x) as (_ & _ & _ & Hh' & _) end.
  rewrite Hh' in Hh. cbn in Hh.
  match type of H with context [foldl _ _ (seq 0 (Z.to_nat ?n))] =>
    replace n with 260 in H by (cbn; symmetry; exact Hh);
    pose proof (count_rows_bound (glReadPixels host (readbacks a))
                  (fbwidth (m_state (self a))) (seq 0 (Z.to_nat 260)) 0 0 0
                  ltac:(lia) ltac:(lia) ltac:(lia)) as Hb
  end.
  cbv zeta in Hb. rewrite length_seq in Hb.
  cbn [m_state self set_readbacks fbwidth] in H.
  destruct (foldl _ _ _) as [n b] in H, Hb. apply Ok_inj in H.
  injection H as <- _. cbn [fst] in Hb. lia.
Qed.

Lemma Launch_Ok_index preset (w w' : World) :
  Launch host preset w = Ok w' -> preset < Z.of_nat (length g_presets).
Proof.
  intros H. apply Launch_inv in H
    as (bits & w1 & w2 & w3 & w4 & w5 & _ & _ & Hc & _).
  unfold Launch_channels in Hc.
  destruct (Z.ltb_spec preset 0) as [Hneg | Hpos]; [cbn; lia |].
  inv_bind Hc. apply load_Ok in Ha. apply lookup_lt_Some in Ha. lia.
Qed.

(** X7. The probe counts at most 130 units, so after [Launch] the bit
    width lies between 13 and 130; and [Launch] leaves the offscreen
    framebuffer with the size of the window. *)
Theorem Launch_bit_width_and_size preset (w w' : World) :
  Launch host preset w = Ok w' ->
  13 <= m_bitsPrecision (self w') <= 130 /\
  fbwidth (m_state (self w')) = Width host /\
  fbheight (m_state (self w')) = Height host.
Proof.
  intros H.
  apply Launch_inv in H
    as (bits & w1 & w2 & w3 & w4 & w5 & Ha & E2 & Hc & E4 & E5 & E6).
  apply DetermineBitsPrecision_range in Ha.
  pose proof (UnloadTextures_quiet
                (on_self (set_m_bitsPrecision (Z.max bits 13)) w1)) as [K2 _].
  rewrite <- E2 in K2. destruct K2 as (_ & _ & _ & B2 & _). cbn in B2.
  apply Launch_channels_Ok, descriptors_set_fields in Hc
    as (_ & _ & _ & B3 & _).
  pose proof (Launch_textures_quiet host w3) as [K4 _].
  rewrite <- E4 in K4. destruct K4 as (_ & _ & _ & B4 & _).
  assert (m_bitsPrecision (self w5) = m_bitsPrecision (self w4) /\
          fbwidth (m_state (self w5)) = Width host /\
          fbheight (m_state (self w5)) = Height host) as (B5 & W5 & H5)
    by (by rewrite E5).
  pose proof (LoadPreset_shader_quiet host (m_usedShaderFile (self w5)) w5)
    as [K6 _].
  pose proof (LoadPreset_shader_kept (m_usedShaderFile (self w5)) w5)
    as (_ & _ & W6 & H6 & _).
  rewrite <- E6 in K6, W6, H6. destruct K6 as (_ & _ & _ & B6 & _).
  split; [| split; congruence].
  replace (m_bitsPrecision (self w')) with (Z.max bits 13) by congruence. lia.
Qed.

(** X8. [Launch] with a negative preset takes the user's shader set from
    the settings: when it returns, the shader file and the four channel
    descriptors are as the settings give them. *)
Theorem Launch_custom_shader_set preset (w w' : World) :
  preset < 0 ->
  Launch host preset w = Ok w' ->
  m_usedShaderFile (self w') = GetSettingString host "shader" /\
  m_shaderTextures (self w') 0
    = {| audio := GetSettingBoolean host "texture0-sound";
         texture := GetSettingString host "texture0" |} /\
  m_shaderTextures (self w') 1
    = {| audio := GetSettingBoolean host "texture1-sound";
         texture := GetSettingString host "texture1" |} /\
  m_shaderTextures (self w') 2
    = {| audio := GetSettingBoolean host "texture2-sound";
         texture := GetSettingString host "texture2" |} /\
  m_shaderTextures (self w') 3
    = {| audio := GetSettingBoolean host "texture3-sound";
         texture := GetSettingString host "texture3" |}.
Proof.
  intros Hneg H.
  - apply Launch_inv in H
      as (bits & w1 & w2 & w3 & w4 & w5 & _ & _ & Hc & E4 & E5 & E6).
    unfold Launch_channels in Hc.
    replace (preset <? 0) with true in Hc by (symmetry; apply Z.ltb_lt; lia).
    cbv zeta in Hc. apply Ok_inj in Hc.
    assert (m_usedShaderFile (self w3) = GetSettingString host "shader" /\
            m_shaderTextures (self w3) 0
              = {| audio := GetSettingBoolean host "texture0-sound";
                   texture := GetSettingString host "texture0" |} /\
            m_shaderTextures (self w3) 1
              = {| audio := GetSettingBoolean host "texture1-sound";
                   texture := GetSettingString host "texture1" |} /\
            m_shaderTextures (self w3) 2
              = {| audio := GetSettingBoolean host "texture2-sound";
                   texture := GetSettingString host "texture2" |} /\
            m_shaderTextures (self w3) 3
              = {| audio := GetSettingBoolean host "texture3-sound";
                   texture := GetSettingString host "texture3" |})
      as (F3 & T0 & T1 & T2 & T3) by (by rewrite <- Hc).
    clear Hc.
    pose proof (Launch_textures_quiet host w3) as [K4 _].
    pose proof (Launch_textures_kept w3) as (F4 & _).
    rewrite <- E4 in K4, F4. destruct K4 as (_ & _ & _ & _ & S4 & _).
    assert (m_usedShaderFile (self w5) = m_usedShaderFile (self w4) /\
            m_shaderTextures (self w5) = m_shaderTextures (self w4))
      as [F5 S5] by (by rewrite E5).
    pose proof (LoadPreset_shader_quiet host (m_usedShaderFile (self w5)) w5)
      as [K6 _].
    pose proof (LoadPreset_shader_kept (m_usedShaderFile (self w5)) w5)
      as (F6 & _).
    rewrite <- E6 in K6, F6. destruct K6 as (_ & _ & _ & _ & S6 & _).
    rewrite S6, S5, S4. repeat split; [congruence | done..].
Qed.

(** X9. The constructor takes the current preset from the setting
    [lastpresetidx] unchecked; when no custom shader set is configured and
    the stored index is not below the size of the catalog, [Start] is
    undefined. *)
Theorem Start_trusts_the_stored_index header rate (w : World) :
  self w = constructor host header ->
  GetSettingBoolean host "ownshader" = false ->
  Z.of_nat (length g_presets) <= GetSettingInt host "lastpresetidx" ->
  m_currentPreset (self w) = GetSettingInt host "lastpresetidx" /\
  exists u, Start host rate w = Undefined u.
Proof.
  intros Hself Hown Hidx.
  assert (m_currentPreset (self w) = GetSettingInt host "lastpresetidx") as Hcur.
  { rewrite Hself. unfold constructor. cbn. by rewrite Hown. }
  split; [exact Hcur |].
  unfold Start. cbv zeta.
  destruct (Launch host _ _) as [w'|u] eqn:E; [| by exists u].
  apply Launch_Ok_index in E.
  change (m_currentPreset (self (on_self _ w)))
    with (m_currentPreset (self w)) in E.
  rewrite Hcur in E. lia.
Qed.

(** *** Preset navigation *)

Lemma to_int32_id (z : Z) : - 2 ^ 31 <= z < 2 ^ 31 -> to_int32 z = z.
Proof.
  intros Hz. unfold to_int32, wrap. rewrite Z.mod_small; lia.
Qed.

Lemma mod_presets_parity (x : Z) :
  0 < SIZE_BITS host -> mod_presets host x = x mod 2.
Proof.
  intros Hbits. unfold mod_presets, to_size_t, wrap.
  change (Z.of_nat (length g_presets)) with 2.
  rewrite Z.mod_mod_divide.
  - pose proof (Z.mod_pos_bound x 2). apply to_int32_small. lia.
  - exists (2 ^ (SIZE_BITS host - 1)).
    rewrite Z.mul_comm, <- Z.pow_succ_r by lia. f_equal. lia.
Qed.

Lemma switch_to_persists index (w w' : World) :
  switch_to host index w = Ok w' ->
  m_currentPreset (self w') = index /\
  lastpresetidx w' = index /\
  m_settingsUseOwnshader (self w') = m_settingsUseOwnshader (self w).
Proof.
  unfold switch_to. cbv zeta. intros H. inv_bind H. apply Ok_inj in H.
  apply Launch_Ok in Ha as (_ & O & C & _). subst w'.
  change (m_currentPreset (self (on_self _ w))) with index in C.
  repeat split; [exact C | cbn; exact C | exact O].
Qed.

Lemma GetPresets_catalog presets (w : World) :
  m_settingsUseOwnshader (self w) = false ->
  GetPresets presets w = presets ++ ["Kodi"; "Album"].
Proof.
  intros Hown. unfold GetPresets. rewrite Hown. cbn [foldl g_presets name].
  by rewrite <- app_assoc.
Qed.

(** X10. Without a custom shader set, [LoadPreset(select)] that is defined
    makes the current preset [select mod 2], the non-negative remainder,
    for every [select], negative ones included, and stores that index in
    the setting [lastpresetidx]; it is an index into the names
    [GetPresets] returns. *)
Theorem LoadPreset_selects_modulo select (w w' : World) :
  0 < SIZE_BITS host ->
  m_settingsUseOwnshader (self w) = false ->
  LoadPreset host select w = Ok w' ->
  GetActivePreset w' = select mod 2 /\
  lastpresetidx w' = select mod 2 /\
  GetPresets [] w' = ["Kodi"; "Album"] /\
  is_Some (GetPresets [] w' !! Z.to_nat (GetActivePreset w')).
Proof.
  intros Hbits Hown. unfold LoadPreset. rewrite Hown. intros H.
  apply switch_to_persists in H as (C & L & O).
  rewrite mod_presets_parity in C, L by exact Hbits.
  assert (GetPresets [] w' = ["Kodi"; "Album"]) as G
    by (apply (GetPresets_catalog []); congruence).
  unfold GetActivePreset. repeat split; [exact C | exact L | exact G |].
  rewrite G, C. pose proof (Z.mod_pos_bound select 2 ltac:(lia)).
  apply lookup_lt_is_Some_2. cbn. lia.
Qed.

(** X11. Without a custom shader set and from a current preset in the
    catalog, [NextPreset] followed by [PrevPreset] returns to the same
    preset, and so does [PrevPreset] followed by [NextPreset]. *)
Theorem NextPreset_PrevPreset_inverse (w w1 w2 : World) :
  0 < SIZE_BITS host ->
  m_settingsUseOwnshader (self w) = false ->
  0 <= m_currentPreset (self w) < Z.of_nat (length g_presets) ->
  (NextPreset host w = Ok w1 -> PrevPreset host w1 = Ok w2 ->
   m_currentPreset (self w2) = m_currentPreset (self w)) /\
  (PrevPreset host w = Ok w1 -> NextPreset host w1 = Ok w2 ->
   m_currentPreset (self w2) = m_currentPreset (self w)).
Proof.
  intros Hbits Hown Hcur. change (Z.of_nat (length g_presets)) with 2 in Hcur.
  assert (forall x, 0 <= x mod 2 < 2) as Hmod
    by (intros x; apply Z.mod_pos_bound; lia).
  split; intros H1 H2.
  - unfold NextPreset in H1. rewrite Hown in H1.
    apply switch_to_persists in H1 as (C1 & _ & O1).
    unfold PrevPreset in H2. rewrite O1, Hown in H2.
    apply switch_to_persists in H2 as (C2 & _).
    rewrite mod_presets_parity in C1, C2 by exact Hbits.
    rewrite to_int32_id in C1 by lia.
    rewrite to_int32_id in C2 by (specialize (Hmod (m_currentPreset (self w) + 1)); lia).
    rewrite C2, C1.
    assert (m_currentPreset (self w) = 0 \/ m_currentPreset (self w) = 1)
      as [-> | ->] by lia; reflexivity.
  - unfold PrevPreset in H1. rewrite Hown in H1.
    apply switch_to_persists in H1 as (C1 & _ & O1).
    unfold NextPreset in H2. rewrite O1, Hown in H2.
    apply switch_to_persists in H2 as (C2 & _).
    rewrite mod_presets_parity in C1, C2 by exact Hbits.
    rewrite to_int32_id in C1 by lia.
    rewrite to_int32_id in C2 by (specialize (Hmod (m_currentPreset (self w) - 1)); lia).
    rewrite C2, C1.
    assert (m_currentPreset (self w) = 0 \/ m_currentPreset (self w) = 1)
      as [-> | ->] by lia; reflexivity.
Qed.

Variable cos : double -> double.
Variable log10f : float -> float.
Variable kiss_fft : list kiss_fft_cpx -> nat -> kiss_fft_cpx.

(** X12. With a custom shader set configured the constructor sets the
    current preset to -1, and [NextPreset], [PrevPreset], [LoadPreset] and
    [RandomPreset] change nothing, in any number and order; [GetPresets]
    adds no name. *)
Theorem custom_shader_disables_navigation header (ops : list Op)
    (presets : list string) (w : World) :
  self w = constructor host header ->
  GetSettingBoolean host "ownshader" = true ->
  Forall navigates ops ->
  run cos log10f kiss_fft host ops w = Ok w /\
  GetActivePreset w = -1 /\
  GetPresets presets w = presets.
Proof.
  intros Hself Hset Hops.
  assert (m_settingsUseOwnshader (self w) = true) as Hown
    by (rewrite Hself; exact Hset).
  split; [| split].
  - induction Hops as [|op ops Hop Hops IH]; [reflexivity |].
    cbn [run].
    assert (step cos log10f kiss_fft host op w = Ok w) as ->.
    { destruct op; try contradiction; cbn [step];
        unfold NextPreset, PrevPreset, LoadPreset, RandomPreset;
        by rewrite Hown. }
    exact IH.
  - unfold GetActivePreset. rewrite Hself. unfold constructor. cbn.
    by rewrite Hset.
  - unfold GetPresets. by rewrite Hown.
Qed.

(** *** Stop *)

Lemma unload_channels_release (l : list nat) (w : World) :
  let w' :=
    foldl (fun w i =>
             let h := m_channelTextures (self w) i in
             if decide (h ≠ 0)
             then set_channel i 0 (glDeleteTextures h w) else w) w l in
  (forall x, x ∈ gl_textures (gl w') -> x ∈ gl_textures (gl w)) /\
  (forall i, i ∈ l -> m_channelTextures (self w) i <> 0 ->
             m_channelTextures (self w) i ∉ gl_textures (gl w')) /\
  gl_framebuffers (gl w') = gl_framebuffers (gl w).
Proof.
  revert w. induction l as [|j l IH]; intros w; cbv zeta.
  - split; [done | split; [| done]]. intros i Hi. by apply elem_of_nil in Hi.
  - cbn [foldl]. cbv zeta.
    match goal with |- context [foldl _ ?x l] => set (w1 := x) end.
    assert ((forall x, x ∈ gl_textures (gl w1) -> x ∈ gl_textures (gl w)) /\
            (m_channelTextures (self w) j <> 0 ->
             m_channelTextures (self w) j ∉ gl_textures (gl w1)) /\
            (forall i, i <> j ->
               m_channelTextures (self w1) i = m_channelTextures (self w) i) /\
            gl_framebuffers (gl w1) = gl_framebuffers (gl w))
      as (Hsub & Hgone & Hsame & Hfb).
    { subst w1. case_decide as Hh.
      - cbn. split; [| split; [| split; [| done]]].
        + intros x Hx. by apply list_elem_of_filter in Hx as [_ Hx].
        + intros _ Hin. by apply list_elem_of_filter in Hin as [Hne _].
        + intros i Hi. by rewrite fn_lookup_insert_ne.
      - split; [done | split; [| done]]. intros Hne. by destruct Hh. }
    clearbody w1. destruct (IH w1) as (Hsub' & Hgone' & Hfb').
    cbv zeta in Hsub', Hgone', Hfb'. split; [| split].
    + intros x Hx. by apply Hsub, Hsub'.
    + intros i Hi Hne. destruct (decide (i = j)) as [-> | Hij].
      * intros Hin. by apply (Hgone Hne), Hsub'.
      * apply elem_of_cons in Hi as [-> | Hi]; [done |].
        rewrite <- (Hsame i Hij) in *. by apply Hgone'.
    + by rewrite Hfb'.
Qed.

Lemma UnloadTextures_release (w : World) :
  (forall x, x ∈ gl_textures (gl (UnloadTextures w)) -> x ∈ gl_textures (gl w)) /\
  (forall i, (i < 4)%nat -> m_channelTextures (self w) i <> 0 ->
     m_channelTextures (self w) i ∉ gl_textures (gl (UnloadTextures w))) /\
  gl_framebuffers (gl (UnloadTextures w)) = gl_framebuffers (gl w).
Proof.
  destruct (unload_channels_release (seq 0 4) w) as (Hsub & Hgone & Hfb).
  split; [exact Hsub | split; [| exact Hfb]].
  intros i Hi. apply Hgone, elem_of_seq. lia.
Qed.

Lemma UnloadPreset_release (w : World) :
  m_channelTextures (self (UnloadPreset w)) = m_channelTextures (self w) /\
  (forall x, x ∈ gl_textures (gl (UnloadPreset w)) -> x ∈ gl_textures (gl w)) /\
  (framebuffer_texture (m_state (self w)) <> 0 ->
     framebuffer_texture (m_state (self w)) ∉ gl_textures (gl (UnloadPreset w))) /\
  (effect_fb (m_state (self w)) <> 0 ->
     effect_fb (m_state (self w)) ∉ gl_framebuffers (gl (UnloadPreset w))).
Proof.
  unfold UnloadPreset. cbv zeta.
  destruct (decide (framebuffer_texture (m_state (self w)) ≠ 0)) as [Ht | Ht].
  - cbn [on_state on_self self set_self m_state set_m_state effect_fb
         set_framebuffer_texture glDeleteTextures on_gl gl set_gl].
    destruct (decide (effect_fb (m_state (self w)) ≠ 0)) as [Hf | Hf]; cbn.
    + split; [done | split; [| split]].
      * intros x Hx. by apply list_elem_of_filter in Hx as [_ Hx].
      * intros _ Hin. by apply list_elem_of_filter in Hin as [Hne _].
      * intros _ Hin. by apply list_elem_of_filter in Hin as [Hne _].
    + split; [done | split; [| split]].
      * intros x Hx. by apply list_elem_of_filter in Hx as [_ Hx].
      * intros _ Hin. by apply list_elem_of_filter in Hin as [Hne _].
      * intros Hne. by destruct Hf.
  - destruct (decide (effect_fb (m_state (self w)) ≠ 0)) as [Hf | Hf]; cbn.
    + split; [done | split; [done | split]].
      * intros Hne. by destruct Ht.
      * intros _ Hin. by apply list_elem_of_filter in Hin as [Hne _].
    + split; [done | split; [done | split]]; intros Hne; contradiction.
Qed.

(** X13. [Stop] releases what the object holds: afterwards the object is
    not initialised, the four channel textures, the framebuffer texture and
    the framebuffer are zero, every name they held has been deleted, and no
    texture has been created. *)
Theorem Stop_releases_everything (w : World) :
  let w' := Stop w in
  m_initialized (self w') = false /\
  (forall i, (i < 4)%nat -> m_channelTextures (self w') i = 0) /\
  framebuffer_texture (m_state (self w')) = 0 /\
  effect_fb (m_state (self w')) = 0 /\
  (forall i, (i < 4)%nat -> m_channelTextures (self w) i <> 0 ->
     m_channelTextures (self w) i ∉ gl_textures (gl w')) /\
  (framebuffer_texture (m_state (self w)) <> 0 ->
     framebuffer_texture (m_state (self w)) ∉ gl_textures (gl w')) /\
  (effect_fb (m_state (self w)) <> 0 ->
     effect_fb (m_state (self w)) ∉ gl_framebuffers (gl w')) /\
  (forall x, x ∈ gl_textures (gl w') -> x ∈ gl_textures (gl w)).
Proof.
  cbv zeta. unfold Stop.
  pose proof (UnloadPreset_release (on_self (set_m_initialized false) w))
    as (C1 & S1 & G1 & B1).
  pose proof (UnloadPreset_zero (on_self (set_m_initialized false) w))
    as [F1 E1].
  pose proof (UnloadPreset_quiet (on_self (set_m_initialized false) w))
    as [(I1 & _) _].
  remember (UnloadPreset (on_self (set_m_initialized false) w)) as w1 eqn:E.
  clear E.
  destruct (UnloadTextures_spec w1) as [Z2 M2].
  destruct (UnloadTextures_quiet w1) as [(I2 & _) _].
  destruct (UnloadTextures_release w1) as (Hsub & Hgone & Hfb).
  change (m_channelTextures (self (on_self _ w)))
    with (m_channelTextures (self w)) in C1.
  change (gl (on_self (set_m_initialized false) w)) with (gl w) in S1.
  change (m_state (self (on_self (set_m_initialized false) w)))
    with (m_state (self w)) in G1, B1.
  change (m_initialized (self (on_self (set_m_initialized false) w)))
    with false in I1.
  split; [by rewrite I2, I1 |]. split; [exact Z2 |].
  split; [by rewrite M2 |]. split; [by rewrite M2 |].
  split; [| split; [| split]].
  - intros i Hi Hne. rewrite <- C1 in *. by apply Hgone.
  - intros Hne Hin. by apply (G1 Hne), Hsub.
  - intros Hne. rewrite Hfb. by apply B1.
  - intros x Hx. by apply S1, Hsub.
Qed.

Lemma Stop_fixed (w : World) :
  m_initialized (self w) = false ->
  (forall i, (i < 4)%nat -> m_channelTextures (self w) i = 0) ->
  framebuffer_texture (m_state (self w)) = 0 ->
  effect_fb (m_state (self w)) = 0 ->
  Stop w = w.
Proof.
  intros Hi Hc Hf He. unfold Stop.
  assert (on_self (set_m_initialized false) w = w) as ->.
  { destruct w as [o g t r rd l tr]. destruct o. cbn in Hi. subst.
    reflexivity. }
  assert (UnloadPreset w = w) as ->.
  { unfold UnloadPreset. cbv zeta. rewrite Hf.
    rewrite (decide_False (P := 0 ≠ 0)) by (intros E; by apply E).
    rewrite He.
    by rewrite (decide_False (P := 0 ≠ 0)) by (intros E; by apply E). }
  unfold UnloadTextures. change (seq 0 4) with [0; 1; 2; 3]%nat.
  cbn [foldl]. cbv zeta.
  rewrite (Hc 0%nat) by lia.
  rewrite (decide_False (P := 0 ≠ 0)) by (intros E; by apply E).
  rewrite (Hc 1%nat) by lia.
  rewrite (decide_False (P := 0 ≠ 0)) by (intros E; by apply E).
  rewrite (Hc 2%nat) by lia.
  rewrite (decide_False (P := 0 ≠ 0)) by (intros E; by apply E).
  rewrite (Hc 3%nat) by lia.
  by rewrite (decide_False (P := 0 ≠ 0)) by (intros E; by apply E).
Qed.

Lemma Stop_zero (w : World) :
  m_initialized (self (Stop w)) = false /\
  (forall i, (i < 4)%nat -> m_channelTextures (self (Stop w)) i = 0) /\
  framebuffer_texture (m_state (self (Stop w))) = 0 /\
  effect_fb (m_state (self (Stop w))) = 0.
Proof.
  unfold Stop.
  pose proof (UnloadPreset_zero (on_self (set_m_initialized false) w))
    as [F1 E1].
  pose proof (UnloadPreset_quiet (on_self (set_m_initialized false) w))
    as [(I1 & _) _].
  change (m_initialized (self (on_self (set_m_initialized false) w)))
    with false in I1.
  remember (UnloadPreset (on_self (set_m_initialized false) w)) as w1 eqn:E.
  clear E.
  destruct (UnloadTextures_spec w1) as [Z2 M2].
  destruct (UnloadTextures_quiet w1) as [(I2 & _) _].
  split; [by rewrite I2, I1 |]. split; [exact Z2 |].
  split; by rewrite M2.
Qed.

(** X14. [Stop] is idempotent, and after [Stop] a call of [Render] draws
    nothing and changes nothing. *)
Theorem Stop_is_idempotent (w : World) :
  Stop (Stop w) = Stop w /\ Render host (Stop w) = Ok (Stop w).
Proof.
  destruct (Stop_zero w) as (Hi & Hc & Hf & He). split.
  - by apply Stop_fixed.
  - unfold Render. by rewrite Hi.
Qed.

(** *** Album art *)

(** X15. [UpdateAlbumart] never deletes a texture: every texture in use
    before the call is in use after it, the one that the album slot held
    included, also when the slot is overwritten.  The other channels and
    the framebuffers are untouched. *)
Theorem UpdateAlbumart_never_deletes albumart (w : World) :
  let w' := snd (UpdateAlbumart host albumart w) in
  (forall h, h ∈ gl_textures (gl w) -> h ∈ gl_textures (gl w')) /\
  gl_framebuffers (gl w') = gl_framebuffers (gl w) /\
  (forall i, i <> 3%nat ->
     m_channelTextures (self w') i = m_channelTextures (self w) i) /\
  m_state (self w') = m_state (self w).
Proof.
  cbv zeta. unfold UpdateAlbumart. cbv zeta.
  assert (forall path,
            let r := CreateTexture_file host path w in
            (forall h, h ∈ gl_textures (gl w) ->
                       h ∈ gl_textures (gl (set_channel 3 (fst r) (snd r)))) /\
            gl_framebuffers (gl (set_channel 3 (fst r) (snd r)))
              = gl_framebuffers (gl w) /\
            (forall i, i <> 3%nat ->
               m_channelTextures (self (set_channel 3 (fst r) (snd r))) i
                 = m_channelTextures (self w) i) /\
            m_state (self (set_channel 3 (fst r) (snd r))) = m_state (self w))
    as Hfile.
  { intros path. cbv zeta. unfold CreateTexture_file.
    destruct (stbi_load host path).
    - unfold CreateTexture_image, glGenTextures. cbv beta iota zeta. cbn.
      repeat split.
      + intros h Hh. apply elem_of_cons. by right.
      + intros i Hi. by rewrite fn_lookup_insert_ne.
    - cbn. repeat split; [done |].
      intros i Hi. by rewrite fn_lookup_insert_ne. }
  destruct (FileExists host _); [| destruct (FileExists host _)];
    unfold snd at 1.
  - match goal with |- context [CreateTexture_file host ?p w] =>
      specialize (Hfile p); cbv zeta in Hfile;
      destruct (CreateTexture_file host p w) as [h w1] end.
    exact Hfile.
  - match goal with |- context [CreateTexture_file host ?p w] =>
      specialize (Hfile p); cbv zeta in Hfile;
      destruct (CreateTexture_file host p w) as [h w1] end.
    exact Hfile.
  - by repeat split.
Qed.

(** *** The channels after a launch *)

Lemma Launch_shaderTextures preset (w w' : World) :
  Launch host preset w = Ok w' ->
  exists w2 w3,
    Launch_channels host preset w2 = Ok w3 /\
    m_shaderTextures (self w2) = m_shaderTextures (self w) /\
    (forall i, (i < 4)%nat -> m_channelTextures (self w2) i = 0) /\
    m_shaderTextures (self w') = m_shaderTextures (self w3) /\
    m_usedShaderFile (self w') = m_usedShaderFile (self w3) /\
    exists w4,
      w4 = Launch_textures host w3 /\
      m_channelTextures (self w') = m_channelTextures (self w4).
Proof.
  intros H.
  apply Launch_inv in H
    as (bits & w1 & w2 & w3 & w4 & w5 & Ha & E2 & Hc & E4 & E5 & E6).
  apply DetermineBitsPrecision_Ok in Ha as (K1 & _).
  pose proof (UnloadTextures_quiet
                (on_self (set_m_bitsPrecision (Z.max bits 13)) w1)) as [K2 _].
  pose proof (UnloadTextures_spec
                (on_self (set_m_bitsPrecision (Z.max bits 13)) w1)) as [Z2 _].
  rewrite <- E2 in K2, Z2.
  destruct K1 as (_ & _ & _ & _ & S1 & _), K2 as (_ & _ & _ & _ & S2 & _).
  cbn in S2.
  pose proof (Launch_textures_quiet host w3) as [K4 _].
  pose proof (Launch_textures_kept w3) as (F4 & _).
  rewrite <- E4 in K4, F4. destruct K4 as (_ & _ & _ & _ & S4 & _).
  assert (m_usedShaderFile (self w5) = m_usedShaderFile (self w4) /\
          m_shaderTextures (self w5) = m_shaderTextures (self w4) /\
          m_channelTextures (self w5) = m_channelTextures (self w4))
    as (F5 & S5 & C5) by (by rewrite E5).
  pose proof (LoadPreset_shader_quiet host (m_usedShaderFile (self w5)) w5)
    as [K6 _].
  pose proof (LoadPreset_shader_kept (m_usedShaderFile (self w5)) w5)
    as (F6 & _).
  assert (m_channelTextures (self (LoadPreset_shader host
                                     (m_usedShaderFile (self w5)) w5))
          = m_channelTextures (self w5)) as C6.
  { unfold LoadPreset_shader. cbv zeta.
    destruct (UnloadPreset_release w5) as (C & _).
    remember (UnloadPreset w5) as v eqn:Ev. clear Ev. rewrite <- C.
    kept_cases; reflexivity. }
  rewrite <- E6 in K6, F6, C6. destruct K6 as (_ & _ & _ & _ & S6 & _).
  exists w2, w3. split; [exact Hc |]. split; [congruence |].
  split; [exact Z2 |]. split; [congruence |]. split; [congruence |].
  exists w4. split; [exact E4 | congruence].
Qed.

(** X17. The channel descriptors after [Launch] of the two catalog
    presets.  A channel with a file tag gets the path of that resource and
    keeps the audio flag it had; the channel with tag 99 gets the audio
    flag and keeps the path it had; a channel with tag -1 gets no path and
    no audio flag. *)
Theorem Launch_catalog_descriptors (w w' : World) :
  let old := m_shaderTextures (self w) in
  let new := m_shaderTextures (self w') in
  (Launch host 0 w = Ok w' ->
   m_usedShaderFile (self w')
     = GetAddonPath host "resources/shaders/kodi.frag.glsl" /\
   new 0%nat = {| audio := true; texture := texture (old 0%nat) |} /\
   new 1%nat = {| audio := audio (old 1%nat);
              texture := GetAddonPath host "resources/logo.png" |} /\
   new 2%nat = {| audio := audio (old 2%nat);
              texture := GetAddonPath host "resources/noise.png" |} /\
   new 3%nat = {| audio := false; texture := "" |}) /\
  (Launch host 1 w = Ok w' ->
   m_usedShaderFile (self w')
     = GetAddonPath host "resources/shaders/album.frag.glsl" /\
   new 0%nat = {| audio := true; texture := texture (old 0%nat) |} /\
   new 1%nat = {| audio := audio (old 1%nat);
              texture := GetAddonPath host "resources/logo.png" |} /\
   new 2%nat = {| audio := audio (old 2%nat);
              texture := GetAddonPath host "resources/noise.png" |} /\
   new 3%nat = {| audio := audio (old 3%nat);
              texture := GetAddonPath host "resources/album.png" |}).
Proof.
  cbv zeta. split; intros H;
    apply Launch_shaderTextures in H
      as (w2 & w3 & Hc & S2 & _ & S' & F' & _);
    rewrite S', F', <- S2; clear S' F' S2;
    unfold Launch_channels in Hc; cbn in Hc; apply Ok_inj in Hc;
    subst w3; by repeat split.
Qed.

Lemma load_channel_spec i (w : World) :
  m_shaderTextures (self (load_channel host i w)) = m_shaderTextures (self w) /\
  (forall j, j <> i ->
     m_channelTextures (self (load_channel host i w)) j
       = m_channelTextures (self w) j) /\
  m_channelTextures (self (load_channel host i w)) i
    = (if decide (texture (m_shaderTextures (self w) i) = "")
       then m_channelTextures (self w) i
       else if stbi_load host (texture (m_shaderTextures (self w) i))
            then glGen host (gl_textures (gl w)) else 0).
Proof.
  unfold load_channel. cbv zeta. case_decide; [done |].
  unfold CreateTexture_file.
  destruct (stbi_load host _).
  - unfold CreateTexture_image, glGenTextures. cbv beta iota zeta. cbn.
    split; [done | split]; [| apply fn_lookup_insert].
    intros j Hj. by rewrite fn_lookup_insert_ne.
  - cbn. split; [done | split]; [| apply fn_lookup_insert].
    intros j Hj. by rewrite fn_lookup_insert_ne.
Qed.

Hypothesis glGen_nonzero : forall names, glGen host names <> 0.

Lemma load_channel_loaded i (w : World) :
  m_channelTextures (self w) i = 0 ->
  m_channelTextures (self (load_channel host i w)) i <> 0 <->
  texture (m_shaderTextures (self w) i) <> "" /\
  stbi_load host (texture (m_shaderTextures (self w) i)) = true.
Proof.
  intros Hz. destruct (load_channel_spec i w) as (_ & _ & ->).
  case_decide as Hp.
  - rewrite Hz. split; [done | intros [Hne _]; contradiction].
  - destruct (stbi_load host _).
    + split; [done | intros _; apply glGen_nonzero].
    + split; [done | intros [_ Hf]; discriminate Hf].
Qed.

(** X18. After [Launch], each of the channels 1, 2 and 3 has a texture
    exactly when its descriptor names a file and that file decodes: with no
    file, or with an image that cannot be loaded, the slot is zero and the
    launch goes on. *)
Theorem Launch_file_textures preset (w w' : World) (i : nat) :
  Launch host preset w = Ok w' ->
  (1 <= i < 4)%nat ->
  m_channelTextures (self w') i <> 0 <->
  texture (m_shaderTextures (self w') i) <> "" /\
  stbi_load host (texture (m_shaderTextures (self w') i)) = true.
Proof.
  intros H Hi.
  apply Launch_shaderTextures in H
    as (w2 & w3 & Hc & _ & Z2 & S' & _ & w4 & E4 & C').
  apply Launch_channels_Ok in Hc as (f & path & E3).
  assert (forall j, (j < 4)%nat -> m_channelTextures (self w3) j = 0) as Z3
    by (intros j Hj; rewrite E3; by apply Z2).
  clear E3 Z2. rewrite C', S', E4. clear C' S' E4 w4 w' w2.
  unfold Launch_textures.
  destruct (CreateTexture_data host (m_audioData (self w3)) w3) as [h w0] eqn:E0.
  assert (self w0 = self w3) as S0.
  { unfold CreateTexture_data, glGenTextures in E0. cbv beta iota zeta in E0.
    apply (f_equal snd) in E0. cbn in E0. by subst w0. }
  cbv zeta.
  set (v0 := set_channel 0 h w0).
  assert (m_shaderTextures (self v0) = m_shaderTextures (self w3) /\
          forall j, (1 <= j < 4)%nat -> m_channelTextures (self v0) j = 0)
    as [T0 C0].
  { subst v0. cbn. rewrite S0. split; [done |]. intros j Hj.
    rewrite fn_lookup_insert_ne by lia. apply Z3. lia. }
  clearbody v0. clear E0 S0 Z3 w0 h.
  destruct (load_channel_spec 1 v0) as (T1 & O1 & _).
  pose proof (load_channel_loaded 1 v0 (C0 1%nat ltac:(lia))) as L1.
  set (v1 := load_channel host 1 v0) in *. clearbody v1.
  destruct (load_channel_spec 2 v1) as (T2 & O2 & _).
  pose proof (load_channel_loaded 2 v1) as L2.
  rewrite (O1 2%nat), (C0 2%nat) in L2 by lia. specialize (L2 eq_refl).
  set (v2 := load_channel host 2 v1) in *. clearbody v2.
  destruct (load_channel_spec 3 v2) as (T3 & O3 & _).
  pose proof (load_channel_loaded 3 v2) as L3.
  rewrite (O2 3%nat), (O1 3%nat), (C0 3%nat) in L3 by lia.
  specialize (L3 eq_refl).
  set (v3 := load_channel host 3 v2) in *. clearbody v3.
  rewrite <- T0, <- T1, <- T2.
  destruct i as [|[|[|[|i]]]]; try lia.
  - rewrite (O3 1%nat), (O2 1%nat) by lia. rewrite T2, T1. exact L1.
  - rewrite (O3 2%nat) by lia. rewrite T2. exact L2.
  - exact L3.
Qed.

(** *** A frame *)

Lemma uniform_no_frame (ev : list Event) :
  forallb is_uniform ev = true -> List.filter is_frame ev = [].
Proof.
  induction ev as [|[] ev IH]; simpl; try done; auto.
Qed.

Lemma foldl_upload_flag {B} (f : World -> B -> World) (l : list B) :
  (forall w b, m_needsUpload (self (f w b)) = m_needsUpload (self w)) ->
  forall w, m_needsUpload (self (foldl f w l)) = m_needsUpload (self w).
Proof.
  intros Hf. induction l as [|b l IH]; intros w; simpl; [done |].
  by rewrite IH, Hf.
Qed.

(** The effect pass clears the upload flag; the display pass leaves it. *)
Lemma RenderTo_upload_flag shader fb (w w' : World) :
  RenderTo host shader fb w = Ok w' ->
  m_needsUpload (self w')
    = (if decide (shader = m_matrixShader (self w)) then false
       else m_needsUpload (self w)).
Proof.
  unfold RenderTo. intros H. inv_bind H. apply Ok_inj in H. subst w'.
  unfold unbind_units. rewrite foldl_upload_flag by done.
  case_decide.
  - unfold now in Ha. cbv beta iota zeta in Ha. inv_bind Ha.
    apply Ok_inj in Ha. subst a. unfold RenderTo_effect. cbv zeta.
    unfold bind_channels. rewrite foldl_upload_flag by done.
    cbn [emit self set_trace].
    destruct (m_needsUpload (self (set_ticks _ w))) eqn:E;
      [reflexivity | exact E].
  - apply Ok_inj in Ha. by subst a.
Qed.

(** X19. A defined [Render] on an initialised object draws exactly one
    frame and never runs the probe; afterwards no upload of the analysis
    buffer is pending; and the call changes neither the preset, the bit
    width, the channel descriptors and the output buffer, nor the shader
    file, the sample rate, the framebuffer size, the ring and the
    magnitudes. *)
Theorem Render_draws_one_frame (w w' : World) :
  m_initialized (self w) = true ->
  Render host w = Ok w' ->
  frames w' = S (frames w) /\
  probes w' = probes w /\
  m_needsUpload (self w') = false /\
  fields_kept w w' /\
  settings_kept w w'.
Proof.
  intros Hinit. unfold Render. rewrite Hinit. cbv zeta. intros H.
  assert (exists ev,
            trace w' = ev ++ Frame :: trace w /\
            forallb is_uniform ev = true /\
            m_needsUpload (self w') = false /\
            fields_kept w w' /\ settings_kept w w') as (ev & T & U & N & K & Sk).
  { case_decide.
    - inv_bind H.
      pose proof (RenderTo_upload_flag _ _ _ _ Ha) as N1.
      rewrite decide_True in N1 by done.
      pose proof (RenderTo_kept _ _ _ _ Ha) as S1.
      apply RenderTo_Ok in Ha as (K1 & e1 & T1 & U1).
      pose proof (RenderTo_upload_flag _ _ _ _ H) as N2.
      pose proof (RenderTo_kept _ _ _ _ H) as S2.
      apply RenderTo_Ok in H as (K2 & e2 & T2 & U2).
      exists (e2 ++ e1). split; [by rewrite T2, T1, <- app_assoc |].
      split; [by rewrite forallb_app, U1, U2 |].
      split; [rewrite N2; case_decide; [done | exact N1] |].
      split.
      + eapply fields_kept_trans; [| exact K2].
        eapply fields_kept_trans; [| exact K1]. by repeat split.
      + eapply settings_kept_trans; [| exact S2].
        eapply settings_kept_trans; [| exact S1]. by repeat split.
    - pose proof (RenderTo_upload_flag _ _ _ _ H) as N1.
      rewrite decide_True in N1 by done.
      pose proof (RenderTo_kept _ _ _ _ H) as S1.
      apply RenderTo_Ok in H as (K1 & e1 & T1 & U1).
      exists e1. split; [exact T1 |]. split; [exact U1 |].
      split; [exact N1 |]. split.
      + eapply fields_kept_trans; [| exact K1]. by repeat split.
      + eapply settings_kept_trans; [| exact S1]. by repeat split. }
  unfold frames, probes. rewrite T, !List.filter_app, !length_app.
  rewrite (uniform_no_frame ev U), (uniform_no_probe ev U).
  split; [reflexivity |]. split; [reflexivity |].
  split; [exact N |]. split; [exact K | exact Sk].
Qed.

End LifecycleFacts.

(** ** Random selection, in IEEE arithmetic *)

(** The 64 largest [int] values convert to the same [float], 2^31. *)
Lemma top_ints_round_up (r : Z) :
  2147483584 <= r <= 2147483647 ->
  IEEE.of_Z 24 128 r = IEEE.of_Z 24 128 2147483647.
Proof.
  intros Hr.
  assert (exists k, (k < 64)%nat /\ r = 2147483584 + Z.of_nat k) as (k & Hk & ->).
  { exists (Z.to_nat (r - 2147483584)). split; lia. }
  clear Hr.
  do 64 (destruct k as [|k]; [vm_compute; reflexivity |]). lia.
Qed.

(** X16. [RandomPreset] computes [(int)((rand() / (float)RAND_MAX) * 2)].
    With [RAND_MAX = 2^31 - 1] and without a custom shader set, each of the
    64 largest values of [rand()] converts to the same [float] as
    [RAND_MAX], the index is 2, one past the catalog, and the call is
    undefined. *)
Theorem RandomPreset_overruns_the_catalog (host : Host) (w : @World IEEE754) :
  RAND_MAX host = 2147483647 ->
  2147483584 <= rand host (rands w) <= 2147483647 ->
  m_settingsUseOwnshader (self w) = false ->
  exists u, RandomPreset host w = Undefined u.
Proof.
  intros Hmax Hr Hown. unfold RandomPreset. rewrite Hown, Hmax. cbv zeta.
  change (@f_of_Z IEEE754) with (IEEE.of_Z 24 128).
  rewrite (top_ints_round_up _ Hr).
  assert (cast (@f_to_int IEEE754
                  (@f_mul IEEE754
                     (@f_div IEEE754 (IEEE.of_Z 24 128 2147483647)
                        (IEEE.of_Z 24 128 2147483647))
                     (IEEE.of_Z 24 128 (Z.of_nat (length g_presets)))))
          = Ok 2) as -> by (vm_compute; reflexivity).
  change (Ok 2 ≫= ?f) with (f 2). cbv beta.
  destruct (switch_to host 2 _) as [w'|u] eqn:E; [| by exists u].
  exfalso. unfold switch_to in E. cbv zeta in E. inv_bind E.
  apply Launch_Ok_index in Ha.
  change (m_currentPreset (self (on_self (set_m_currentPreset 2) _)))
    with 2 in Ha.
  change (Z.of_nat (length g_presets)) with 2 in Ha. lia.
Qed.

(** ** Instances *)

(** C2, as amended, at three frames: the second destination frame is the
    mean of the third and fourth samples. *)
Lemma Mix_two_channels_averages_witness :
  exists mixed,
    @Mix IEEE754 (Sample.silence 4) 0 (Sample.ramp 6) 0 3 2 = Ok mixed /\
    exists a b,
      Sample.ramp 6 !! 2%nat = Some a /\
      Sample.ramp 6 !! 3%nat = Some b /\
      mixed !! 1%nat
        = Some (f_div (f_add (f_add (f_of_Z 0) a) b) (f_of_Z 2)).
Proof.
  destruct (@Mix_two_channels_averages IEEE754 (Sample.silence 4)
              (Sample.ramp 6) 3) as (mixed & H & _ & Hin).
  - apply Nat.leb_le. reflexivity.
  - apply Nat.leb_le. reflexivity.
  - reflexivity.
  - exists mixed. split; [exact H |]. apply (Hin 1%nat). lia.
Defined.

(** X1 at three frames written from slot 1 of four. *)
Lemma Mix_stereo_frames_witness :
  exists dst',
    @Mix IEEE754 (Sample.silence 4) 1 (Sample.ramp 6) 0 3 2 = Ok dst' /\
    length dst' = length (Sample.silence 4) /\
    dst' !! 0%nat = Sample.silence 4 !! 0%nat.
Proof.
  destruct (@Mix_stereo_frames IEEE754 (Sample.silence 4) (Sample.ramp 6)
              1 0 3) as (dst' & H & L & _ & Hout).
  - apply Nat.leb_le. reflexivity.
  - apply Nat.leb_le. reflexivity.
  - reflexivity.
  - exists dst'. split; [exact H |]. split; [exact L |]. apply Hout. lia.
Defined.

(** X2 at a chunk of three frames. *)
Lemma WriteToBuffer_short_chunk_slides_witness :
  exists pcm',
    @WriteToBuffer IEEE754 (Sample.silence 1024) (Sample.ramp 6) 6 2 = Ok pcm' /\
    length pcm' = AUDIO_BUFFER /\
    pcm' !! 0%nat = Sample.silence 1024 !! 3%nat.
Proof.
  destruct (@WriteToBuffer_short_chunk_slides IEEE754 (Sample.silence 1024)
              (Sample.ramp 6) 6) as (pcm' & H & L & Hkeep & _).
  - reflexivity.
  - apply Nat.leb_le. reflexivity.
  - apply Nat.ltb_lt. reflexivity.
  - exists pcm'. split; [exact H |]. split; [exact L |].
    apply (Hkeep 0%nat). apply Nat.ltb_lt. reflexivity.
Defined.

(** X3 at a chunk of 1025 frames. *)
Lemma WriteToBuffer_long_chunk_replaces_witness :
  exists pcm',
    @WriteToBuffer IEEE754 (Sample.silence 1024) (Sample.ramp 2050) 2050 2
      = Ok pcm' /\
    length pcm' = AUDIO_BUFFER.
Proof.
  destruct (@WriteToBuffer_long_chunk_replaces IEEE754 (Sample.silence 1024)
              (Sample.ramp 2050) 2050) as (pcm' & H & L & _).
  - reflexivity.
  - apply Nat.leb_le. vm_compute. reflexivity.
  - apply Nat.leb_le. vm_compute. reflexivity.
  - exists pcm'. split; [exact H | exact L].
Defined.

(** X4 on 1024 silent frames. *)
Lemma AudioData_waveform_bytes_witness :
  exists o',
    @AudioData IEEE754 Sample.cos_one Sample.log10f_minus_four Sample.fft_3_4i
      Sample.host
      (Sample.silence 2048) 2048 Sample.object = Ok o' /\
    is_Some (m_audioData o' !! (NUM_BANDS + 0)%nat).
Proof.
  destruct (is_Ok_inv
              (@AudioData IEEE754 Sample.cos_one Sample.log10f_minus_four
                 Sample.fft_3_4i Sample.host (Sample.silence 2048) 2048
                 Sample.object))
    as [o' E]; [vm_compute; reflexivity |].
  exists o'. split; [exact E |].
  destruct (@AudioData_waveform_bytes IEEE754 _ _ _ _ _ _ _ _ E 0%nat)
    as (x & v & _ & _ & Hd).
  - apply Nat.ltb_lt. reflexivity.
  - rewrite Hd. by eexists.
Defined.

(** X5 on 1024 silent frames. *)
Lemma AudioData_writes_bytes_witness :
  exists o' b,
    @AudioData IEEE754 Sample.cos_one Sample.log10f_minus_four Sample.fft_3_4i
      Sample.host
      (Sample.silence 2048) 2048 Sample.object = Ok o' /\
    m_audioData o' !! 1023%nat = Some b /\ 0 <= b <= 255.
Proof.
  destruct (is_Ok_inv
              (@AudioData IEEE754 Sample.cos_one Sample.log10f_minus_four
                 Sample.fft_3_4i Sample.host (Sample.silence 2048) 2048
                 Sample.object))
    as [o' E]; [vm_compute; reflexivity |].
  destruct (@AudioData_writes_bytes IEEE754 _ _ _ _ _ _ _ _ E) as (_ & _ & Hb).
  destruct (Hb 1023%nat) as (b & Hd & Hr).
  - apply Nat.ltb_lt. reflexivity.
  - exists o', b. split; [exact E |]. split; [exact Hd | exact Hr].
Defined.

(** X6 on two chunks, of 1024 frames and of three. *)
Lemma AudioData_stream_stays_in_bounds_witness :
  match
    @run IEEE754 Sample.cos_one Sample.log10f_minus_four Sample.fft_3_4i
      Sample.host
      [@OpAudioData IEEE754 (Sample.silence 2048) 2048;
       @OpAudioData IEEE754 (Sample.ramp 6) 6]
      Sample.world
  with
  | Ok w' => buffers_sized (self w')
  | Undefined u => u = BadCast
  end.
Proof.
  apply (@AudioData_stream_stays_in_bounds IEEE754).
  - repeat constructor; apply Z.leb_le; vm_compute; reflexivity.
  - apply (@constructor_buffers_sized IEEE754).
Defined.

(** X7 at preset 0. *)
Lemma Launch_bit_width_and_size_witness :
  exists w' : @World IEEE754,
    Launch Sample.host 0 Sample.world = Ok w' /\
    13 <= m_bitsPrecision (self w') <= 130 /\
    fbwidth (m_state (self w')) = Width Sample.host /\
    fbheight (m_state (self w')) = Height Sample.host.
Proof.
  destruct (is_Ok_inv (@Launch IEEE754 Sample.host 0 Sample.world)) as [w' E];
    [vm_compute; reflexivity |].
  exists w'. split; [exact E |].
  exact (@Launch_bit_width_and_size IEEE754 Sample.host 0 Sample.world w' E).
Defined.

(** X8 at preset -1. *)
Lemma Launch_custom_shader_set_witness :
  exists w' : @World IEEE754,
    Launch Sample.host (-1) Sample.world = Ok w' /\
    m_usedShaderFile (self w') = GetSettingString Sample.host "shader".
Proof.
  destruct (is_Ok_inv (@Launch IEEE754 Sample.host (-1) Sample.world))
    as [w' E]; [vm_compute; reflexivity |].
  exists w'. split; [exact E |].
  destruct (@Launch_custom_shader_set IEEE754 Sample.host (-1) Sample.world
              w') as (F & _); [lia | exact E |].
  exact F.
Defined.

(** X9 at the stored index 5. *)
Lemma Start_trusts_the_stored_index_witness :
  m_currentPreset (self (Sample.world_of (Sample.host_with false 5 0))) = 5 /\
  exists u,
    Start (Sample.host_with false 5 0) 44100
      (Sample.world_of (Sample.host_with false 5 0)) = Undefined u.
Proof.
  apply (@Start_trusts_the_stored_index IEEE754 (Sample.host_with false 5 0)
           Sample.object).
  - reflexivity.
  - reflexivity.
  - apply Z.leb_le. reflexivity.
Defined.

(** X10 at [LoadPreset(-7)]. *)
Lemma LoadPreset_selects_modulo_witness :
  exists w' : @World IEEE754,
    LoadPreset Sample.host (-7) Sample.world = Ok w' /\
    GetActivePreset w' = 1 /\ lastpresetidx w' = 1.
Proof.
  destruct (is_Ok_inv (@LoadPreset IEEE754 Sample.host (-7) Sample.world))
    as [w' E]; [vm_compute; reflexivity |].
  exists w'. split; [exact E |].
  destruct (@LoadPreset_selects_modulo IEEE754 Sample.host (-7) Sample.world w')
    as (G & L & _); [reflexivity | reflexivity | exact E |].
  split; [exact G | exact L].
Defined.

(** X11 from preset 0. *)
Lemma NextPreset_PrevPreset_inverse_witness :
  exists w1 w2 : @World IEEE754,
    NextPreset Sample.host Sample.world = Ok w1 /\
    PrevPreset Sample.host w1 = Ok w2 /\
    m_currentPreset (self w2) = m_currentPreset (self Sample.world).
Proof.
  destruct (is_Ok_inv
              (w1 ← @NextPreset IEEE754 Sample.host Sample.world;
               PrevPreset Sample.host w1)) as [w2 E];
    [vm_compute; reflexivity |].
  destruct (NextPreset Sample.host Sample.world) as [w1|u] eqn:E1;
    [| discriminate E].
  change (Ok w1 ≫= ?f) with (f w1) in E. cbv beta in E.
  exists w1, w2. split; [reflexivity |]. split; [exact E |].
  destruct (@NextPreset_PrevPreset_inverse IEEE754 Sample.host Sample.world
              w1 w2) as [H _].
  - reflexivity.
  - reflexivity.
  - split; [apply Z.leb_le | apply Z.ltb_lt]; reflexivity.
  - exact (H E1 E).
Defined.

(** X12 at four navigation calls. *)
Lemma custom_shader_disables_navigation_witness :
  @run IEEE754 Sample.cos_one Sample.log10f_minus_four Sample.fft_3_4i
    (Sample.host_with true 0 0)
    [OpNextPreset; OpRandomPreset; OpLoadPreset 1; OpPrevPreset]
    (Sample.world_of (Sample.host_with true 0 0))
    = Ok (Sample.world_of (Sample.host_with true 0 0)) /\
  GetActivePreset (Sample.world_of (Sample.host_with true 0 0)) = -1 /\
  GetPresets [] (Sample.world_of (Sample.host_with true 0 0)) = [].
Proof.
  apply (@custom_shader_disables_navigation IEEE754 (Sample.host_with true 0 0)
           Sample.cos_one Sample.log10f_minus_four Sample.fft_3_4i
           Sample.object).
  - reflexivity.
  - reflexivity.
  - repeat constructor.
Defined.

(** X16 at [rand() = RAND_MAX]. *)
Lemma RandomPreset_overruns_the_catalog_witness :
  exists u,
    @RandomPreset IEEE754 (Sample.host_with false 0 2147483647) Sample.world
      = Undefined u.
Proof.
  apply RandomPreset_overruns_the_catalog.
  - reflexivity.
  - split; [apply Z.leb_le | apply Z.leb_le]; reflexivity.
  - reflexivity.
Defined.

(** X18 at channel 1 of preset 0. *)
Lemma Launch_file_textures_witness :
  exists w' : @World IEEE754,
    Launch Sample.host 0 Sample.world = Ok w' /\
    (m_channelTextures (self w') 1 <> 0 <->
     texture (m_shaderTextures (self w') 1) <> "" /\
     stbi_load Sample.host (texture (m_shaderTextures (self w') 1)) = true).
Proof.
  destruct (is_Ok_inv (@Launch IEEE754 Sample.host 0 Sample.world)) as [w' E];
    [vm_compute; reflexivity |].
  exists w'. split; [exact E |].
  apply (@Launch_file_textures IEEE754 Sample.host
           (fun names => proj2 (Sample_glGen_fresh names)) 0 Sample.world w' 1 E).
  lia.
Defined.

(** X19 on the first frame after [Start]. *)
Lemma Render_draws_one_frame_witness :
  exists w w' : @World IEEE754,
    Start Sample.host 44100 Sample.world = Ok w /\
    Render Sample.host w = Ok w' /\
    frames w' = S (frames w) /\
    m_needsUpload (self w') = false.
Proof.
  destruct (is_Ok_inv
              (w ← @Start IEEE754 Sample.host 44100 Sample.world;
               Render Sample.host w)) as [w' E];
    [vm_compute; reflexivity |].
  assert (match @Start IEEE754 Sample.host 44100 Sample.world with
          | Ok w => m_initialized (self w)
          | Undefined _ => false
          end = true) as I by (vm_compute; reflexivity).
  destruct (Start Sample.host 44100 Sample.world) as [w|u] eqn:E1;
    [| discriminate E].
  change (Ok w ≫= ?f) with (f w) in E. cbv beta in E.
  exists w, w'. split; [reflexivity |]. split; [exact E |].
  destruct (@Render_draws_one_frame IEEE754 Sample.host w w' I E)
    as (F & _ & N & _).
  split; [exact F | exact N].
Defined.
